(** * Feed pipeline and fan-out worker: a shallow embedding

    The development follows the layout of the repository:

    - [services/fanout-worker/app/main.py]   -> [Module FanoutWorker]
    - [services/api/app/clients/redis_client.py]   -> [Module RedisClient]
    - [services/api/app/clients/pinot_client.py]   -> [Module PinotClient]
    - [services/api/app/clients/feast_client.py]   -> [Module FeastClient]
    - [services/api/app/clients/ranking_client.py] -> [Module RankingClient]
    - [services/api/app/routers/feed.py]           -> [Module Feed]

    Python values that arrive over the wire are kept as JSON trees and the
    dynamic checks the interpreter performs on them ([d[k]], [d.get], [len],
    iteration, truthiness) are written out, each with the exception it raises.
    Floats are idealised as real numbers: a statement about a computed float
    is made up to rounding, and for inputs on which the float computation
    neither overflows nor underflows. *)

From Stdlib Require Import Reals Lra Psatz QArith ZArith Lia.
From stdpp Require Import base option list gmap strings sorting pretty.

#[local] Set Warnings "-clear-no-such-hyp".
Local Open Scope string_scope.
Local Open Scope list_scope.

(** ** Exceptions and the result of a Python call *)

Inductive exn : Type :=
| KeyError
| TypeError
| AttributeError
| IndexError
| ValueError
| ZeroDivisionError
| OverflowError
| HTTPException (status_code : Z)
| ClientError (what : string).  (* raised by httpx / redis / qdrant / the SQL driver *)

Inductive py (A : Type) : Type :=
| Return (a : A)
| Raise (e : exn).
Arguments Return {A} a.
Arguments Raise {A} e.

#[global] Instance py_ret : MRet py := fun A a => Return a.
#[global] Instance py_bind : MBind py := fun A B f m =>
  match m with
  | Return a => f a
  | Raise e => Raise e
  end.
#[global] Instance py_fmap : FMap py := fun A B f m =>
  match m with
  | Return a => Return (f a)
  | Raise e => Raise e
  end.

(** [try: body / except Exception as exc: handler(exc)].  Every class of
    [exn] derives from [Exception]. *)
Definition try_except {A} (body : py A) (handler : exn -> py A) : py A :=
  match body with
  | Return a => Return a
  | Raise e => handler e
  end.

Definition raises {A} (m : py A) : Prop := exists e, m = Raise e.
Definition returns {A} (m : py A) : Prop := exists a, m = Return a.

(** [for x in xs: body], threading an accumulator and stopping at the first
    exception. *)
Fixpoint py_foldl {A B} (f : B -> A -> py B) (acc : B) (xs : list A) : py B :=
  match xs with
  | [] => Return acc
  | x :: xs' => acc' ← f acc x; py_foldl f acc' xs'
  end.

Fixpoint py_mapM {A B} (f : A -> py B) (xs : list A) : py (list B) :=
  match xs with
  | [] => Return []
  | x :: xs' => y ← f x; ys ← py_mapM f xs'; Return (y :: ys)
  end.

(** ** JSON-shaped Python values *)

#[warnings="-register-all"]
Inductive json : Type :=
| JNull
| JBool (b : bool)
| JNum (r : R)
| JStr (s : string)
| JArr (items : list json)
| JObj (fields : list (string * json)).

#[global] Instance R_eq_dec : EqDecision R := Req_dec_T.

Fixpoint assoc_get {V} (fields : list (string * V)) (k : string) : option V :=
  match fields with
  | [] => None
  | (k', v) :: rest => if String.eqb k' k then Some v else assoc_get rest k
  end.

(** [bool(v)] *)
Definition truthy (v : json) : bool :=
  match v with
  | JNull => false
  | JBool b => b
  | JNum r => negb (bool_decide (r = 0%R))
  | JStr s => negb (String.eqb s "")
  | JArr items => match items with [] => false | _ => true end
  | JObj fields => match fields with [] => false | _ => true end
  end.

(** Lists and dicts are unhashable: they can be neither set members nor
    dict keys. *)
Definition hashable (v : json) : bool :=
  match v with
  | JArr _ | JObj _ => false
  | _ => true
  end.

(** Numbers, with [bool] a subtype of [int]. *)
Definition as_number (v : json) : option R :=
  match v with
  | JNum r => Some r
  | JBool true => Some 1%R
  | JBool false => Some 0%R
  | _ => None
  end.

(** [a == b] on hashable values. *)
Definition py_eqb (a b : json) : bool :=
  match as_number a, as_number b with
  | Some x, Some y => bool_decide (x = y)
  | _, _ =>
      match a, b with
      | JNull, JNull => true
      | JStr s, JStr t => String.eqb s t
      | _, _ => false
      end
  end.

(** [v[k]] with a string key *)
Definition getitem (v : json) (k : string) : py json :=
  match v with
  | JObj fields =>
      match assoc_get fields k with
      | Some x => Return x
      | None => Raise KeyError
      end
  | _ => Raise TypeError
  end.

(** [v.get(k, dflt)] *)
Definition dict_get (v : json) (k : string) (dflt : json) : py json :=
  match v with
  | JObj fields => Return (default dflt (assoc_get fields k))
  | _ => Raise AttributeError
  end.

Definition chars (s : string) : list json :=
  (fun c => JStr (String c EmptyString)) <$> String.list_ascii_of_string s.

(** [iter(v)]: a list yields its items, a string its characters, a dict its
    keys. *)
Definition py_iter (v : json) : py (list json) :=
  match v with
  | JArr items => Return items
  | JStr s => Return (chars s)
  | JObj fields => Return ((fun kv => JStr kv.1) <$> fields)
  | _ => Raise TypeError
  end.

(** [len(v)] *)
Definition py_len (v : json) : py nat :=
  match v with
  | JArr items => Return (length items)
  | JStr s => Return (String.length s)
  | JObj fields => Return (length fields)
  | _ => Raise TypeError
  end.

(** [v[i]] with a non-negative integer index *)
Definition getitem_idx (v : json) (i : nat) : py json :=
  match v with
  | JArr items =>
      match items !! i with
      | Some x => Return x
      | None => Raise IndexError
      end
  | JStr s =>
      match chars s !! i with
      | Some x => Return x
      | None => Raise IndexError
      end
  | JObj _ => Raise KeyError
  | _ => Raise TypeError
  end.

(** [list(set(xs))]: raises on an unhashable member; the iteration order of
    a Python set is unspecified, the model fixes it to first occurrence. *)
Fixpoint py_mem (x : json) (xs : list json) : bool :=
  match xs with
  | [] => false
  | y :: ys => py_eqb y x || py_mem x ys
  end.

Fixpoint py_set_acc (seen xs : list json) : py (list json) :=
  match xs with
  | [] => Return (rev seen)
  | x :: xs' =>
      if hashable x
      then py_set_acc (if py_mem x seen then seen else x :: seen) xs'
      else Raise TypeError
  end.

Definition py_set (xs : list json) : py (list json) := py_set_acc [] xs.

(** ** Library functions taken as given

    [json.loads] on a string and [float] on a string are the interpreter's;
    they are an interface of the model. *)

Class Runtime := {
  json_loads : string -> py json;
  float_of_string : string -> py R;
}.

(** [float(v)] *)
Definition py_float `{Runtime} (v : json) : py R :=
  match v with
  | JNum r => Return r
  | JBool true => Return 1%R
  | JBool false => Return 0%R
  | JStr s => float_of_string s
  | _ => Raise TypeError
  end.

(** [d[k] = val] on a dict built by the code and only ever read with string
    keys: a hashable key of another type cannot be hit by those reads and is
    not stored; an unhashable key raises. *)
Definition dict_set (d : gmap string json) (k val : json) : py (gmap string json) :=
  match k with
  | JStr s => Return (<[s := val]> d)
  | _ => if hashable k then Return d else Raise TypeError
  end.

(** [xs[:n]] *)
Definition slice_to {A} (xs : list A) (n : Z) : list A :=
  if (n <? 0)%Z then take (length xs - Z.to_nat (- n)) xs
  else take (Z.to_nat n) xs.

(** ** Redis sorted sets

    A ZSET is kept as the list of its (member, score) pairs in rank order:
    ascending score, ties broken by the byte order of the member.  Scores
    are IEEE doubles on the wire; only their order is used, and each finite
    double is a rational. *)

Module Redis.

Definition zset := list (string * Q).

Definition zkey_ltb (a b : string * Q) : bool :=
  match Qcompare a.2 b.2 with
  | Lt => true
  | Gt => false
  | Eq => String.ltb a.1 b.1
  end.

Fixpoint zinsert (e : string * Q) (z : zset) : zset :=
  match z with
  | [] => [e]
  | x :: z' => if zkey_ltb e x then e :: z else x :: zinsert e z'
  end.

Definition zrem (z : zset) (member : string) : zset :=
  filter (fun x => x.1 ≠ member) z.

(** ZADD key score member: insert, or move an existing member to its new
    score. *)
Definition zadd (z : zset) (member : string) (score : Q) : zset :=
  zinsert (member, score) (zrem z member).

(** Index sanitisation shared by the rank-range commands: negative
    indices count from the end; [None] is the empty range. *)
Definition rank_range (llen start stop : Z) : option (nat * nat) :=
  let start := if (start <? 0)%Z then (llen + start)%Z else start in
  let stop := if (stop <? 0)%Z then (llen + stop)%Z else stop in
  let start := if (start <? 0)%Z then 0%Z else start in
  if ((stop <? start) || (llen <=? start))%Z then None
  else
    let stop := if (llen <=? stop)%Z then (llen - 1)%Z else stop in
    Some (Z.to_nat start, Z.to_nat stop).

(** ZREMRANGEBYRANK key start stop *)
Definition zremrangebyrank (z : zset) (start stop : Z) : zset :=
  match rank_range (Z.of_nat (length z)) start stop with
  | None => z
  | Some (lo, hi) => (take lo z ++ drop (S hi) z)%list
  end.

(** ZREVRANGE key start stop: members only, highest rank first. *)
Definition zrevrange (z : zset) (start stop : Z) : list string :=
  match rank_range (Z.of_nat (length z)) start stop with
  | None => []
  | Some (lo, hi) => (take (S hi - lo) (drop lo (rev z))).*1
  end.

(** The keyspace: sorted sets and the expiry set on them.  A sorted set
    that becomes empty is removed together with its expiry. *)
Record store := Store {
  zsets : gmap string zset;
  ttls : gmap string Z;
}.

Definition zget (st : store) (key : string) : zset :=
  default [] (zsets st !! key).

Definition zput (st : store) (key : string) (z : zset) : store :=
  match z with
  | [] => Store (delete key (zsets st)) (delete key (ttls st))
  | _ => Store (<[key := z]> (zsets st)) (ttls st)
  end.

Definition cmd_zadd (key member : string) (score : Q) (st : store) : store :=
  zput st key (zadd (zget st key) member score).

Definition cmd_zremrangebyrank (key : string) (start stop : Z) (st : store) : store :=
  zput st key (zremrangebyrank (zget st key) start stop).

(** EXPIRE key seconds: no effect on a missing key; a timeout that is not
    positive deletes the key instead of setting an expiry. *)
Definition cmd_expire (key : string) (seconds : Z) (st : store) : store :=
  match zsets st !! key with
  | Some _ =>
      if (seconds <=? 0)%Z
      then Store (delete key (zsets st)) (delete key (ttls st))
      else Store (zsets st) (<[key := seconds]> (ttls st))
  | None => st
  end.

End Redis.

(** ** services/fanout-worker/app/config.py and main.py *)

Module FanoutWorker.

Record Settings := {
  redis_feed_ttl : Z;
  redis_feed_max_size : Z;
  fan_out_follower_cap : Z;
}.

Definition settings : Settings := {|
  redis_feed_ttl := 86400;
  redis_feed_max_size := 500;
  fan_out_follower_cap := 10000;
|}.

(** A row of the [follows] table: (follower_id, followee_id). *)
Definition follow_row := (string * string)%type.

(** [SELECT follower_id FROM follows WHERE followee_id = %s LIMIT %s] *)
Definition get_followers (follows : list follow_row) (user_id : string) (cap : Z)
  : py (list string) :=
  if (cap <? 0)%Z then Raise (ClientError "LIMIT")
  else
    let rows := filter (fun row => row.2 = user_id) follows in
    Return ((take (Z.to_nat cap) rows).*1).

(** The three commands go out as one pipeline, in this order. *)
Definition push_to_feed (cfg : Settings) (user_id post_id : string) (score : Q)
    (redis : Redis.store) : Redis.store :=
  let key := "feed:" +:+ user_id in
  let redis := Redis.cmd_zadd key post_id score redis in
  let redis := Redis.cmd_zremrangebyrank key 0 (- (redis_feed_max_size cfg + 1)) redis in
  Redis.cmd_expire key (redis_feed_ttl cfg) redis.

(** [not s] for the result of [msg.get(...)] *)
Definition missing (s : option string) : bool :=
  match s with
  | None => true
  | Some s => String.eqb s ""
  end.

(** The event is the decoded [{post_id, user_id, content}] object; [now] is
    the reading of [time.time()].  The pushes of [asyncio.gather] are applied
    in list order.  The follower query and the pipelines are taken to
    succeed: when one of them fails, [process_message] raises, a case the
    statements leave aside by speaking of the runs that return. *)
Definition process_message (cfg : Settings) (follows : list follow_row) (now : Q)
    (msg : gmap string string) (redis : Redis.store) : py Redis.store :=
  let post_id := msg !! "post_id" in
  let user_id := msg !! "user_id" in
  if missing post_id || missing user_id then Return redis
  else
    let post_id := default "" post_id in
    let user_id := default "" user_id in
    followers ← get_followers follows user_id (fan_out_follower_cap cfg);
    let follower_count := Z.of_nat (length followers) in
    if (follower_count =? 0)%Z then Return redis
    else if (fan_out_follower_cap cfg <=? follower_count)%Z then Return redis
    else
      let score := now in
      Return (foldl (fun redis fid => push_to_feed cfg fid post_id score redis)
                    redis followers).

End FanoutWorker.

(** ** services/api/app/config.py *)

Module Config.

Record Settings := {
  redis_feed_ttl : Z;
  redis_feed_max_size : Z;
  embedding_dimension : Z;
  pinot_lookback_hours : Z;
  ranking_candidate_limit : Z;
  feed_page_size : Z;
}.

Definition settings : Settings := {|
  redis_feed_ttl := 86400;
  redis_feed_max_size := 500;
  embedding_dimension := 384;
  pinot_lookback_hours := 24;
  ranking_candidate_limit := 100;
  feed_page_size := 20;
|}.

End Config.

(** ** services/api/app/clients/redis_client.py *)

Module RedisClient.
Import Config.

Definition get_social_feed (redis : Redis.store) (user_id : string) (limit : Z)
  : list string :=
  let key := "feed:" +:+ user_id in
  Redis.zrevrange (Redis.zget redis key) 0 (limit - 1).

(** [score=None] takes the clock reading [now]. *)
Definition push_to_feed (cfg : Settings) (now : Q) (user_id post_id : string)
    (score : option Q) (redis : Redis.store) : Redis.store :=
  let key := "feed:" +:+ user_id in
  let score := default now score in
  let redis := Redis.cmd_zadd key post_id score redis in
  let redis := Redis.cmd_zremrangebyrank key 0 (- (redis_feed_max_size cfg + 1)) redis in
  Redis.cmd_expire key (redis_feed_ttl cfg) redis.

Section WithRuntime.
Context `{Runtime}.

(** [{k: float(v) for k, v in raw.items()}] *)
Definition float_values (raw : gmap string string) : py (gmap string json) :=
  kvs ← py_mapM (fun kv : string * string =>
                   r ← float_of_string kv.2; Return (kv.1, JNum r))
                (map_to_list raw);
  Return (list_to_map kvs).

(** [hgetall] is the outcome of [r.hgetall("uf:" + user_id)]. *)
Definition get_user_features (hgetall : py (gmap string string)) (user_id : string)
  : py (gmap string json) :=
  raw ← hgetall;
  float_values raw.

(** [pipeline] is the outcome of the batch of [hgetall("pf:" + pid)]: the
    hash stored for each id (empty when the key is missing), or the error. *)
Definition get_post_features (pipeline : py (string -> gmap string string))
    (post_ids : list string) : py (gmap string (gmap string json)) :=
  results ← pipeline;
  py_foldl (fun acc pid =>
              pf ← float_values (results pid);
              Return (<[pid := pf]> acc)) ∅ post_ids.

End WithRuntime.

End RedisClient.

(** ** services/api/app/clients/pinot_client.py *)

Module PinotClient.

(** One step of the set comprehension [{row[0] for row in rows}]. *)
Definition add_first (acc : list json) (row : json) : py (list json) :=
  x ← getitem_idx row 0;
  if hashable x
  then Return (if py_mem x acc then acc else (acc ++ [x])%list)
  else Raise TypeError.

(** [http] is the outcome of the three statements
    [post("/query/sql")], [raise_for_status()], [resp.json()]: the decoded
    body, or the exception one of them raised.  The result is the set of
    first columns, as a duplicate-free list. *)
Definition query_seen (http : py json) : py (list json) :=
  data ← http;
  result_table ← dict_get data "resultTable" (JObj []);
  rows ← dict_get result_table "rows" (JArr []);
  rows ← py_iter rows;
  py_foldl add_first [] rows.

Definition get_seen_post_ids (http : py json) : py (list json) :=
  try_except (query_seen http) (fun exc => Return []).

End PinotClient.

(** ** services/api/app/clients/feast_client.py *)

Module FeastClient.

Definition _USER_PREFIX := "user_stats__".
Definition _POST_PREFIX := "post_stats__".
Definition _AFFINITY_PREFIX := "user_author_affinity__".

(** [s[len(prefix):]] when [s.startswith(prefix)] *)
Fixpoint strip_prefix (prefix s : string) : option string :=
  match prefix, s with
  | EmptyString, _ => Some s
  | String a prefix', String b s' =>
      if Ascii.eqb a b then strip_prefix prefix' s' else None
  | String _ _, EmptyString => None
  end.

(** A float32 array of one dimension, its entries idealised as reals. *)
Definition ndarray := list R.

(** [np.array(v, dtype=np.float32)].  The vectors in the feature store are
    JSON arrays of numbers (scripts/materialize_features.py writes
    [json.dumps(vec.tolist())]); numpy would also build 0-d and 2-d arrays
    from scalars and nested lists, which have no counterpart in [ndarray]
    and are rejected here. *)
Definition np_array (v : json) : py ndarray :=
  match v with
  | JArr items =>
      py_mapM (fun x => match as_number x with
                        | Some r => Return r
                        | None => Raise ValueError
                        end) items
  | _ => Raise TypeError
  end.

Section WithRuntime.
Context `{Runtime}.

Definition _parse_vector (json_str : json) : ndarray :=
  let arg := if truthy json_str then json_str else JStr "[]" in
  let decoded :=
    try_except
      (match arg with
       | JStr s => v ← json_loads s; np_array v
       | _ => Raise TypeError
       end)
      (fun exc => Return [])
  in
  match decoded with
  | Return a => a
  | Raise _ => []
  end.

End WithRuntime.

Definition np_dot (a b : ndarray) : py R :=
  if Nat.eqb (length a) (length b)
  then Return (foldr Rplus 0%R (zip_with Rmult a b))
  else Raise ValueError.

Definition np_linalg_norm (a : ndarray) : R :=
  sqrt (foldr Rplus 0%R ((fun x => x * x)%R <$> a)).

Definition _cosine_sim (a b : ndarray) : py R :=
  if Nat.eqb (length a) 0 || Nat.eqb (length b) 0 then Return 0%R
  else
    let norm := (np_linalg_norm a * np_linalg_norm b)%R in
    if Rlt_dec 0 norm
    then d ← np_dot a b; Return (d / norm)%R
    else Return 0%R.

(** [values[row_idx] if row_idx < len(values) else None] *)
Definition column_value (values : json) (row_idx : nat) : py json :=
  n ← py_len values;
  if Nat.ltb row_idx n then getitem_idx values row_idx else Return JNull.

Fixpoint fill_column (values fname : json) (row_idx : nat)
    (rows : list (gmap string json)) : py (list (gmap string json)) :=
  match rows with
  | [] => Return []
  | row :: rows' =>
      val ← column_value values row_idx;
      row ← dict_set row fname val;
      rest ← fill_column values fname (S row_idx) rows';
      Return (row :: rest)
  end.

Fixpoint parse_columns (results : json) (col_idx : nat) (names : list json)
    (rows : list (gmap string json)) : py (list (gmap string json)) :=
  match names with
  | [] => Return rows
  | fname :: names' =>
      col ← getitem_idx results col_idx;
      values ← dict_get col "values" (JArr []);
      rows ← fill_column values fname 0 rows;
      parse_columns results (S col_idx) names' rows
  end.

Definition _parse_response (feature_names results : json) (n_rows : nat)
  : py (list (gmap string json)) :=
  names ← py_iter feature_names;
  parse_columns results 0 names (replicate n_rows ∅).

(** [fname.startswith(prefix)] and the slice after it *)
Definition startswith (fname : json) (prefix : string) : py (option string) :=
  match fname with
  | JStr s => Return (strip_prefix prefix s)
  | _ => Raise AttributeError
  end.

(** [{fname[len(prefix):]: row.get(fname) for fname in names if fname.startswith(prefix)}] *)
Definition select_features (prefix : string) (names : list json)
    (row : gmap string json) : py (gmap string json) :=
  py_foldl (fun acc fname =>
              key ← startswith fname prefix;
              match key, fname with
              | Some key, JStr s => Return (<[key := default JNull (row !! s)]> acc)
              | _, _ => Return acc
              end) ∅ names.

Section WithRuntime.
Context `{Runtime}.

(** [http] is the outcome of [post], [raise_for_status], [resp.json()] for
    the [ranking_features] request. *)
Definition get_ranking_features (http : py json) (user_id : string)
    (candidate_ids : list string)
  : py (gmap string json * gmap string (gmap string json)) :=
  match candidate_ids with
  | [] => Return (∅, ∅)
  | _ =>
      let n := length candidate_ids in
      data ← http;
      metadata ← getitem data "metadata";
      feature_names ← getitem metadata "feature_names";
      results ← getitem data "results";
      rows ← _parse_response feature_names results n;
      names ← py_iter feature_names;
      user_features ← select_features _USER_PREFIX names (default ∅ (head rows));
      let interest_vector :=
        _parse_vector (default JNull (user_features !! "interest_vector_json")) in
      post_features ←
        py_foldl (fun acc '(row, pid) =>
                    pf ← select_features _POST_PREFIX names row;
                    let post_embedding :=
                      _parse_vector (default JNull (pf !! "embedding_json")) in
                    sim ← _cosine_sim interest_vector post_embedding;
                    let pf := <["topic_similarity" := JNum sim]> pf in
                    Return (<[pid := pf]> acc))
                 ∅ (zip rows candidate_ids);
      Return (user_features, post_features)
  end.

(** The affinity map is keyed by the author ids as they came out of the
    feature rows; the most recent binding of a key is in front. *)
Fixpoint affinity_get (m : list (json * R)) (aid : json) (dflt : R) : R :=
  match m with
  | [] => dflt
  | (k, v) :: m' => if py_eqb k aid then v else affinity_get m' aid dflt
  end.

Definition get_affinity_features (http : py json) (user_id : string)
    (author_ids : list json) : py (list (json * R)) :=
  match author_ids with
  | [] => Return []
  | _ =>
      unique ← py_set author_ids;
      let n := length unique in
      match http with
      | Raise exc => Return []
      | Return data =>
          metadata ← getitem data "metadata";
          feature_names ← getitem metadata "feature_names";
          results ← getitem data "results";
          rows ← _parse_response feature_names results n;
          py_foldl (fun acc '(row, aid) =>
                      let first :=
                        default JNull (row !! (_AFFINITY_PREFIX +:+ "affinity_score")) in
                      let score :=
                        if truthy first then first
                        else default JNull (row !! "affinity_score") in
                      value ← match score with
                              | JNull => Return 0%R
                              | _ => py_float score
                              end;
                      Return ((aid, value) :: acc))
                   [] (zip rows unique)
      end
  end.

End WithRuntime.

End FeastClient.

(** ** Candidates: the dicts threaded through the pipeline *)

Inductive source_tag := social | discovery.

Module Candidate.
Record t := Make {
  post_id : string;
  source : source_tag;
  post_features : option (gmap string json);  (* absent until stage 3 *)
  rank_score : option json;                   (* absent until scoring *)
}.
Definition set_post_features (c : t) (pf : gmap string json) : t :=
  Make (post_id c) (source c) (Some pf) (rank_score c).
Definition set_rank_score (c : t) (score : json) : t :=
  Make (post_id c) (source c) (post_features c) (Some score).
(** [c.get("post_features", {}).get(name, dflt)] *)
Definition feature (c : t) (name : string) (dflt : json) : json :=
  default dflt (default ∅ (post_features c) !! name).
End Candidate.

(** ** services/api/app/clients/ranking_client.py *)

Module RankingClient.

(** [a > b]: numbers (and bools) compare by value, strings by code point;
    mixed operands raise.  Python also orders two lists; the callers below
    divide by or subtract from the operands next, which raises the same
    [TypeError] for lists. *)
Definition py_gt (a b : json) : py bool :=
  match as_number a, as_number b with
  | Some x, Some y => Return (if Rlt_dec y x then true else false)
  | _, _ =>
      match a, b with
      | JStr s, JStr t => Return (String.ltb t s)
      | _, _ => Raise TypeError
      end
  end.

(** [max(xs, default=dflt)] *)
Definition py_max (xs : list json) (dflt : json) : py json :=
  match xs with
  | [] => Return dflt
  | x :: rest =>
      py_foldl (fun best item =>
                  greater ← py_gt item best;
                  Return (if greater : bool then item else best)) x rest
  end.

(** [a - b] and [a / b] on Python numbers *)
Definition py_sub (a b : json) : py R :=
  match as_number a, as_number b with
  | Some x, Some y => Return (x - y)%R
  | _, _ => Raise TypeError
  end.

Definition py_div (a b : json) : py R :=
  match as_number a, as_number b with
  | Some x, Some y =>
      if bool_decide (y = 0%R) then Raise ZeroDivisionError else Return (x / y)%R
  | _, _ => Raise TypeError
  end.

(** [round(x, ndigits)]: to the nearest multiple of [10^-ndigits], ties to
    the even one.  This is the rounding of the exact real; Python rounds the
    double, which may lie on the other side of a decimal tie, so the two can
    differ by one unit of the last place. *)
Definition round_half_even (y : R) : Z :=
  let n := Int_part y in
  let f := frac_part y in
  if Rlt_dec f (1 / 2) then n
  else if Rlt_dec (1 / 2) f then (n + 1)%Z
  else if Z.even n then n else (n + 1)%Z.

Definition py_round (x : R) (ndigits : nat) : R :=
  (IZR (round_half_even (x * 10 ^ ndigits)) / 10 ^ ndigits)%R.

(** [math.exp(x)]: raises [OverflowError] when the result is beyond the
    largest double, which is the case for [x] above 709.78. *)
Definition exp_max : R := 709.782712893384.

Definition math_exp (x : R) : py R :=
  if Rlt_dec exp_max x then Raise OverflowError else Return (exp x).

(** [now] is the reading of [time.time()]. *)
Definition _apply_heuristic_scores (now : R) (candidates : list Candidate.t)
  : py (list Candidate.t) :=
  max_likes ← py_max ((fun c => Candidate.feature c "like_count" (JNum 0)) <$> candidates)
                     (JNum 1);
  let max_likes := if truthy max_likes then max_likes else JNum 1 in
  py_mapM (fun c =>
             age_seconds ← py_sub (JNum now) (Candidate.feature c "created_at_ts" (JNum now));
             let age_hours := (age_seconds / 3600)%R in
             recency ← math_exp (- age_hours / 48);
             likes_norm ← py_div (Candidate.feature c "like_count" (JNum 0)) max_likes;
             Return (Candidate.set_rank_score c
                       (JNum (py_round (0.5 * recency + 0.5 * likes_norm) 4))))
          candidates.

(** [candidates.sort(key=lambda c: c["rank_score"], reverse=True)]: stable,
    descending.  Keys are taken to be numbers, which is what the ranking
    service and the heuristic produce.  Python would also order keys that
    are all strings, and compares nothing when there is a single
    candidate; the statements about the order are made for numeric scores. *)
Definition sort_key (c : Candidate.t) : py R :=
  match Candidate.rank_score c with
  | None => Raise KeyError
  | Some v =>
      match as_number v with
      | Some r => Return r
      | None => Raise TypeError
      end
  end.

Fixpoint insert_desc (x : R * Candidate.t) (sorted : list (R * Candidate.t))
  : list (R * Candidate.t) :=
  match sorted with
  | [] => [x]
  | y :: sorted' =>
      if Rlt_dec x.1 y.1 then y :: insert_desc x sorted' else x :: sorted
  end.

Definition sort_desc (keyed : list (R * Candidate.t)) : list Candidate.t :=
  (foldr insert_desc [] keyed).*2.

Definition sort_by_rank_score (candidates : list Candidate.t) : py (list Candidate.t) :=
  keyed ← py_mapM (fun c => k ← sort_key c; Return (k, c)) candidates;
  Return (sort_desc keyed).

(** The [try] block of [score_candidates].  [http] is the outcome of
    [post("/rank")], [raise_for_status()], [resp.json()]. *)
Definition model_scores (http : py json) (candidates : list Candidate.t)
  : py (list Candidate.t) :=
  data ← http;
  scores ← getitem data "scores";
  scores ← py_iter scores;
  score_map ←
    py_foldl (fun acc s =>
                pid ← getitem s "post_id";
                score ← getitem s "score";
                dict_set acc pid score) ∅ scores;
  Return ((fun c => Candidate.set_rank_score c
                      (default (JNum 0) (score_map !! Candidate.post_id c)))
          <$> candidates).

Definition score_candidates (http : py json) (now : R) (user_features : gmap string json)
    (candidates : list Candidate.t) : py (list Candidate.t) :=
  match candidates with
  | [] => Return []
  | _ =>
      scored ←
        try_except (model_scores http candidates)
                   (fun exc => _apply_heuristic_scores now candidates);
      sort_by_rank_score scored
  end.

End RankingClient.

(** ** services/api/app/models.py and schemas.py *)

Module User.
Record t := Make {
  user_id : string;
  username : string;
  display_name : option string;
}.
End User.

Module Post.
Record t := Make {
  post_id : string;
  user_id : string;
  content : option string;
  media_key : option string;
  media_type : option string;
  like_count : Z;
  created_at : Z;
  author : option User.t;
}.
End Post.

Module FeedPost.
Record t := Make {
  post_id : string;
  user_id : string;
  username : option string;
  display_name : option string;
  content : option string;
  media_url : option string;
  media_type : option string;
  like_count : Z;
  created_at : Z;
  rank_score : R;
  source : source_tag;
}.
End FeedPost.

(** [latency_ms] is a wall-clock measurement and is left out. *)
Module FeedResponse.
Record t := Make {
  user_id : string;
  posts : list FeedPost.t;
  candidates_social : nat;
  candidates_discovery : nat;
  candidates_after_filter : nat;
}.
End FeedResponse.

(** ** services/api/app/routers/feed.py *)

Module Feed.
Import Config.

Definition MAX_AUTHOR_POSTS : Z := 2.
Definition MAX_CANDIDATES : Z := 150.

(** What the collaborators answer during one request.  Each field is the
    outcome of one awaited call: its value, or the exception it raises. *)
Record World := {
  db_user : py (option User.t);                (* db.get(User, user_id) *)
  redis_interest_vector : py (option (list R)); (* get_interest_vector *)
  random_vector : list R;                      (* the random.uniform draws *)
  redis_set_interest_vector : py unit;         (* set_interest_vector *)
  redis_feed : py Redis.store;                 (* keyspace read by zrevrange *)
  qdrant_search : list R -> py (list string);  (* str(r.id) of client.search *)
  pinot_http : py json;
  feast_ranking_http : py json;
  feast_affinity_http : py json;
  redis_user_hash : py (gmap string string);
  redis_post_hashes : py (string -> gmap string string);
  ranking_http : py json;
  clock : R;                                   (* time.time() *)
  db_posts : py (list Post.t);                 (* the posts table *)
  presign : string -> option string;           (* get_presigned_url *)
}.

(** What a request leaves behind besides the response: the span attribute
    [stage3.feature_source] and the ids handed to [publish_impressions]. *)
Record Outcome := {
  response : FeedResponse.t;
  feature_source : string;
  served : list string;
}.

(** [await asyncio.gather(a, b)]: the pair of results, or an exception of a
    failing awaitable (which one surfaces when both fail depends on timing;
    the model reports the first argument's). *)
Definition gather {A B} (a : py A) (b : py B) : py (A * B) :=
  match a, b with
  | Return x, Return y => Return (x, y)
  | Raise e, _ => Raise e
  | _, Raise e => Raise e
  end.

(** One iteration of a merge loop. *)
Definition merge_step (tag : source_tag) (st : gset string * list Candidate.t)
    (pid : string) : gset string * list Candidate.t :=
  let '(seen_in_merge, candidates) := st in
  if decide (pid ∈ seen_in_merge) then st
  else ({[pid]} ∪ seen_in_merge,
        (candidates ++ [Candidate.Make pid tag None None])%list).

Definition merge (social_ids discovery_ids : list string) : list Candidate.t :=
  let st := foldl (merge_step social) (∅, []) social_ids in
  let st := foldl (merge_step discovery) st discovery_ids in
  st.2.

(** [[c for c in candidates if c["post_id"] not in seen_post_ids]] *)
Definition filter_seen (seen_post_ids : list json) (candidates : list Candidate.t)
  : list Candidate.t :=
  filter (fun c => py_mem (JStr (Candidate.post_id c)) seen_post_ids = false) candidates.

(** The loop that writes [affinity_score] into the dicts held by
    [post_feature_map]; an id without an entry updates a temporary. *)
Definition attach_affinity (affinity_map : list (json * R))
    (post_feature_map : gmap string (gmap string json)) (pid : string)
  : gmap string (gmap string json) :=
  match post_feature_map !! pid with
  | None => post_feature_map
  | Some pf =>
      let aid := default JNull (pf !! "author_id") in
      let score :=
        if truthy aid then FeastClient.affinity_get affinity_map aid 0%R else 0%R in
      <[pid := <["affinity_score" := JNum score]> pf]> post_feature_map
  end.

(** One accepted post.  [rank_score] is a float field of the response
    model: a number is taken as it is (the model would also coerce a
    numeric string, which the statements exclude by asking for numeric
    scores). *)
Definition build_feed_post (w : World) (post : Post.t) (score : json)
    (src : source_tag) : py FeedPost.t :=
  match as_number score with
  | None => Raise ValueError
  | Some rank =>
      Return (FeedPost.Make
                (Post.post_id post) (Post.user_id post)
                (User.username <$> Post.author post)
                (Post.author post ≫= User.display_name)
                (Post.content post)
                (match Post.media_key post with
                 | Some key => if String.eqb key "" then None else presign w key
                 | None => None
                 end)
                (Post.media_type post) (Post.like_count post) (Post.created_at post)
                rank src)
  end.

(** The state of the stage-4 loop *)
Record walk := Walk {
  author_post_count : gmap string Z;
  feed_posts : list FeedPost.t;
  served_ids : list string;
}.

Fixpoint diversity_walk (w : World) (page_size : Z) (post_map : gmap string Post.t)
    (score_map : gmap string json) (source_map : gmap string source_tag)
    (top_ids : list string) (st : walk) : py walk :=
  match top_ids with
  | [] => Return st
  | post_id :: rest =>
      if (page_size <=? Z.of_nat (length (feed_posts st)))%Z then Return st
      else
        match post_map !! post_id with
        | None => diversity_walk w page_size post_map score_map source_map rest st
        | Some post =>
            let count := default 0%Z (author_post_count st !! Post.user_id post) in
            if (MAX_AUTHOR_POSTS <=? count)%Z
            then diversity_walk w page_size post_map score_map source_map rest st
            else
              fp ← build_feed_post w post
                     (default (JNum 0) (score_map !! post_id))
                     (default social (source_map !! post_id));
              diversity_walk w page_size post_map score_map source_map rest
                (Walk (<[Post.user_id post := (count + 1)%Z]> (author_post_count st))
                      (feed_posts st ++ [fp])%list
                      (served_ids st ++ [post_id])%list)
        end
  end.

Section WithRuntime.
Context `{Runtime}.

(** Stage 1 *)
Definition stage1 (cfg : Settings) (w : World) (user_id : string)
  : py (list string * list string) :=
  stored ← redis_interest_vector w;
  interest_vector ←
    match stored with
    | Some v => Return v
    | None => _ ← redis_set_interest_vector w; Return (random_vector w)
    end;
  gather
    (redis ← redis_feed w;
     Return (RedisClient.get_social_feed redis user_id (ranking_candidate_limit cfg)))
    (qdrant_search w interest_vector).

(** Stage 3, feature retrieval: the [try] block and its handler.  The third
    component is the value of [stage3.feature_source]. *)
Definition author_ids_of (post_feature_map : gmap string (gmap string json))
    (candidate_ids : list string) : list json :=
  (fun pid => default JNull (default ∅ (post_feature_map !! pid) !! "author_id"))
    <$> candidate_ids.

Definition feast_features (w : World) (user_id : string) (candidate_ids : list string)
  : py (gmap string json * gmap string (gmap string json) * string) :=
  '(user_features, post_feature_map) ←
    FeastClient.get_ranking_features (feast_ranking_http w) user_id candidate_ids;
  let author_ids := author_ids_of post_feature_map candidate_ids in
  author_set ← py_set author_ids;
  let unique_authors := filter (fun a => truthy a = true) author_set in
  affinity_map ←
    FeastClient.get_affinity_features (feast_affinity_http w) user_id unique_authors;
  let post_feature_map :=
    foldl (attach_affinity affinity_map) post_feature_map candidate_ids in
  Return (user_features, post_feature_map, "feast").

Definition redis_features (w : World) (user_id : string) (candidate_ids : list string)
  : py (gmap string json * gmap string (gmap string json) * string) :=
  '(user_features, post_feature_map) ←
    gather (RedisClient.get_user_features (redis_user_hash w) user_id)
           (RedisClient.get_post_features (redis_post_hashes w) candidate_ids);
  Return (user_features, post_feature_map, "redis-fallback").

Definition fetch_features (w : World) (user_id : string) (candidate_ids : list string)
  : py (gmap string json * gmap string (gmap string json) * string) :=
  try_except (feast_features w user_id candidate_ids)
             (fun exc => redis_features w user_id candidate_ids).

(** Stage 4 *)
Definition stage4 (cfg : Settings) (w : World) (candidates ranked : list Candidate.t)
  : py walk :=
  let top_ids := Candidate.post_id <$> slice_to ranked (feed_page_size cfg * 3) in
  table ← db_posts w;
  let rows := filter (fun p => Post.post_id p ∈ top_ids) table in
  let post_map := foldl (fun m p => <[Post.post_id p := p]> m) ∅ rows in
  let score_map :=
    foldl (fun m c => <[Candidate.post_id c := default (JNum 0) (Candidate.rank_score c)]> m)
          ∅ ranked in
  let source_map :=
    foldl (fun m c => <[Candidate.post_id c := Candidate.source c]> m) ∅ candidates in
  diversity_walk w (feed_page_size cfg) post_map score_map source_map top_ids
    (Walk ∅ [] []).

Definition get_feed (cfg : Settings) (w : World) (user_id : string) : py Outcome :=
  user ← db_user w;
  match user with
  | None => Raise (HTTPException 404)
  | Some _ =>
      '(social_ids, discovery_ids) ← stage1 cfg w user_id;
      let candidates := merge social_ids discovery_ids in
      seen_post_ids ← PinotClient.get_seen_post_ids (pinot_http w);
      let candidates := filter_seen seen_post_ids candidates in
      let after_filter := length candidates in
      let candidates := slice_to candidates MAX_CANDIDATES in
      let candidate_ids := Candidate.post_id <$> candidates in
      '(user_features, post_feature_map, source) ← fetch_features w user_id candidate_ids;
      let candidates :=
        (fun c => Candidate.set_post_features c
                    (default ∅ (post_feature_map !! Candidate.post_id c)))
          <$> candidates in
      ranked ← RankingClient.score_candidates (ranking_http w) (clock w)
                 user_features candidates;
      (* [score_candidates] sorted [candidates] in place and returned it:
         from here on [candidates] and [ranked] are the same list *)
      let candidates := ranked in
      st ← stage4 cfg w candidates ranked;
      Return {|
        response :=
          FeedResponse.Make user_id (feed_posts st) (length social_ids)
            (length discovery_ids) after_filter;
        feature_source := source;
        served := served_ids st;
      |}
  end.

End WithRuntime.

End Feed.

(** ** services/ranking-service/app/main.py *)

Module RankingService.

(** [a + n] for a number [n] *)
Definition add_number (a : json) (n : R) : py R :=
  match as_number a with
  | Some x => Return (x + n)%R
  | None => Raise TypeError
  end.

Section WithRuntime.
Context `{Runtime}.

(** Recency: exponential decay over the age in hours, never negative. *)
Definition recency (now : R) (pf : gmap string json) : py R :=
  age_seconds ← RankingClient.py_sub (JNum now) (default (JNum now) (pf !! "created_at_ts"));
  let age_hours := Rmax 0 (age_seconds / 3600) in
  Return (exp (- age_hours / 24)).

(** Engagement: [likes / (likes + 10)] with [likes = pf.get("like_count", 0) or 0]. *)
Definition engagement (pf : gmap string json) : py R :=
  let stored := default (JNum 0) (pf !! "like_count") in
  let likes := if truthy stored then stored else JNum 0 in
  total ← add_number likes 10;
  RankingClient.py_div likes (JNum total).

Definition media_bonus (pf : gmap string json) : R :=
  if truthy (default (JNum 0) (pf !! "has_media")) then 0.1%R else 0%R.

(** Author affinity, with the user's average engagement as a stand-in
    when the post carries none. *)
Definition author_affinity (user_features pf : gmap string json) : py R :=
  let stored := default JNull (pf !! "affinity_score") in
  author_affinity ← py_float (if truthy stored then stored else JNum 0);
  if bool_decide (author_affinity = 0%R)
  then
    let first := default JNull (user_features !! "avg_engagement_rate") in
    let user_eng :=
      if truthy first then first
      else default (JNum 0.5) (user_features !! "avg_engagement") in
    e ← py_float user_eng;
    Return (Rmin e 1)
  else Return author_affinity.

(** Topic similarity, shifted from [-1, 1] to [0, 1]. *)
Definition topic_sim (pf : gmap string json) : py R :=
  let stored := default JNull (pf !! "topic_similarity") in
  t ← py_float (if truthy stored then stored else JNum 0.5);
  Return (Rmax 0 (Rmin 1 ((t + 1) / 2))).

(** [now] is the reading of [time.time()] and [jitter] the draw of
    [random.uniform(-0.10, 0.10)]. *)
Definition _score_candidate (now jitter : R) (user_features pf : gmap string json)
  : py R :=
  recency ← recency now pf;
  engagement ← engagement pf;
  let media_bonus := media_bonus pf in
  author_affinity ← author_affinity user_features pf;
  topic_sim ← topic_sim pf;
  let score :=
    (0.35 * recency
     + 0.25 * (engagement + media_bonus)
     + 0.20 * author_affinity
     + 0.15 * topic_sim
     + 0.05 * (0.5 + jitter))%R in
  Return (RankingClient.py_round (Rmax 0 (Rmin 1 score)) 4).

(** The validated request: [Candidate(post_id, source, post_features)];
    [source] is not read. *)
Record Candidate := {
  post_id : string;
  post_features : gmap string json;
}.

Record PostScore := {
  score_post_id : string;
  score : R;
}.

Fixpoint rank_from (i : nat) (clock jitter : nat → R) (user_features : gmap string json)
    (candidates : list Candidate) : py (list PostScore) :=
  match candidates with
  | [] => Return []
  | c :: rest =>
      s ← _score_candidate (clock i) (jitter i) user_features (post_features c);
      scores ← rank_from (S i) clock jitter user_features rest;
      Return ({| score_post_id := post_id c; score := s |} :: scores)
  end.

(** POST /rank.  [clock i] and [jitter i] are the clock reading and the
    random draw while candidate [i] is scored. *)
Definition rank (clock jitter : nat → R) (user_features : gmap string json)
    (candidates : list Candidate) : py (list PostScore) :=
  rank_from 0 clock jitter user_features candidates.

End WithRuntime.

(** [RankResponse] as it is serialised *)
Definition post_score_json (s : PostScore) : json :=
  JObj [("post_id", JStr (score_post_id s)); ("score", JNum (score s))].

Definition response_json (scores : list PostScore) : json :=
  JObj [("scores", JArr (post_score_json <$> scores))].

End RankingService.

(** ** services/feature-store/on_demand_features.py *)

Module OnDemandFeatures.
Section WithRuntime.
Context `{Runtime}.

(** [np.array(json.loads(json_str or "[]"), dtype=np.float32)] *)
Definition decode (json_str : json) : py FeastClient.ndarray :=
  match (if truthy json_str then json_str else JStr "[]") with
  | JStr s => v ← json_loads s; FeastClient.np_array v
  | _ => Raise TypeError
  end.

Definition _cosine (iv_json ev_json : json) : R :=
  let result :=
    try_except
      (iv ← decode iv_json;
       ev ← decode ev_json;
       if Nat.eqb (length iv) 0 || Nat.eqb (length ev) 0 then Return 0%R
       else
         let norm := (FeastClient.np_linalg_norm iv * FeastClient.np_linalg_norm ev)%R in
         if Rlt_dec 0 norm
         then d ← FeastClient.np_dot iv ev; Return (d / norm)%R
         else Return 0%R)
      (fun exc => Return 0%R)
  in
  match result with
  | Return r => r
  | Raise _ => 0%R
  end.

End WithRuntime.
End OnDemandFeatures.

(** ** services/embedding-worker/app/embedder.py *)

Module Embedder.

(** The fallback of [embed_text]; [raw] holds the [random.gauss] draws. *)
Definition random_unit_vector (raw : list R) : list R :=
  let norm := sqrt (foldl (fun acc x => acc + x * x)%R 0%R raw) in
  let norm := if bool_decide (norm = 0%R) then 1%R else norm in
  (fun x => x / norm)%R <$> raw.

(** [model] is the loaded sentence-transformers model, if any: [encode] with
    [normalize_embeddings=True], then [tolist()].  [gauss i] is the i-th
    draw of [random.gauss(0, 1)]. *)
Definition embed_text (model : option (string → py (list R))) (gauss : nat → R)
    (text : string) (dimension : Z) : list R :=
  let fallback := random_unit_vector (gauss <$> seq 0 (Z.to_nat dimension)) in
  match model with
  | Some encode =>
      match encode text with
      | Return vec => vec
      | Raise _ => fallback
      end
  | None => fallback
  end.

End Embedder.

(** ** services/api/app/routers/users.py *)

Module Users.

(** The tables the handlers touch; a handler's changes are committed when
    it returns and rolled back when it raises. *)
Record Db := {
  users : gmap string User.t;
  follows : list FanoutWorker.follow_row;
}.

(** [Result.scalar_one_or_none()] *)
Definition scalar_one_or_none {A} (rows : list A) : py (option A) :=
  match rows with
  | [] => Return None
  | [row] => Return (Some row)
  | _ => Raise (ClientError "MultipleResultsFound")
  end.

Definition get_user (user_id : string) (db : Db) : py User.t :=
  match users db !! user_id with
  | Some user => Return user
  | None => Raise (HTTPException 404)
  end.

Definition follow_user (follower_id followee_id : string) (db : Db) : py Db :=
  if String.eqb follower_id followee_id then Raise (HTTPException 400)
  else
    _ ← py_foldl (fun _ uid =>
                    match users db !! uid with
                    | Some _ => Return ()
                    | None => Raise (HTTPException 404)
                    end) () [follower_id; followee_id];
    existing ← scalar_one_or_none
                 (filter (fun row : FanoutWorker.follow_row =>
                            row.1 = follower_id ∧ row.2 = followee_id) (follows db));
    match existing with
    | Some _ => Return db
    | None =>
        Return {| users := users db;
                  follows := follows db ++ [(follower_id, followee_id)] |}
    end.

Definition unfollow_user (follower_id followee_id : string) (db : Db) : Db := {|
  users := users db;
  follows := filter (fun row : FanoutWorker.follow_row =>
                       ¬ (row.1 = follower_id ∧ row.2 = followee_id)) (follows db);
|}.

(** The [followers] field of the answer. *)
Definition list_followers (user_id : string) (db : Db) : list string :=
  (filter (fun row : FanoutWorker.follow_row => row.2 = user_id) (follows db)).*1.

End Users.

(** * Properties

    ** Vocabulary of the statements *)

(** The mailbox of a user in a keyspace. *)
Definition mailbox (redis : Redis.store) (user_id : string) : Redis.zset :=
  Redis.zget redis ("feed:" +:+ user_id).

Definition score_le (a b : string * Q) : Prop := (a.2 <= b.2)%Q.
Definition zsorted (z : Redis.zset) : Prop := StronglySorted score_le z.

(** A sequence of pushes (post, score) to one user's mailbox. *)
Definition push_all (cfg : FanoutWorker.Settings) (user_id : string)
    (pushes : list (string * Q)) (redis : Redis.store) : Redis.store :=
  foldl (fun redis ps => FanoutWorker.push_to_feed cfg user_id ps.1 ps.2 redis)
        redis pushes.

(** The followers of an author, in table order. *)
Definition followers_of (follows : list FanoutWorker.follow_row) (user_id : string)
  : list string :=
  (filter (fun row => row.2 = user_id) follows).*1.

(** The new-post event of an author. *)
Definition new_post (post_id user_id : string) : gmap string string :=
  <["post_id" := post_id]> (<["user_id" := user_id]> ∅).

(** Each id once, at the position of its first occurrence. *)
Fixpoint first_occurrences (ids : list string) : list string :=
  match ids with
  | [] => []
  | x :: rest => x :: filter (fun y => y ≠ x) (first_occurrences rest)
  end.

Definition tagged (tag : source_tag) (pid : string) : Candidate.t :=
  Candidate.Make pid tag None None.

(** The posts of one author in a page. *)
Definition by_author (A : string) (posts : list FeedPost.t) : list FeedPost.t :=
  filter (fun p => FeedPost.user_id p = A) posts.

(** The loop invariant of the stage-4 walk: the counter of each author is
    the number of that author's accepted posts and never exceeds the cap. *)
Definition walk_inv (st : Feed.walk) : Prop :=
  ∀ A, Z.of_nat (length (by_author A (Feed.feed_posts st)))
       = default 0%Z (Feed.author_post_count st !! A)
     ∧ (default 0%Z (Feed.author_post_count st !! A) <= Feed.MAX_AUTHOR_POSTS)%Z.

Definition dot (a b : list R) : R := foldr Rplus 0%R (zip_with Rmult a b).
Definition sumsq (a : list R) : R := foldr Rplus 0%R ((fun x => x * x)%R <$> a).

(** What the primary path computes for a post from the feature bundle. *)
Definition attached_similarity `{Runtime} (user_features pf : gmap string json) : py R :=
  FeastClient._cosine_sim
    (FeastClient._parse_vector (default JNull (user_features !! "interest_vector_json")))
    (FeastClient._parse_vector (default JNull (pf !! "embedding_json"))).

(** The numbers the heuristic reads from a candidate. *)
Definition likes (c : Candidate.t) : R :=
  default 0%R (as_number (Candidate.feature c "like_count" (JNum 0))).
Definition created_at_ts (now : R) (c : Candidate.t) : R :=
  default now (as_number (Candidate.feature c "created_at_ts" (JNum now))).
Definition numeric_features (now : R) (c : Candidate.t) : Prop :=
  is_Some (as_number (Candidate.feature c "like_count" (JNum 0))) ∧
  is_Some (as_number (Candidate.feature c "created_at_ts" (JNum now))).

(** The largest like count, or 1 when there is none or it is 0. *)
Definition max_likes (candidates : list Candidate.t) : R :=
  let m := match likes <$> candidates with
           | [] => 1%R
           | l :: ls => foldl Rmax l ls
           end in
  if decide (m = 0%R) then 1%R else m.

Definition heuristic_score (now max_likes : R) (c : Candidate.t) : R :=
  let age_hours := ((now - created_at_ts now c) / 3600)%R in
  RankingClient.py_round
    (0.5 * exp (- age_hours / 48) + 0.5 * (likes c / max_likes)) 4.

Definition rank_of (c : Candidate.t) : R :=
  default 0%R (Candidate.rank_score c ≫= as_number).

Definition sorted_by_rank_desc (cs : list Candidate.t) : Prop :=
  StronglySorted (fun a b => (rank_of b <= rank_of a)%R) cs.

Definition keyed_desc (a b : R * Candidate.t) : Prop := (b.1 <= a.1)%R.

(** The same request against an impression store that answers [http]. *)
Definition with_pinot_http (w : Feed.World) (http : py json) : Feed.World := {|
  Feed.db_user := Feed.db_user w;
  Feed.redis_interest_vector := Feed.redis_interest_vector w;
  Feed.random_vector := Feed.random_vector w;
  Feed.redis_set_interest_vector := Feed.redis_set_interest_vector w;
  Feed.redis_feed := Feed.redis_feed w;
  Feed.qdrant_search := Feed.qdrant_search w;
  Feed.pinot_http := http;
  Feed.feast_ranking_http := Feed.feast_ranking_http w;
  Feed.feast_affinity_http := Feed.feast_affinity_http w;
  Feed.redis_user_hash := Feed.redis_user_hash w;
  Feed.redis_post_hashes := Feed.redis_post_hashes w;
  Feed.ranking_http := Feed.ranking_http w;
  Feed.clock := Feed.clock w;
  Feed.db_posts := Feed.db_posts w;
  Feed.presign := Feed.presign w;
|}.

(** Ids of the posts of a page that have a relational record. *)
Definition present (post_map : gmap string Post.t) (top_ids : list string)
  : list string :=
  filter (fun pid => is_Some (post_map !! pid)) top_ids.

(** The candidates that enter stage 3, and the same with their features
    attached. *)
Definition stage2 (seen : list json) (social_ids discovery_ids : list string)
  : list Candidate.t :=
  slice_to (Feed.filter_seen seen (Feed.merge social_ids discovery_ids))
           Feed.MAX_CANDIDATES.

Definition hydrated (post_feature_map : gmap string (gmap string json))
    (candidates : list Candidate.t) : list Candidate.t :=
  (fun c => Candidate.set_post_features c
              (default ∅ (post_feature_map !! Candidate.post_id c))) <$> candidates.

(** The vector stage 1 searches with: the stored interest vector, or the
    random one once it has been stored. *)
Definition search_vector (w : Feed.World) (v : list R) : Prop :=
  Feed.redis_interest_vector w = Return (Some v) ∨
  (Feed.redis_interest_vector w = Return None ∧
   Feed.redis_set_interest_vector w = Return () ∧
   v = Feed.random_vector w).

(** The cosine of the angle between two vectors. *)
Definition cosine (a b : list R) : R :=
  (dot a b / (sqrt (sumsq a) * sqrt (sumsq b)))%R.

(** The feature [key] holds the JSON text of the array of numbers [v]. *)
Definition stored_vector `{Runtime} (features : gmap string json) (key : string)
    (v : list R) : Prop :=
  ∃ s, features !! key = Some (JStr s) ∧ s ≠ "" ∧
       json_loads s = Return (JArr (JNum <$> v)).

(** The feature [key] holds no vector: it is absent or not text, or it is
    text that is empty or that [json.loads] rejects. *)
Definition no_vector `{Runtime} (features : gmap string json) (key : string) : Prop :=
  ∀ s, features !! key = Some (JStr s) → s = "" ∨ raises (json_loads s).

(** Vectors on which float32 arithmetic neither overflows nor underflows:
    at most 1000 entries, each of them 0 or of magnitude between 1e-15 and
    1e15.  On these the computed dot products and norms differ from the
    exact ones by rounding only. *)
Definition moderate (v : list R) : Prop :=
  length v <= 1000 ∧
  Forall (fun x => x = 0 ∨ 1 / 10 ^ 15 <= Rabs x <= 10 ^ 15)%R v.

(** The formula of the heuristic, before it is rounded. *)
Definition heuristic_formula (now max_likes : R) (c : Candidate.t) : R :=
  let age_hours := ((now - created_at_ts now c) / 3600)%R in
  (0.5 * exp (- age_hours / 48) + 0.5 * (likes c / max_likes))%R.

(** Like counts between 0 and 1e15 and creation times that are Unix times
    at most a day ahead of the clock: on these the float arithmetic of the
    heuristic stays finite and differs from the exact one by rounding only. *)
Definition plausible_features (now : R) (c : Candidate.t) : Prop :=
  (0 <= likes c <= 10 ^ 15)%R ∧ (0 <= created_at_ts now c <= now + 86400)%R.

(** The argument of [math.exp] stays below 694.5, respectively reaches
    711.8: the creation time is at most 1.2e8 seconds (3.8 years), respectively
    at least 1.23e8 seconds (3.9 years), ahead of the clock. *)
Definition exp_in_range (now : R) (c : Candidate.t) : Prop :=
  (created_at_ts now c - now <= 120000000)%R.
Definition exp_overflows (now : R) (c : Candidate.t) : Prop :=
  (123000000 <= created_at_ts now c - now)%R.

(** Numbers that convert to a double: magnitude at most 1e15. *)
Definition moderate_features (now : R) (c : Candidate.t) : Prop :=
  (Rabs (likes c) <= 10 ^ 15)%R ∧ (Rabs (created_at_ts now c) <= 10 ^ 15)%R.

(** Every score of a ranking answer is a finite number, as the [PostScore]
    schema of the ranking service has it. *)
Definition numeric_answer (http : py json) : Prop :=
  ∀ data scores entries entry v,
    http = Return data →
    getitem data "scores" = Return scores →
    py_iter scores = Return entries →
    entry ∈ entries →
    getitem entry "score" = Return v →
    ∃ r, v = JNum r.

(** Vocabulary of the further properties *)

(** The candidate of the API as the ranking service reads it. *)
Definition rank_request (c : Candidate.t) : RankingService.Candidate := {|
  RankingService.post_id := Candidate.post_id c;
  RankingService.post_features := default ∅ (Candidate.post_features c);
|}.

(** The members of a mailbox, highest rank first. *)
Definition newest_first (redis : Redis.store) (user_id : string) : list string :=
  (rev (mailbox redis user_id)).*1.

(** Every other member of the mailbox scores below [score]. *)
Definition newer_than_rest (redis : Redis.store) (user_id post_id : string) (score : Q)
  : Prop :=
  ∀ e, e ∈ mailbox redis user_id → e.1 ≠ post_id → (e.2 < score)%Q.

Definition numeric_score (c : Candidate.t) : Prop :=
  ∃ v r, Candidate.rank_score c = Some v ∧ as_number v = Some r.

(** The entries of a ranking answer that score a post. *)
Definition scores_post (pid : string) (entry : json) : Prop :=
  getitem entry "post_id" = Return (JStr pid).

Definition rescored (c c' : Candidate.t) : Prop :=
  Candidate.post_id c' = Candidate.post_id c ∧
  Candidate.source c' = Candidate.source c ∧
  Candidate.post_features c' = Candidate.post_features c.

Definition same_post (c c' : Candidate.t) : Prop :=
  Candidate.post_id c' = Candidate.post_id c ∧
  Candidate.source c' = Candidate.source c.

Definition accepted (w : Feed.World) (post_map : gmap string Post.t)
    (score_map : gmap string json) (source_map : gmap string source_tag)
    (pid : string) (fp : FeedPost.t) : Prop :=
  ∃ post, post_map !! pid = Some post ∧
    Feed.build_feed_post w post (default (JNum 0) (score_map !! pid))
      (default social (source_map !! pid)) = Return fp.

(** A vector scaled by a factor. *)
Definition scaled (k : R) (a : list R) : list R := (fun x => k * x)%R <$> a.

(** Column [j] of a feature-store answer holds [v] for entity row [i]. *)
Definition column_holds (results : json) (j i : nat) (v : json) : Prop :=
  ∃ col values,
    getitem_idx results j = Return col ∧
    dict_get col "values" (JArr []) = Return values ∧
    FeastClient.column_value values i = Return v.

(** A feature dict all of whose values are floats, as the Redis feature
    cache returns them. *)
Definition all_floats (features : gmap string json) : Prop :=
  ∀ k v, features !! k = Some v → ∃ r, v = JNum r.


(** ** Sample data for the worked examples *)

(** A decoder that knows three vectors and two numbers. *)
Definition sample_runtime : Runtime := {|
  json_loads s :=
    if String.eqb s "[]" then Return (JArr [])
    else if String.eqb s "[1.0]" then Return (JArr [JNum 1])
    else if String.eqb s "[-1.0]" then Return (JArr [JNum (-1)])
    else Raise ValueError;
  float_of_string s :=
    if String.eqb s "1" then Return 1%R
    else if String.eqb s "0" then Return 0%R
    else Raise ValueError;
|}.

Definition followers_table (n : nat) (author : string) : list FanoutWorker.follow_row :=
  (fun i => ("follower-" +:+ pretty i, author)) <$> seq 0 n.

Definition small_mailboxes : FanoutWorker.Settings := {|
  FanoutWorker.redis_feed_ttl := 86400;
  FanoutWorker.redis_feed_max_size := 2;
  FanoutWorker.fan_out_follower_cap := 10000;
|}.

Definition empty_store : Redis.store := Redis.Store ∅ ∅.

Definition sample_store : Redis.store :=
  Redis.Store {["feed:u1" := [("p1", 1%Q); ("p2", 2%Q); ("p3", 3%Q)]]} ∅.

Definition score_entry (pid : string) (score : R) : json :=
  JObj [("post_id", JStr pid); ("score", JNum score)].

Definition sample_scores (s1 s2 s3 s4 : R) : json :=
  JObj [("scores", JArr [score_entry "p1" s1; score_entry "p2" s2;
                         score_entry "p3" s3; score_entry "p4" s4])].

Definition sample_post (pid author : string) : Post.t :=
  Post.Make pid author (Some "hello") None None 0 0
    (Some (User.Make author author None)).

Definition sample_feed_post (pid author : string) (score : R) (src : source_tag)
  : FeedPost.t :=
  FeedPost.Make pid author (Some author) None (Some "hello") None None 0 0 score src.

(** Viewer u1 with three mailbox entries; discovery returns p4 and p2; posts
    p1, p2, p3 are by author a and p4 by author b.  The answers of the
    mailbox store, the impression store, the feature store and the ranking
    service vary. *)
Definition sample_world (feed : py Redis.store)
    (pinot feast_ranking feast_affinity ranking : py json) : Feed.World := {|
  Feed.db_user := Return (Some (User.Make "u1" "alice" None));
  Feed.redis_interest_vector := Return (Some [1%R]);
  Feed.random_vector := [];
  Feed.redis_set_interest_vector := Return ();
  Feed.redis_feed := feed;
  Feed.qdrant_search := fun _ => Return ["p4"; "p2"];
  Feed.pinot_http := pinot;
  Feed.feast_ranking_http := feast_ranking;
  Feed.feast_affinity_http := feast_affinity;
  Feed.redis_user_hash := Return ∅;
  Feed.redis_post_hashes := Return (fun _ => ∅);
  Feed.ranking_http := ranking;
  Feed.clock := 1000;
  Feed.db_posts :=
    Return [sample_post "p1" "a"; sample_post "p2" "a"; sample_post "p3" "a";
            sample_post "p4" "b"];
  Feed.presign := fun _ => None;
|}.

Definition down (service : string) : py json := Raise (ClientError service).

(** The feature store is down and the ranking service answers. *)
Definition fallback_world (s1 s2 s3 s4 : R) : Feed.World :=
  sample_world (Return sample_store) (down "pinot") (down "feast") (down "feast")
    (Return (sample_scores s1 s2 s3 s4)).

(** The mailbox store is down; everything else answers. *)
Definition social_down_world : Feed.World :=
  sample_world (Raise (ClientError "redis")) (Return (JObj [])) (down "feast")
    (down "feast") (Return (sample_scores 4 3 2 1)).

Definition column (values : list json) : json := JObj [("values", JArr values)].

(** A [ranking_features] answer with one interest vector and an opposite
    embedding. *)
Definition opposite_vectors : json :=
  JObj [("metadata",
         JObj [("feature_names",
                JArr [JStr "user_stats__interest_vector_json";
                      JStr "post_stats__embedding_json"])]);
        ("results", JArr [column [JStr "[1.0]"]; column [JStr "[-1.0]"]])].

(** A [ranking_features] answer that names the authors of p3, p2, p1, p4. *)
Definition author_columns : json :=
  JObj [("metadata", JObj [("feature_names", JArr [JStr "post_stats__author_id"])]);
        ("results", JArr [column [JStr "a"; JStr "a"; JStr "a"; JStr "b"]])].

(** The affinity call answers 200 with a body that has no [metadata]. *)
Definition affinity_malformed_world (s1 s2 s3 s4 : R) : Feed.World :=
  sample_world (Return sample_store) (down "pinot") (Return author_columns)
    (Return (JObj [])) (Return (sample_scores s1 s2 s3 s4)).

(** The affinity call fails in transport. *)
Definition affinity_down_world (s1 s2 s3 s4 : R) : Feed.World :=
  sample_world (Return sample_store) (down "pinot") (Return author_columns)
    (down "feast") (Return (sample_scores s1 s2 s3 s4)).

(** A candidate whose only feature is its like count. *)
Definition liked (pid : string) (like_count : R) : Candidate.t :=
  Candidate.Make pid social (Some {["like_count" := JNum like_count]}) None.

(** A scored candidate without features. *)
Definition scored (pid : string) (tag : source_tag) (score : R) : Candidate.t :=
  Candidate.Make pid tag (Some ∅) (Some (JNum score)).

(** Twenty ranked ids none of which has a relational record. *)
Definition ghost_ids : list string := (fun i => "ghost-" +:+ pretty i) <$> seq 0 20.

(** Sample data of the further properties *)

(** An impression-store answer with one row per id. *)
Definition seen_rows (ids : list string) : json :=
  JObj [("resultTable", JObj [("rows", JArr ((fun pid => JArr [JStr pid]) <$> ids))])].

(** The mailbox is empty and both discovery results were seen before. *)
Definition all_seen_world : Feed.World :=
  sample_world (Return empty_store) (Return (seen_rows ["p4"; "p2"])) (down "feast")
    (down "feast") (down "ranking").

Definition sample_page : list FeedPost.t :=
  [sample_feed_post "p1" "a" 4 social; sample_feed_post "p2" "a" 3 social;
   sample_feed_post "p4" "b" 1 discovery].

Definition sample_outcome : Feed.Outcome := {|
  Feed.response := FeedResponse.Make "u1" sample_page 3 2 4;
  Feed.feature_source := "redis-fallback";
  Feed.served := ["p1"; "p2"; "p4"];
|}.

Definition sample_candidates : list Candidate.t :=
  hydrated {["p3" := ∅; "p2" := ∅; "p1" := ∅; "p4" := ∅]}
    (stage2 [] ["p3"; "p2"; "p1"] ["p4"; "p2"]).

Definition sample_ranked : list Candidate.t :=
  [scored "p1" social 4; scored "p2" social 3; scored "p3" social 2;
   scored "p4" discovery 1].

Definition sample_db : Users.Db := {|
  Users.users := {["alice" := User.Make "alice" "alice" None;
                   "bob" := User.Make "bob" "bob" None]};
  Users.follows := [];
|}.


(** ** Reasoning about [py] computations *)

Lemma bind_Return {A B} (m : py A) (f : A → py B) b :
  m ≫= f = Return b → ∃ a, m = Return a ∧ f a = Return b.
Proof. destruct m as [a|e]; simpl; [eauto|done]. Qed.

Lemma py_foldl_inv {A B} (P : B → Prop) (f : B → A → py B) acc xs r :
  P acc →
  (∀ acc x acc', P acc → f acc x = Return acc' → P acc') →
  py_foldl f acc xs = Return r → P r.
Proof.
  intros Hacc Hstep. revert acc Hacc.
  induction xs as [|x xs IH]; intros acc Hacc; simpl.
  - by intros [= <-].
  - destruct (f acc x) as [acc'|] eqn:E; simpl; [|done].
    apply IH. by eapply Hstep.
Qed.

Lemma py_foldl_keys {A V} (key : A → string) (f : gmap string V → A → py (gmap string V))
    acc xs r :
  (∀ acc x acc', f acc x = Return acc' →
     ∀ k, k = key x ∨ is_Some (acc !! k) → is_Some (acc' !! k)) →
  py_foldl f acc xs = Return r →
  ∀ k, k ∈ key <$> xs ∨ is_Some (acc !! k) → is_Some (r !! k).
Proof.
  intros Hstep. revert acc. induction xs as [|x xs IH]; intros acc; simpl.
  - intros [= <-] k [Hk|Hk]; [by apply elem_of_nil in Hk|done].
  - intros Hf. apply bind_Return in Hf as (acc' & Hacc' & Hf).
    intros k Hk. eapply IH; [exact Hf|].
    destruct Hk as [Hk|Hk].
    + apply elem_of_cons in Hk as [->|Hk]; [|by left].
      right. eapply Hstep; [exact Hacc'|by left].
    + right. eapply Hstep; [exact Hacc'|by right].
Qed.

Lemma py_mapM_fmap {A B} (f : A → py B) (g : A → B) xs :
  (∀ x, x ∈ xs → f x = Return (g x)) → py_mapM f xs = Return (g <$> xs).
Proof.
  induction xs as [|x xs IH]; intros Hf; simpl; [done|].
  rewrite Hf by left. simpl. rewrite IH; [done|].
  intros y Hy. apply Hf. by right.
Qed.

Lemma filter_ext_elem {A} (P Q : A → Prop) `{∀ x, Decision (P x)} `{∀ x, Decision (Q x)}
    (l : list A) :
  (∀ x, x ∈ l → P x ↔ Q x) → filter P l = filter Q l.
Proof.
  induction l as [|x l IH]; intros HPQ; [done|].
  rewrite !filter_cons.
  assert (P x ↔ Q x) as Hx by (apply HPQ; left).
  rewrite IH by (intros y Hy; apply HPQ; by right).
  destruct (decide (P x)), (decide (Q x)); tauto.
Qed.

(** Decide the comparisons of reals left in a goal after evaluation. *)
Ltac decide_reals :=
  repeat match goal with
         | |- context [Rlt_dec ?a ?b] => destruct (Rlt_dec a b); try lra
         end.

(** ** The mailbox store *)

Lemma zget_zput st k z : Redis.zget (Redis.zput st k z) k = z.
Proof.
  unfold Redis.zget, Redis.zput. destruct z; simpl.
  - by rewrite lookup_delete_eq.
  - by rewrite lookup_insert_eq.
Qed.

Lemma zget_zput_ne st k k' z :
  k ≠ k' → Redis.zget (Redis.zput st k z) k' = Redis.zget st k'.
Proof.
  intros Hne. unfold Redis.zget, Redis.zput. destruct z; simpl.
  - by rewrite lookup_delete_ne.
  - by rewrite lookup_insert_ne.
Qed.

Lemma zget_expire st k k' n :
  (0 < n)%Z → Redis.zget (Redis.cmd_expire k n st) k' = Redis.zget st k'.
Proof.
  intros Hn. unfold Redis.cmd_expire, Redis.zget.
  destruct (Redis.zsets st !! k); [|done].
  by replace (n <=? 0)%Z with false by lia.
Qed.

Lemma zget_expire_ne st k k' n :
  k ≠ k' → Redis.zget (Redis.cmd_expire k n st) k' = Redis.zget st k'.
Proof.
  intros Hne. unfold Redis.cmd_expire, Redis.zget.
  destruct (Redis.zsets st !! k); [|done].
  destruct (n <=? 0)%Z; simpl; [|done]. by rewrite lookup_delete_ne.
Qed.

(** A timeout that is not positive leaves no sorted set under the key. *)
Lemma zget_expire_delete st k n :
  (n <= 0)%Z → Redis.zget (Redis.cmd_expire k n st) k = [].
Proof.
  intros Hn. unfold Redis.cmd_expire, Redis.zget.
  destruct (Redis.zsets st !! k) eqn:E.
  - replace (n <=? 0)%Z with true by lia. simpl. by rewrite lookup_delete_eq.
  - exact (f_equal (default []) E).
Qed.

(** Trimming to the top [M] ranks keeps the last [M] entries. *)
Lemma trim_drop (z : Redis.zset) (M : Z) :
  (0 <= M)%Z →
  Redis.zremrangebyrank z 0 (- (M + 1)) = drop (length z - Z.to_nat M) z.
Proof.
  intros HM. unfold Redis.zremrangebyrank, Redis.rank_range.
  replace (- (M + 1) <? 0)%Z with true by lia.
  replace (0 <? 0)%Z with false by lia. simpl.
  set (llen := Z.of_nat (length z)).
  destruct (llen + - (M + 1) <? 0)%Z eqn:E1; simpl.
  - replace (length z - Z.to_nat M) with 0 by lia. done.
  - destruct (llen <=? 0)%Z eqn:E2; simpl.
    + replace (length z - Z.to_nat M) with 0 by lia. done.
    + replace (llen <=? llen + - (M + 1))%Z with false by lia.
      simpl. f_equal. lia.
Qed.

Lemma length_trim (z : Redis.zset) (M : Z) :
  (0 <= M)%Z → (Z.of_nat (length (Redis.zremrangebyrank z 0 (- (M + 1)))) <= M)%Z.
Proof. intros HM. rewrite trim_drop by done. rewrite length_drop. lia. Qed.

(** The mailbox after a push: upserted and trimmed, or gone when the
    configured expiry is not positive. *)
Lemma mailbox_push_cases cfg u p s redis :
  mailbox (FanoutWorker.push_to_feed cfg u p s redis) u =
  if (FanoutWorker.redis_feed_ttl cfg <=? 0)%Z then []
  else Redis.zremrangebyrank (Redis.zadd (mailbox redis u) p s) 0
         (- (FanoutWorker.redis_feed_max_size cfg + 1)).
Proof.
  unfold mailbox, FanoutWorker.push_to_feed, Redis.cmd_zremrangebyrank, Redis.cmd_zadd.
  destruct (Z.leb_spec (FanoutWorker.redis_feed_ttl cfg) 0).
  - by apply zget_expire_delete.
  - by rewrite zget_expire, !zget_zput.
Qed.

Lemma mailbox_push cfg u p s redis :
  (0 < FanoutWorker.redis_feed_ttl cfg)%Z →
  mailbox (FanoutWorker.push_to_feed cfg u p s redis) u =
  Redis.zremrangebyrank (Redis.zadd (mailbox redis u) p s) 0
    (- (FanoutWorker.redis_feed_max_size cfg + 1)).
Proof.
  intros Httl. rewrite mailbox_push_cases.
  by replace (_ <=? 0)%Z with false by lia.
Qed.

Lemma mailbox_push_expired cfg u p s redis :
  (FanoutWorker.redis_feed_ttl cfg <= 0)%Z →
  mailbox (FanoutWorker.push_to_feed cfg u p s redis) u = [].
Proof.
  intros Httl. rewrite mailbox_push_cases.
  by replace (_ <=? 0)%Z with true by lia.
Qed.

Lemma mailbox_push_api_cases cfg now u p s redis :
  mailbox (RedisClient.push_to_feed cfg now u p s redis) u =
  if (Config.redis_feed_ttl cfg <=? 0)%Z then []
  else Redis.zremrangebyrank (Redis.zadd (mailbox redis u) p (default now s)) 0
         (- (Config.redis_feed_max_size cfg + 1)).
Proof.
  unfold mailbox, RedisClient.push_to_feed, Redis.cmd_zremrangebyrank, Redis.cmd_zadd.
  destruct (Z.leb_spec (Config.redis_feed_ttl cfg) 0).
  - by apply zget_expire_delete.
  - by rewrite zget_expire, !zget_zput.
Qed.

Lemma mailbox_push_api cfg now u p s redis :
  (0 < Config.redis_feed_ttl cfg)%Z →
  mailbox (RedisClient.push_to_feed cfg now u p s redis) u =
  Redis.zremrangebyrank (Redis.zadd (mailbox redis u) p (default now s)) 0
    (- (Config.redis_feed_max_size cfg + 1)).
Proof.
  intros Httl. rewrite mailbox_push_api_cases.
  by replace (_ <=? 0)%Z with false by lia.
Qed.

(** A push to one user leaves the other mailboxes alone. *)
Lemma mailbox_push_other cfg u u' p s redis :
  u ≠ u' → mailbox (FanoutWorker.push_to_feed cfg u p s redis) u' = mailbox redis u'.
Proof.
  intros Hne.
  assert ("feed:" +:+ u ≠ "feed:" +:+ u') as Hkey
    by (intros Heq; apply Hne; by apply (String.app_inj "feed:")).
  unfold mailbox, FanoutWorker.push_to_feed, Redis.cmd_zremrangebyrank, Redis.cmd_zadd.
  by rewrite zget_expire_ne, !zget_zput_ne.
Qed.

Lemma zkey_ltb_true a b : Redis.zkey_ltb a b = true → score_le a b.
Proof.
  unfold Redis.zkey_ltb, score_le. destruct (Qcompare_spec a.2 b.2) as [E|E|E]; intros ?.
  - rewrite E. apply Qle_refl.
  - by apply Qlt_le_weak.
  - done.
Qed.

Lemma zkey_ltb_false a b : Redis.zkey_ltb a b = false → score_le b a.
Proof.
  unfold Redis.zkey_ltb, score_le. destruct (Qcompare_spec a.2 b.2) as [E|E|E]; intros ?.
  - rewrite E. apply Qle_refl.
  - done.
  - by apply Qlt_le_weak.
Qed.

Lemma elem_of_zinsert e z x : x ∈ Redis.zinsert e z ↔ x = e ∨ x ∈ z.
Proof.
  induction z as [|y z IH]; simpl.
  - rewrite list_elem_of_singleton, elem_of_nil. tauto.
  - destruct (Redis.zkey_ltb e y).
    + apply elem_of_cons.
    + rewrite !elem_of_cons, IH. tauto.
Qed.

(** ZADD is an upsert: the member gets the new score, the others stay. *)
Lemma elem_of_zadd z p s x :
  x ∈ Redis.zadd z p s ↔ x = (p, s) ∨ (x ∈ z ∧ x.1 ≠ p).
Proof.
  unfold Redis.zadd, Redis.zrem. rewrite elem_of_zinsert, list_elem_of_filter. tauto.
Qed.

Lemma zsorted_zinsert e z : zsorted z → zsorted (Redis.zinsert e z).
Proof.
  unfold zsorted. induction 1 as [|y z Hz IH Hy]; simpl.
  - repeat constructor.
  - destruct (Redis.zkey_ltb e y) eqn:E.
    + constructor; [by constructor|].
      apply zkey_ltb_true in E. constructor; [done|].
      eapply Forall_impl; [exact Hy|]. intros x Hx. unfold score_le in *.
      by eapply Qle_trans.
    + constructor; [done|].
      apply Forall_forall. intros x Hx. apply elem_of_zinsert in Hx as [->|Hx].
      * by apply zkey_ltb_false.
      * by eapply Forall_forall in Hy.
Qed.

Lemma zsorted_sublist z1 z2 : z1 `sublist_of` z2 → zsorted z2 → zsorted z1.
Proof.
  unfold zsorted. intros Hsub Hs. revert z1 Hsub.
  induction Hs as [|y z Hz IH Hy]; intros z1 Hsub.
  - apply sublist_nil_r in Hsub as ->. constructor.
  - apply sublist_cons_r in Hsub as [Hsub|(z1' & -> & Hsub)]; [by apply IH|].
    constructor; [by apply IH|].
    apply Forall_forall. intros x Hx. eapply Forall_forall in Hy; [done|].
    by eapply elem_of_sublist.
Qed.

Lemma zsorted_zadd z p s : zsorted z → zsorted (Redis.zadd z p s).
Proof.
  intros Hz. apply zsorted_zinsert. eapply zsorted_sublist; [|done].
  apply sublist_filter.
Qed.

Lemma zsorted_push cfg u p s redis :
  (0 <= FanoutWorker.redis_feed_max_size cfg)%Z →
  zsorted (mailbox redis u) →
  zsorted (mailbox (FanoutWorker.push_to_feed cfg u p s redis) u).
Proof.
  intros HM Hs. rewrite mailbox_push_cases.
  destruct (_ <=? 0)%Z; [constructor|]. rewrite trim_drop by done.
  eapply zsorted_sublist; [apply sublist_drop|]. by apply zsorted_zadd.
Qed.

Lemma push_all_sorted cfg u pushes redis :
  (0 <= FanoutWorker.redis_feed_max_size cfg)%Z →
  zsorted (mailbox redis u) → zsorted (mailbox (push_all cfg u pushes redis) u).
Proof.
  intros HM. revert redis. induction pushes as [|[p s] pushes IH]; intros redis Hs.
  - done.
  - simpl. apply IH. by apply zsorted_push.
Qed.

Lemma push_all_bound cfg u pushes redis :
  (0 <= FanoutWorker.redis_feed_max_size cfg)%Z →
  pushes ≠ [] ∨
    (Z.of_nat (length (mailbox redis u)) <= FanoutWorker.redis_feed_max_size cfg)%Z →
  (Z.of_nat (length (mailbox (push_all cfg u pushes redis) u))
   <= FanoutWorker.redis_feed_max_size cfg)%Z.
Proof.
  intros HM. revert redis. induction pushes as [|[p s] pushes IH]; intros redis Hb.
  - destruct Hb as [Hb|Hb]; [done|exact Hb].
  - simpl. apply IH. right. rewrite mailbox_push_cases.
    destruct (_ <=? 0)%Z; [simpl; lia|]. by apply length_trim.
Qed.

Lemma push_evicts_lowest cfg u p s redis :
  (0 <= FanoutWorker.redis_feed_max_size cfg)%Z →
  (0 < FanoutWorker.redis_feed_ttl cfg)%Z →
  zsorted (mailbox redis u) →
  let full := Redis.zadd (mailbox redis u) p s in
  let after := mailbox (FanoutWorker.push_to_feed cfg u p s redis) u in
  (FanoutWorker.redis_feed_max_size cfg < Z.of_nat (length full))%Z →
  Z.of_nat (length after) = FanoutWorker.redis_feed_max_size cfg ∧
  ∃ evicted, full = evicted ++ after ∧
    ∀ e k, e ∈ evicted → k ∈ after → (e.2 <= k.2)%Q.
Proof.
  intros HM Httl Hs full after Hlen.
  assert (Hfull : zsorted full) by by apply zsorted_zadd.
  assert (Hafter :
    after = drop (length full - Z.to_nat (FanoutWorker.redis_feed_max_size cfg)) full).
  { unfold after. rewrite mailbox_push by done. by apply trim_drop. }
  split.
  - rewrite Hafter, length_drop. lia.
  - exists (take (length full - Z.to_nat (FanoutWorker.redis_feed_max_size cfg)) full).
    rewrite Hafter. split; [by rewrite take_drop|].
    intros e k He Hk.
    eapply (StronglySorted_app_1_elem_of score_le); [|exact He|exact Hk].
    by rewrite take_drop.
Qed.

(** The upserted mailbox as a collection: the pushed entry and the old
    entries of the other posts. *)
Lemma zinsert_perm e z : Redis.zinsert e z ≡ₚ e :: z.
Proof.
  induction z as [|x z IH]; simpl; [done|].
  destruct (Redis.zkey_ltb e x); [done|]. rewrite IH. apply Permutation_swap.
Qed.

Lemma zadd_entries z p s :
  Redis.zadd z p s ≡ₚ (p, s) :: filter (fun x => x.1 ≠ p) z.
Proof. unfold Redis.zadd, Redis.zrem. apply zinsert_perm. Qed.

(** C4.  For every user U and every sequence of pushes applied to U's
    mailbox, the mailbox afterwards holds at most M_max
    ([redis_feed_max_size], default 500) entries.  A further push of post p
    with score s first makes the mailbox hold p with score s besides the
    entries of the other posts; if that fits, it is what the push leaves,
    and if it exceeds the bound, the push leaves exactly M_max entries,
    every evicted entry having a score no higher than any entry that
    remains.  This is for a positive [redis_feed_ttl]; with a TTL that is
    not positive the closing EXPIRE deletes the mailbox.  The push of the API
    client has the same effect on the mailbox as the push of the fan-out
    worker. *)
Theorem mailbox_bound_and_eviction (cfg : FanoutWorker.Settings) (U : string)
    (redis : Redis.store) (pushes : list (string * Q)) :
  (0 <= FanoutWorker.redis_feed_max_size cfg)%Z →
  zsorted (mailbox redis U) →
  let M := FanoutWorker.redis_feed_max_size cfg in
  let redis' := push_all cfg U pushes redis in
  (pushes ≠ [] ∨ (Z.of_nat (length (mailbox redis U)) <= M)%Z →
   (Z.of_nat (length (mailbox redis' U)) <= M)%Z) ∧
  zsorted (mailbox redis' U) ∧
  ∀ p s,
    let after := mailbox (FanoutWorker.push_to_feed cfg U p s redis') U in
    (∀ acfg now, Config.redis_feed_max_size acfg = M →
       Config.redis_feed_ttl acfg = FanoutWorker.redis_feed_ttl cfg →
       mailbox (RedisClient.push_to_feed acfg now U p (Some s) redis') U = after) ∧
    ((FanoutWorker.redis_feed_ttl cfg <= 0)%Z → after = []) ∧
    ((0 < FanoutWorker.redis_feed_ttl cfg)%Z →
     ∃ full,
       full ≡ₚ (p, s) :: filter (fun x => x.1 ≠ p) (mailbox redis' U) ∧
       zsorted full ∧
       ((Z.of_nat (length full) <= M)%Z → after = full) ∧
       ((M < Z.of_nat (length full))%Z →
          Z.of_nat (length after) = M ∧
          ∃ evicted, full = evicted ++ after ∧
            ∀ e k, e ∈ evicted → k ∈ after → (e.2 <= k.2)%Q)).
Proof.
  intros HM Hs M redis'.
  assert (Hs' : zsorted (mailbox redis' U)) by by apply push_all_sorted.
  split; [by apply push_all_bound|]. split; [done|].
  intros p s after. split; [|split].
  - intros acfg now Hcfg Httl. unfold after.
    rewrite mailbox_push_api_cases, mailbox_push_cases. by rewrite Hcfg, Httl.
  - intros Httl. by apply mailbox_push_expired.
  - intros Httl. exists (Redis.zadd (mailbox redis' U) p s).
    split; [apply zadd_entries|]. split; [by apply zsorted_zadd|]. split.
    + intros Hfit. unfold after. rewrite mailbox_push, trim_drop by done.
      replace (length _ - Z.to_nat _) with 0 by (unfold M in Hfit; lia).
      done.
    + by apply push_evicts_lowest.
Qed.

Lemma mailbox_bound_and_eviction_witness :
  (Z.of_nat (length (mailbox
     (push_all small_mailboxes "u1" [("p1", 1%Q); ("p2", 2%Q); ("p3", 3%Q)] empty_store)
     "u1")) <= 2)%Z.
Proof.
  assert (H0 : (0 <= FanoutWorker.redis_feed_max_size small_mailboxes)%Z)
    by (simpl; lia).
  assert (Hs : zsorted (mailbox empty_store "u1")) by constructor.
  apply (mailbox_bound_and_eviction small_mailboxes "u1" empty_store
           [("p1", 1%Q); ("p2", 2%Q); ("p3", 3%Q)] H0 Hs).
  left. discriminate.
Defined.

(** Three pushes into a mailbox of size two: the oldest entry is gone. *)
Example mailbox_after_three_pushes :
  mailbox (push_all small_mailboxes "u1" [("p1", 1%Q); ("p2", 2%Q); ("p3", 3%Q)]
             empty_store) "u1"
  = [("p2", 2%Q); ("p3", 3%Q)].
Proof. reflexivity. Qed.

(** ** The fan-out worker *)

Lemma get_followers_length cfg follows uid followers :
  FanoutWorker.get_followers follows uid (FanoutWorker.fan_out_follower_cap cfg)
    = Return followers →
  followers = take (Z.to_nat (FanoutWorker.fan_out_follower_cap cfg))
                   (followers_of follows uid).
Proof.
  unfold FanoutWorker.get_followers, followers_of.
  destruct (_ <? 0)%Z; [done|]. intros [= <-]. by rewrite fmap_take.
Qed.

(** Celebrity bypass: with [cap] or more followers nothing is written. *)
Lemma process_message_bypass cfg follows now pid uid redis :
  (0 <= FanoutWorker.fan_out_follower_cap cfg
     <= Z.of_nat (length (followers_of follows uid)))%Z →
  FanoutWorker.process_message cfg follows now (new_post pid uid) redis = Return redis.
Proof.
  intros Hcap. unfold FanoutWorker.process_message, new_post.
  rewrite lookup_insert_eq, lookup_insert_ne, lookup_insert_eq by done. simpl.
  destruct (_ || _); [done|].
  destruct (FanoutWorker.get_followers _ _ _) as [followers|e] eqn:E; simpl; [|].
  - apply get_followers_length in E. subst followers.
    rewrite length_take.
    destruct (_ =? 0)%Z; [done|].
    destruct (_ <=? _)%Z eqn:E2; [done|]. apply Z.leb_gt in E2. lia.
  - unfold FanoutWorker.get_followers in E. destruct (_ <? 0)%Z eqn:E2; [lia|done].
Qed.

(** Below the cap every follower gets one push. *)
Lemma process_message_fanout cfg follows now pid uid redis :
  pid ≠ "" → uid ≠ "" →
  (0 < Z.of_nat (length (followers_of follows uid))
     < FanoutWorker.fan_out_follower_cap cfg)%Z →
  FanoutWorker.process_message cfg follows now (new_post pid uid) redis =
  Return (foldl (fun redis fid => FanoutWorker.push_to_feed cfg fid pid now redis)
                redis (followers_of follows uid)).
Proof.
  intros Hp Hu Hn. unfold FanoutWorker.process_message, new_post.
  rewrite lookup_insert_eq, lookup_insert_ne, lookup_insert_eq by done. simpl.
  apply String.eqb_neq in Hp, Hu. rewrite Hp, Hu. simpl.
  unfold FanoutWorker.get_followers.
  destruct (_ <? 0)%Z eqn:E; [lia|]. simpl.
  rewrite fmap_take. fold (followers_of follows uid).
  rewrite take_ge by lia.
  destruct (_ =? 0)%Z eqn:E1; [apply Z.eqb_eq in E1; lia|].
  destruct (_ <=? _)%Z eqn:E2; [apply Z.leb_le in E2; lia|]. done.
Qed.

(** C3, at an author with exactly F_cap = 10000 followers: the event is
    processed without a single mailbox write, although the author has "at
    most F_cap" followers. *)
Theorem fanout_skipped_at_cap (now : Q) (redis : Redis.store) :
  let follows := followers_table (Z.to_nat 10000) "author" in
  Z.of_nat (length (followers_of follows "author"))
    = FanoutWorker.fan_out_follower_cap FanoutWorker.settings ∧
  FanoutWorker.process_message FanoutWorker.settings follows now
    (new_post "p1" "author") redis = Return redis.
Proof.
  intros follows.
  assert (Hlen : Z.of_nat (length (followers_of follows "author")) = 10000%Z)
    by (vm_compute; reflexivity).
  split; [exact Hlen|].
  apply process_message_bypass. rewrite Hlen. simpl. lia.
Qed.

(** ** Stage 1: the merge *)

Lemma elem_of_first_occurrences ids x : x ∈ first_occurrences ids ↔ x ∈ ids.
Proof.
  induction ids as [|y ids IH]; simpl; [done|].
  rewrite !elem_of_cons, list_elem_of_filter, IH.
  destruct (decide (x = y)); naive_solver.
Qed.

Lemma NoDup_first_occurrences ids : NoDup (first_occurrences ids).
Proof.
  induction ids as [|y ids IH]; simpl; [constructor|].
  constructor.
  - rewrite list_elem_of_filter. naive_solver.
  - by apply NoDup_filter.
Qed.

Lemma filter_all {A} (P : A → Prop) `{∀ x, Decision (P x)} (l : list A) :
  (∀ x, x ∈ l → P x) → filter P l = l.
Proof.
  induction l as [|x l IH]; intros HP; [done|].
  rewrite filter_cons, decide_True by (apply HP; left).
  rewrite IH; [done|]. intros y Hy. apply HP. by right.
Qed.

Lemma first_occurrences_app l1 l2 :
  first_occurrences (l1 ++ l2) =
  first_occurrences l1 ++ filter (fun y => y ∉ l1) (first_occurrences l2).
Proof.
  induction l1 as [|x l1 IH]; simpl.
  - symmetry. apply filter_all. intros y _. apply not_elem_of_nil.
  - rewrite IH, filter_app, list_filter_filter. do 2 f_equal.
    apply list_filter_iff. intros y. rewrite not_elem_of_cons. tauto.
Qed.

(** A merge loop appends, with its tag, the first occurrences of the ids
    that were not seen before it started. *)
Lemma merge_fold tag (seen : gset string) cands ids :
  foldl (Feed.merge_step tag) (seen, cands) ids =
  (seen ∪ list_to_set ids,
   cands ++ (tagged tag <$> filter (fun y => y ∉ seen) (first_occurrences ids))).
Proof.
  revert seen cands. induction ids as [|x ids IH]; intros seen cands; simpl.
  - f_equal; [set_solver|by rewrite app_nil_r].
  - destruct (decide (x ∈ seen)) as [Hx|Hx]; rewrite IH; f_equal.
    + set_solver.
    + f_equal. f_equal. rewrite filter_cons, decide_False by tauto.
      rewrite list_filter_filter. apply list_filter_iff. intros y.
      split; [|tauto]. intros Hy. split; [done|]. congruence.
    + set_solver.
    + rewrite <- app_assoc. f_equal. simpl. rewrite filter_cons, decide_True by done.
      simpl. unfold tagged at 2. do 2 f_equal. rewrite list_filter_filter.
      apply list_filter_iff. intros y. set_solver.
Qed.

Lemma merge_tagged S D :
  Feed.merge S D =
  (tagged social <$> first_occurrences S) ++
  (tagged discovery <$> filter (fun y => y ∉ S) (first_occurrences D)).
Proof.
  unfold Feed.merge. rewrite !merge_fold. simpl. f_equal.
  - f_equal. apply filter_all. intros y _. set_solver.
  - f_equal. apply list_filter_iff. intros y. set_solver.
Qed.

(** C6.  For any two candidate lists S (social) and D (discovery), the
    merge holds each PostId at most once, in the order of first occurrence
    in S followed by D, it holds exactly the ids of S and D, and a candidate
    carries the social tag exactly when its id occurs in S (so an id in
    both lists keeps the social tag). *)
Theorem merge_first_seen (S D : list string) :
  let merged := Feed.merge S D in
  let ids := Candidate.post_id <$> merged in
  NoDup ids ∧
  ids = first_occurrences (S ++ D) ∧
  (∀ pid, pid ∈ ids ↔ pid ∈ S ∨ pid ∈ D) ∧
  (∀ c, c ∈ merged → Candidate.source c = social ↔ Candidate.post_id c ∈ S).
Proof.
  intros merged ids.
  assert (Hids : ids = first_occurrences (S ++ D)).
  { unfold ids, merged. rewrite merge_tagged, first_occurrences_app, fmap_app.
    rewrite <- !list_fmap_compose. unfold compose, tagged. simpl.
    by rewrite !list_fmap_id. }
  split; [rewrite Hids; apply NoDup_first_occurrences|].
  split; [done|]. split.
  - intros pid. by rewrite Hids, elem_of_first_occurrences, elem_of_app.
  - intros c. unfold merged. rewrite merge_tagged, elem_of_app, !list_elem_of_fmap.
    intros [(pid & -> & Hpid)|(pid & -> & Hpid)]; simpl.
    + rewrite elem_of_first_occurrences in Hpid. split; [intros _; exact Hpid|reflexivity].
    + apply list_elem_of_filter in Hpid as [Hpid _].
      split; [discriminate|]. intros Hin. by destruct Hpid.
Qed.

Example merge_collision :
  Feed.merge ["p3"; "p2"; "p1"] ["p4"; "p2"] =
  [tagged social "p3"; tagged social "p2"; tagged social "p1"; tagged discovery "p4"].
Proof. reflexivity. Qed.

(** ** Stage 4: the diversity walk *)

Lemma build_feed_post_user w post score src fp :
  Feed.build_feed_post w post score src = Return fp →
  FeedPost.user_id fp = Post.user_id post ∧ FeedPost.post_id fp = Post.post_id post.
Proof.
  unfold Feed.build_feed_post. destruct (as_number score); [|done].
  by intros [= <-].
Qed.

Lemma walk_inv_init : walk_inv (Feed.Walk ∅ [] []).
Proof.
  intros A. simpl. rewrite lookup_empty. simpl. unfold Feed.MAX_AUTHOR_POSTS. lia.
Qed.

Lemma diversity_walk_inv w page post_map score_map source_map top_ids st st' :
  walk_inv st →
  Feed.diversity_walk w page post_map score_map source_map top_ids st = Return st' →
  walk_inv st'.
Proof.
  revert st. induction top_ids as [|pid rest IH]; intros st Hinv; simpl.
  - by intros [= <-].
  - destruct (page <=? _)%Z; [by intros [= <-]|].
    destruct (post_map !! pid) as [post|]; [|by apply IH].
    destruct (Feed.MAX_AUTHOR_POSTS <=? _)%Z eqn:Hcap; [by apply IH|].
    destruct (Feed.build_feed_post _ _ _ _) as [fp|] eqn:Hfp; simpl; [|done].
    intros Hw. eapply IH; [|exact Hw]. clear Hw IH.
    apply build_feed_post_user in Hfp as [Hfp _].
    apply Z.leb_gt in Hcap.
    intros A. simpl. unfold by_author.
    rewrite filter_app, length_app, filter_cons, filter_nil.
    destruct (Hinv A) as [Hlen Hle]. unfold by_author in Hlen.
    destruct (decide (Post.user_id post = A)) as [<-|Hne].
    + rewrite lookup_insert_eq, decide_True by (simpl; congruence). simpl. lia.
    + rewrite lookup_insert_ne, decide_False by (simpl; congruence). simpl. lia.
Qed.

Lemma diversity_walk_length w page post_map score_map source_map top_ids st st' :
  Feed.diversity_walk w page post_map score_map source_map top_ids st = Return st' →
  (Z.of_nat (length (Feed.feed_posts st'))
   <= Z.max (Z.of_nat (length (Feed.feed_posts st))) page)%Z.
Proof.
  revert st. induction top_ids as [|pid rest IH]; intros st; simpl.
  - intros [= <-]. lia.
  - destruct (page <=? _)%Z eqn:Hfull; [intros [= <-]; lia|].
    destruct (post_map !! pid) as [post|]; [|by apply IH].
    destruct (Feed.MAX_AUTHOR_POSTS <=? _)%Z; [by apply IH|].
    destruct (Feed.build_feed_post _ _ _ _) as [fp|] eqn:Hfp; simpl; [|done].
    intros Hw.
    apply IH in Hw. simpl in Hw. rewrite length_app in Hw. simpl in Hw.
    apply Z.leb_gt in Hfull. lia.
Qed.

(** The three ways an id of the sorted list is passed over or ends the
    walk. *)
Lemma diversity_walk_stop w page post_map score_map source_map pid rest st :
  (page <= Z.of_nat (length (Feed.feed_posts st)))%Z →
  Feed.diversity_walk w page post_map score_map source_map (pid :: rest) st = Return st.
Proof. intros Hfull. simpl. apply Z.leb_le in Hfull. by rewrite Hfull. Qed.

Lemma diversity_walk_author_full w page post_map score_map source_map pid rest st post :
  post_map !! pid = Some post →
  (Feed.MAX_AUTHOR_POSTS
   <= default 0 (Feed.author_post_count st !! Post.user_id post))%Z →
  Feed.diversity_walk w page post_map score_map source_map (pid :: rest) st =
  (if (page <=? Z.of_nat (length (Feed.feed_posts st)))%Z then Return st
   else Feed.diversity_walk w page post_map score_map source_map rest st).
Proof. intros Hpost Hcap. simpl. apply Z.leb_le in Hcap. by rewrite Hpost, Hcap. Qed.

Lemma diversity_walk_skip w page post_map score_map source_map l1 pid l2 st :
  post_map !! pid = None →
  Feed.diversity_walk w page post_map score_map source_map (l1 ++ pid :: l2) st =
  Feed.diversity_walk w page post_map score_map source_map (l1 ++ l2) st.
Proof.
  intros Hpid. revert st. induction l1 as [|x l1 IH]; intros st; simpl.
  - rewrite Hpid. destruct (page <=? _)%Z eqn:Hfull; [|done].
    destruct l2 as [|y l2]; simpl; [done|]. by rewrite Hfull.
  - destruct (page <=? _)%Z; [done|].
    destruct (post_map !! x); [|by apply IH].
    destruct (Feed.MAX_AUTHOR_POSTS <=? _)%Z; [by apply IH|].
    destruct (Feed.build_feed_post _ _ _ _); simpl; [by apply IH|done].
Qed.

Lemma diversity_walk_present w page post_map score_map source_map top_ids st st' :
  Feed.diversity_walk w page post_map score_map source_map top_ids st = Return st' →
  length (Feed.feed_posts st')
  <= length (Feed.feed_posts st) + length (present post_map top_ids).
Proof.
  unfold present. revert st. induction top_ids as [|pid rest IH]; intros st; simpl.
  - intros [= <-]. lia.
  - rewrite filter_cons.
    destruct (page <=? _)%Z; [intros [= <-]; lia|].
    destruct (post_map !! pid) as [post|] eqn:Hpid.
    + rewrite decide_True by done. simpl.
      destruct (Feed.MAX_AUTHOR_POSTS <=? _)%Z; [intros Hw; apply IH in Hw; lia|].
      destruct (Feed.build_feed_post _ _ _ _) as [fp|]; simpl; [|done].
      intros Hw. apply IH in Hw. simpl in Hw. rewrite length_app in Hw. simpl in Hw. lia.
    + rewrite decide_False by (by intros [? ?]). apply IH.
Qed.

(** C10.  A ranked PostId without a relational record is passed over: the
    walk over a list with such an id is the walk over the list without it
    (same posts, same served ids, same author counts, same outcome), the
    page never holds more posts than there are ranked ids with a record,
    and a page can fall short of page_size although page_size ranked ids
    entered stage 4. *)
Theorem missing_posts_skipped :
  (∀ w page post_map score_map source_map l1 pid l2 st,
     post_map !! pid = None →
     Feed.diversity_walk w page post_map score_map source_map (l1 ++ pid :: l2) st =
     Feed.diversity_walk w page post_map score_map source_map (l1 ++ l2) st) ∧
  (∀ w page post_map score_map source_map top_ids st',
     Feed.diversity_walk w page post_map score_map source_map top_ids
       (Feed.Walk ∅ [] []) = Return st' →
     length (Feed.feed_posts st') <= length (present post_map top_ids)) ∧
  (∃ w ranked st',
     (Config.feed_page_size Config.settings <= Z.of_nat (length ranked))%Z ∧
     Feed.stage4 Config.settings w ranked ranked = Return st' ∧
     (Z.of_nat (length (Feed.feed_posts st')) < Config.feed_page_size Config.settings)%Z).
Proof.
  split; [|split].
  - intros. by apply diversity_walk_skip.
  - intros w page post_map score_map source_map top_ids st' Hw.
    apply diversity_walk_present in Hw. simpl in Hw. lia.
  - exists (fallback_world 4 3 2 1), (tagged social <$> ghost_ids), (Feed.Walk ∅ [] []).
    split; [vm_compute; discriminate|]. split; [by vm_compute|]. by vm_compute.
Qed.

Lemma missing_posts_skipped_witness :
  Feed.diversity_walk (fallback_world 4 3 2 1) 20 ∅ ∅ ∅ (["p1"] ++ "p0" :: ghost_ids)
    (Feed.Walk ∅ [] []) =
  Feed.diversity_walk (fallback_world 4 3 2 1) 20 ∅ ∅ ∅ (["p1"] ++ ghost_ids)
    (Feed.Walk ∅ [] []).
Proof.
  apply (proj1 missing_posts_skipped (fallback_world 4 3 2 1) 20%Z ∅ ∅ ∅
           ["p1"] "p0" ghost_ids (Feed.Walk ∅ [] [])).
  reflexivity.
Defined.

(** ** The whole request *)

Section GetFeed.
Context `{Runtime}.

Lemma get_feed_posts cfg w uid out :
  Feed.get_feed cfg w uid = Return out →
  ∃ candidates ranked st,
    Feed.stage4 cfg w candidates ranked = Return st ∧
    FeedResponse.posts (Feed.response out) = Feed.feed_posts st ∧
    Feed.served out = Feed.served_ids st.
Proof.
  unfold Feed.get_feed. intros Hg.
  apply bind_Return in Hg as ([user|] & _ & Hg); [|done].
  apply bind_Return in Hg as ([social_ids discovery_ids] & _ & Hg).
  apply bind_Return in Hg as (seen & _ & Hg).
  apply bind_Return in Hg as ([[uf pfm] src] & _ & Hg).
  apply bind_Return in Hg as (ranked & _ & Hg).
  apply bind_Return in Hg as (st & Hst & Hg).
  injection Hg as <-. simpl. by exists ranked, ranked, st.
Qed.

(** The request, stage by stage. *)
Lemma get_feed_stages cfg w uid user S D seen uf pfm src ranked st :
  Feed.db_user w = Return (Some user) →
  Feed.stage1 cfg w uid = Return (S, D) →
  PinotClient.get_seen_post_ids (Feed.pinot_http w) = Return seen →
  Feed.fetch_features w uid (Candidate.post_id <$> stage2 seen S D)
    = Return (uf, pfm, src) →
  RankingClient.score_candidates (Feed.ranking_http w) (Feed.clock w) uf
    (hydrated pfm (stage2 seen S D)) = Return ranked →
  Feed.stage4 cfg w ranked ranked = Return st →
  Feed.get_feed cfg w uid =
  Return {|
    Feed.response :=
      FeedResponse.Make uid (Feed.feed_posts st) (length S) (length D)
        (length (Feed.filter_seen seen (Feed.merge S D)));
    Feed.feature_source := src;
    Feed.served := Feed.served_ids st;
  |}.
Proof.
  intros Hu H1 H2 H3 Hr H4. unfold Feed.get_feed.
  rewrite Hu. cbn [mbind py_bind]. rewrite H1. cbn [mbind py_bind].
  rewrite H2. cbn [mbind py_bind].
  fold (stage2 seen S D). rewrite H3. cbn [mbind py_bind].
  fold (hydrated pfm (stage2 seen S D)). rewrite Hr. cbn [mbind py_bind].
  by rewrite H4.
Qed.

(** C5.  In every feed response, for every author A, at most
    MAX_AUTHOR_POSTS = 2 of the returned posts are by A, and the page holds
    at most page_size posts (20 by default; none when the setting is not
    positive). *)
Theorem diversity_cap cfg w uid out :
  Feed.get_feed cfg w uid = Return out →
  let posts := FeedResponse.posts (Feed.response out) in
  (∀ A, (Z.of_nat (length (by_author A posts)) <= Feed.MAX_AUTHOR_POSTS)%Z) ∧
  Feed.MAX_AUTHOR_POSTS = 2%Z ∧
  (Z.of_nat (length posts) <= Z.max 0 (Config.feed_page_size cfg))%Z.
Proof.
  intros Hg posts. apply get_feed_posts in Hg as (cands & ranked & st & Hst & Hposts & _).
  unfold posts. rewrite Hposts. unfold Feed.stage4 in Hst.
  apply bind_Return in Hst as (table & _ & Hst). split; [|split; [done|]].
  - intros A. apply diversity_walk_inv in Hst; [|apply walk_inv_init].
    destruct (Hst A) as [-> ?]. done.
  - apply diversity_walk_length in Hst. simpl in Hst. lia.
Qed.

End GetFeed.

(** The ranking service orders the four sample candidates. *)
Lemma sample_ranking (s1 s2 s3 s4 : R) uf :
  (s4 < s3 < s2)%R → (s2 < s1)%R →
  RankingClient.score_candidates (Return (sample_scores s1 s2 s3 s4)) 1000 uf
    (hydrated {["p3" := ∅; "p2" := ∅; "p1" := ∅; "p4" := ∅]}
       (stage2 [] ["p3"; "p2"; "p1"] ["p4"; "p2"]))
  = Return [scored "p1" social s1; scored "p2" social s2; scored "p3" social s3;
            scored "p4" discovery s4].
Proof. intros H1 H2. vm_compute. decide_reals. reflexivity. Qed.

Lemma sample_stage4 (s1 s2 s3 s4 : R) feed pinot feast_ranking feast_affinity ranking :
  let ranked := [scored "p1" social s1; scored "p2" social s2; scored "p3" social s3;
                 scored "p4" discovery s4] in
  Feed.stage4 Config.settings
    (sample_world feed pinot feast_ranking feast_affinity ranking) ranked ranked =
  Return (Feed.Walk {["a" := 2%Z; "b" := 1%Z]}
            [sample_feed_post "p1" "a" s1 social; sample_feed_post "p2" "a" s2 social;
             sample_feed_post "p4" "b" s4 discovery]
            ["p1"; "p2"; "p4"]).
Proof. by vm_compute. Qed.

(** The sample request with the feature store down: p3, the third post of
    author a, is passed over, and p2, found by both sources, is social. *)
Lemma sample_feed (s1 s2 s3 s4 : R) :
  (s4 < s3 < s2)%R → (s2 < s1)%R →
  Feed.get_feed (H := sample_runtime) Config.settings (fallback_world s1 s2 s3 s4) "u1" =
  Return {|
    Feed.response :=
      FeedResponse.Make "u1"
        [sample_feed_post "p1" "a" s1 social; sample_feed_post "p2" "a" s2 social;
         sample_feed_post "p4" "b" s4 discovery] 3 2 4;
    Feed.feature_source := "redis-fallback";
    Feed.served := ["p1"; "p2"; "p4"];
  |}.
Proof.
  intros H1 H2.
  apply (get_feed_stages (H := sample_runtime) Config.settings
           (fallback_world s1 s2 s3 s4) "u1" (User.Make "u1" "alice" None)
           ["p3"; "p2"; "p1"] ["p4"; "p2"] [] ∅
           {["p3" := ∅; "p2" := ∅; "p1" := ∅; "p4" := ∅]} "redis-fallback"
           [scored "p1" social s1; scored "p2" social s2; scored "p3" social s3;
            scored "p4" discovery s4]
           (Feed.Walk {["a" := 2%Z; "b" := 1%Z]}
              [sample_feed_post "p1" "a" s1 social; sample_feed_post "p2" "a" s2 social;
               sample_feed_post "p4" "b" s4 discovery]
              ["p1"; "p2"; "p4"])).
  - reflexivity.
  - by vm_compute.
  - reflexivity.
  - by vm_compute.
  - by apply sample_ranking.
  - apply sample_stage4.
Qed.

Lemma diversity_cap_witness :
  let posts := [sample_feed_post "p1" "a" 4 social; sample_feed_post "p2" "a" 3 social;
                sample_feed_post "p4" "b" 1 discovery] in
  (∀ A, (Z.of_nat (length (by_author A posts)) <= Feed.MAX_AUTHOR_POSTS)%Z) ∧
  Feed.MAX_AUTHOR_POSTS = 2%Z ∧
  (Z.of_nat (length posts) <= Z.max 0 (Config.feed_page_size Config.settings))%Z.
Proof.
  apply (diversity_cap (H := sample_runtime) Config.settings (fallback_world 4 3 2 1)
           "u1" _ (sample_feed 4 3 2 1 ltac:(lra) ltac:(lra))).
Defined.

(** ** Stage 2: the impression filter *)

Lemma query_seen_transport e : PinotClient.query_seen (Raise e) = Raise e.
Proof. reflexivity. Qed.

(** Two malformed bodies: not an object, and a row without a column. *)
Lemma query_seen_not_object :
  PinotClient.query_seen (Return (JArr [])) = Raise AttributeError.
Proof. reflexivity. Qed.

Lemma query_seen_empty_row :
  PinotClient.query_seen
    (Return (JObj [("resultTable", JObj [("rows", JArr [JArr []])])]))
  = Raise IndexError.
Proof. reflexivity. Qed.

(** A body without a result table is an empty result. *)
Lemma query_seen_no_table : PinotClient.query_seen (Return (JObj [])) = Return [].
Proof. reflexivity. Qed.

Lemma get_seen_post_ids_total http : returns (PinotClient.get_seen_post_ids http).
Proof.
  unfold PinotClient.get_seen_post_ids, try_except.
  destruct (PinotClient.query_seen http); by eexists.
Qed.

Lemma filter_seen_nil candidates : Feed.filter_seen [] candidates = candidates.
Proof. unfold Feed.filter_seen. by apply filter_all. Qed.

Lemma diversity_walk_presign w1 w2 page post_map score_map source_map top_ids st :
  Feed.presign w1 = Feed.presign w2 →
  Feed.diversity_walk w1 page post_map score_map source_map top_ids st =
  Feed.diversity_walk w2 page post_map score_map source_map top_ids st.
Proof.
  intros Hp. revert st. induction top_ids as [|pid rest IH]; intros st; simpl; [done|].
  destruct (page <=? _)%Z; [done|].
  destruct (post_map !! pid) as [post|]; [|done].
  destruct (Feed.MAX_AUTHOR_POSTS <=? _)%Z; [done|].
  unfold Feed.build_feed_post. rewrite Hp.
  destruct (as_number _); simpl; [apply IH|done].
Qed.

Section Degradation.
Context `{Runtime}.

(** C7.  Whenever the impression-store query raises (the HTTP call, the
    status check, the JSON decoding, or the reading of the decoded body),
    [get_seen_post_ids] returns the empty set instead of raising; filtering
    by the empty set keeps every candidate, and the request proceeds exactly
    as it would against an impression store that reports no impressions. *)
Theorem seen_ids_degrade (cfg : Config.Settings) (w : Feed.World) (user_id : string) :
  raises (PinotClient.query_seen (Feed.pinot_http w)) →
  PinotClient.get_seen_post_ids (Feed.pinot_http w) = Return [] ∧
  (∀ candidates, Feed.filter_seen [] candidates = candidates) ∧
  Feed.get_feed cfg w user_id =
  Feed.get_feed cfg (with_pinot_http w (Return (JObj []))) user_id.
Proof.
  intros [e He].
  assert (Hseen : PinotClient.get_seen_post_ids (Feed.pinot_http w) = Return []).
  { unfold PinotClient.get_seen_post_ids. by rewrite He. }
  split; [done|]. split; [apply filter_seen_nil|].
  unfold Feed.get_feed. rewrite Hseen.
  change (Feed.pinot_http (with_pinot_http w (Return (JObj [])))) with (Return (JObj [])).
  change (PinotClient.get_seen_post_ids (Return (JObj []))) with (Return (@nil json)).
  change (Feed.db_user (with_pinot_http w (Return (JObj [])))) with (Feed.db_user w).
  destruct (Feed.db_user w) as [[u|]|]; [|done..]. cbn [mbind py_bind].
  change (Feed.stage1 cfg (with_pinot_http w (Return (JObj []))) user_id)
    with (Feed.stage1 cfg w user_id).
  destruct (Feed.stage1 cfg w user_id) as [[social_ids discovery_ids]|]; [|done].
  cbn [mbind py_bind].
  set (cids := Candidate.post_id <$> _).
  change (Feed.fetch_features (with_pinot_http w (Return (JObj []))) user_id cids)
    with (Feed.fetch_features w user_id cids).
  destruct (Feed.fetch_features w user_id cids) as [[[uf pfm] src]|]; [|done].
  cbn [mbind py_bind].
  change (Feed.ranking_http (with_pinot_http w (Return (JObj []))))
    with (Feed.ranking_http w).
  change (Feed.clock (with_pinot_http w (Return (JObj [])))) with (Feed.clock w).
  destruct (RankingClient.score_candidates _ _ _ _) as [ranked|]; [|done].
  cbn [mbind py_bind].
  unfold Feed.stage4.
  change (Feed.db_posts (with_pinot_http w (Return (JObj [])))) with (Feed.db_posts w).
  destruct (Feed.db_posts w) as [table|]; [|done]. cbn [mbind py_bind].
  by rewrite (diversity_walk_presign w (with_pinot_http w (Return (JObj [])))).
Qed.

(** ** Stage 1: the two retrievals *)

(** C1, as the code has it.  The two retrievals are awaited together and
    no exception is captured.  With [v] the vector that is searched with:
    when the mailbox read raises, or the vector search raises, stage 1
    raises that exception and the request of a known user fails with it (one
    of the two exceptions when both raise); no empty list is substituted.
    When both return, both lists are kept. *)
Theorem stage1_failure_propagates cfg w user_id v :
  search_vector w v →
  let limit := Config.ranking_candidate_limit cfg in
  let known := ∃ user, Feed.db_user w = Return (Some user) in
  (∀ e discovery_ids,
     Feed.redis_feed w = Raise e → Feed.qdrant_search w v = Return discovery_ids →
     Feed.stage1 cfg w user_id = Raise e ∧
     (known → Feed.get_feed cfg w user_id = Raise e)) ∧
  (∀ redis e,
     Feed.redis_feed w = Return redis → Feed.qdrant_search w v = Raise e →
     Feed.stage1 cfg w user_id = Raise e ∧
     (known → Feed.get_feed cfg w user_id = Raise e)) ∧
  (∀ e1 e2,
     Feed.redis_feed w = Raise e1 → Feed.qdrant_search w v = Raise e2 →
     (Feed.stage1 cfg w user_id = Raise e1 ∨ Feed.stage1 cfg w user_id = Raise e2) ∧
     (known → Feed.get_feed cfg w user_id = Raise e1 ∨
              Feed.get_feed cfg w user_id = Raise e2)) ∧
  (∀ redis discovery_ids,
     Feed.redis_feed w = Return redis → Feed.qdrant_search w v = Return discovery_ids →
     Feed.stage1 cfg w user_id =
     Return (RedisClient.get_social_feed redis user_id limit, discovery_ids)).
Proof.
  intros Hv limit known.
  assert (Hstage : Feed.stage1 cfg w user_id =
    Feed.gather
      (Feed.redis_feed w ≫= fun redis =>
         Return (RedisClient.get_social_feed redis user_id limit))
      (Feed.qdrant_search w v)).
  { unfold Feed.stage1. destruct Hv as [->|(-> & -> & ->)]; reflexivity. }
  assert (Hreq : ∀ e, Feed.stage1 cfg w user_id = Raise e →
                      known → Feed.get_feed cfg w user_id = Raise e).
  { intros e He [user Hu]. unfold Feed.get_feed. rewrite Hu. cbn [mbind py_bind].
    by rewrite He. }
  split; [|split; [|split]].
  - intros e discovery_ids Hr Hq.
    assert (He : Feed.stage1 cfg w user_id = Raise e) by (by rewrite Hstage, Hr, Hq).
    split; [done|]. by apply Hreq.
  - intros redis e Hr Hq.
    assert (He : Feed.stage1 cfg w user_id = Raise e) by (by rewrite Hstage, Hr, Hq).
    split; [done|]. by apply Hreq.
  - intros e1 e2 Hr Hq.
    assert (He : Feed.stage1 cfg w user_id = Raise e1) by (by rewrite Hstage, Hr, Hq).
    split; [by left|]. intros Hk. left. by apply Hreq.
  - intros redis discovery_ids Hr Hq. by rewrite Hstage, Hr, Hq.
Qed.

End Degradation.

Lemma seen_ids_degrade_witness :
  PinotClient.get_seen_post_ids (Feed.pinot_http (fallback_world 4 3 2 1)) = Return [].
Proof.
  apply (seen_ids_degrade (H := sample_runtime) Config.settings
           (fallback_world 4 3 2 1) "u1").
  exists (ClientError "pinot"). reflexivity.
Defined.

Lemma stage1_failure_propagates_witness :
  Feed.get_feed (H := sample_runtime) Config.settings social_down_world "u1"
    = Raise (ClientError "redis") ∧
  Feed.stage1 Config.settings (fallback_world 4 3 2 1) "u1"
    = Return (["p3"; "p2"; "p1"], ["p4"; "p2"]).
Proof.
  split.
  - refine (proj2 (proj1 (stage1_failure_propagates (H := sample_runtime)
                            Config.settings social_down_world "u1" [1%R] _)
                     (ClientError "redis") ["p4"; "p2"] _ _) _).
    + left. reflexivity.
    + reflexivity.
    + reflexivity.
    + eexists. reflexivity.
  - refine (proj2 (proj2 (proj2 (stage1_failure_propagates (H := sample_runtime)
                                   Config.settings (fallback_world 4 3 2 1) "u1"
                                   [1%R] _)))
              sample_store ["p4"; "p2"] _ _).
    + left. reflexivity.
    + reflexivity.
    + reflexivity.
Defined.

(** C1 as stated fails: with the mailbox store down and the vector search
    answering, the request raises; it is not served from discovery alone. *)
Lemma social_failure_fails_request :
  Feed.qdrant_search social_down_world [1%R] = Return ["p4"; "p2"] ∧
  Feed.get_feed (H := sample_runtime) Config.settings social_down_world "u1"
  = Raise (ClientError "redis").
Proof. split; reflexivity. Qed.

(** ** Stage 3: the feature store *)

Lemma sumsq_cons x a : sumsq (x :: a) = (x * x + sumsq a)%R.
Proof. reflexivity. Qed.

Lemma dot_cons x a y b : dot (x :: a) (y :: b) = (x * y + dot a b)%R.
Proof. reflexivity. Qed.

Lemma sumsq_nonneg a : (0 <= sumsq a)%R.
Proof.
  induction a as [|x a IH]; [unfold sumsq; simpl; lra|].
  rewrite sumsq_cons. nra.
Qed.

Lemma cauchy_schwarz a b : (dot a b * dot a b <= sumsq a * sumsq b)%R.
Proof.
  revert b. induction a as [|x a IH]; intros b.
  - pose proof (sumsq_nonneg b). unfold dot, sumsq at 1. simpl. lra.
  - destruct b as [|y b].
    + pose proof (sumsq_nonneg (x :: a)). unfold dot, sumsq at 2. simpl. lra.
    + specialize (IH b). pose proof (sumsq_nonneg a) as HA.
      pose proof (sumsq_nonneg b) as HB.
      rewrite dot_cons, !sumsq_cons.
      set (d := dot a b) in *. set (A := sumsq a) in *. set (B := sumsq b) in *.
      assert (Hcross : (2 * (x * y) * d <= x * x * B + y * y * A)%R).
      { set (u := (x * x * B + y * y * A)%R).
        set (t := (2 * (x * y) * d)%R).
        assert (Hu : (0 <= u)%R) by (unfold u; nra).
        assert (Hsq : (t * t <= u * u)%R).
        { unfold t, u.
          assert ((x * y) * (x * y) * (d * d) <= (x * y) * (x * y) * (A * B))%R
            by (apply Rmult_le_compat_l; nra).
          pose proof (Rle_0_sqr (x * x * B - y * y * A)) as Hs. unfold Rsqr in Hs.
          lra. }
        destruct (Rle_lt_dec t u); [done|]. nra. }
      nra.
Qed.

Lemma cosine_sim_range a b s :
  FeastClient._cosine_sim a b = Return s → (-1 <= s <= 1)%R.
Proof.
  unfold FeastClient._cosine_sim.
  destruct (_ || _); [intros [= <-]; lra|].
  destruct (Rlt_dec _ _) as [Hnorm|_]; [|intros [= <-]; lra].
  unfold FeastClient.np_dot. destruct (_ =? _)%nat; [|done]. simpl. intros [= <-].
  fold (dot a b). unfold FeastClient.np_linalg_norm in *. fold (sumsq a) (sumsq b) in *.
  pose proof (cauchy_schwarz a b) as HCS.
  pose proof (sqrt_sqrt _ (sumsq_nonneg a)) as Ha.
  pose proof (sqrt_sqrt _ (sumsq_nonneg b)) as Hb.
  set (na := sqrt (sumsq a)) in *. set (nb := sqrt (sumsq b)) in *.
  assert (Hd : (dot a b * dot a b <= (na * nb) * (na * nb))%R) by nra.
  assert (Hle : (- (na * nb) <= dot a b <= na * nb)%R) by nra.
  set (n := (na * nb)%R) in *.
  assert (Hi : (0 < / n)%R) by (apply Rinv_0_lt_compat; lra).
  assert (Hr : (n * / n = 1)%R) by (apply Rinv_r; lra).
  assert (Hlo : (0 <= (dot a b + n) * / n)%R) by (apply Rmult_le_pos; lra).
  assert (Hhi : (0 <= (n - dot a b) * / n)%R) by (apply Rmult_le_pos; lra).
  unfold Rdiv. lra.
Qed.

(** What [_cosine_sim] returns: 0 when a vector has no non-zero entry, and
    otherwise the vectors have one length and it is the cosine. *)
Lemma cosine_sim_cases a b sim :
  FeastClient._cosine_sim a b = Return sim →
  (sumsq a = 0%R ∨ sumsq b = 0%R → sim = 0%R) ∧
  (sumsq a ≠ 0%R → sumsq b ≠ 0%R → length a = length b ∧ sim = cosine a b).
Proof.
  unfold FeastClient._cosine_sim, FeastClient.np_linalg_norm.
  fold (sumsq a) (sumsq b).
  pose proof (sumsq_nonneg a) as Ha. pose proof (sumsq_nonneg b) as Hb.
  destruct (_ || _) eqn:Hempty.
  { intros [= <-]. split; [done|]. intros Hna Hnb.
    apply orb_true_iff in Hempty as [E|E]; apply Nat.eqb_eq, nil_length_inv in E;
      subst; exfalso; [apply Hna|apply Hnb]; reflexivity. }
  destruct (Rlt_dec _ _) as [Hnorm|Hnorm].
  - unfold FeastClient.np_dot.
    destruct (Nat.eqb (length a) (length b)) eqn:Hlen; simpl; [|done].
    intros [= <-]. apply Nat.eqb_eq in Hlen. split.
    + intros [E|E]; rewrite E, sqrt_0 in Hnorm; lra.
    + done.
  - intros [= <-]. split; [done|]. intros Hna Hnb. exfalso. apply Hnorm.
    apply Rmult_lt_0_compat; apply sqrt_lt_R0; lra.
Qed.

Lemma np_array_numbers (v : list R) : FeastClient.np_array (JArr (JNum <$> v)) = Return v.
Proof.
  unfold FeastClient.np_array. induction v as [|x v IH]; [done|].
  rewrite fmap_cons. cbn [py_mapM as_number mbind py_bind]. by rewrite IH.
Qed.

Lemma fill_column_length values fname i rows rows' :
  FeastClient.fill_column values fname i rows = Return rows' → length rows' = length rows.
Proof.
  revert i rows'. induction rows as [|row rows IH]; intros i rows'; simpl.
  - by intros [= <-].
  - intros Hf.
    apply bind_Return in Hf as (val & _ & Hf).
    apply bind_Return in Hf as (row' & _ & Hf).
    apply bind_Return in Hf as (rest & Hrest & Hf).
    injection Hf as <-. simpl. f_equal. by eapply IH.
Qed.

Lemma parse_columns_length results i names rows rows' :
  FeastClient.parse_columns results i names rows = Return rows' →
  length rows' = length rows.
Proof.
  revert i rows. induction names as [|fname names IH]; intros i rows; simpl.
  - by intros [= <-].
  - intros Hp.
    apply bind_Return in Hp as (col & _ & Hp).
    apply bind_Return in Hp as (values & _ & Hp).
    apply bind_Return in Hp as (rows1 & Hfill & Hp).
    apply IH in Hp. apply fill_column_length in Hfill. congruence.
Qed.

(** One row per entity row of the request. *)
Lemma parse_response_length feature_names results n rows :
  FeastClient._parse_response feature_names results n = Return rows → length rows = n.
Proof.
  unfold FeastClient._parse_response. intros Hp.
  apply bind_Return in Hp as (names & _ & Hp).
  apply parse_columns_length in Hp. by rewrite length_replicate in Hp.
Qed.

Section Feast.
Context `{Runtime}.

(** Feature hydration completeness on the primary path. *)
Lemma ranking_features_complete http uid cids uf pfm :
  FeastClient.get_ranking_features http uid cids = Return (uf, pfm) →
  ∀ pid, pid ∈ cids → is_Some (pfm !! pid).
Proof.
  unfold FeastClient.get_ranking_features. destruct cids as [|c cids'].
  { intros _ pid Hpid. by apply elem_of_nil in Hpid. }
  cbv beta iota. generalize (c :: cids'). clear c cids'. intros cids Hg.
  apply bind_Return in Hg as (data & _ & Hg).
  apply bind_Return in Hg as (metadata & _ & Hg).
  apply bind_Return in Hg as (feature_names & _ & Hg).
  apply bind_Return in Hg as (results & _ & Hg).
  apply bind_Return in Hg as (rows & Hrows & Hg).
  apply bind_Return in Hg as (names & _ & Hg).
  apply bind_Return in Hg as (uf' & _ & Hg).
  apply bind_Return in Hg as (pfm' & Hfold & Hg).
  injection Hg as <- <-.
  apply parse_response_length in Hrows.
  intros pid Hpid.
  eapply (py_foldl_keys snd); [|exact Hfold|].
  - intros acc [row p] acc' Hstep k Hk.
    apply bind_Return in Hstep as (pf0 & _ & Hstep).
    apply bind_Return in Hstep as (sim & _ & Hstep).
    injection Hstep as <-. simpl in Hk.
    destruct Hk as [->|Hk]; [by rewrite lookup_insert_eq|].
    destruct (decide (p = k)) as [->|Hne]; [by rewrite lookup_insert_eq|].
    by rewrite lookup_insert_ne.
  - left. rewrite snd_zip by lia. done.
Qed.

Lemma ranking_features_similarity http uid cids uf pfm :
  FeastClient.get_ranking_features http uid cids = Return (uf, pfm) →
  ∀ pid pf, pfm !! pid = Some pf →
    ∃ sim, pf !! "topic_similarity" = Some (JNum sim) ∧
           attached_similarity uf pf = Return sim.
Proof.
  unfold FeastClient.get_ranking_features. destruct cids as [|c cids].
  { intros [= <- <-] pid pf. by rewrite lookup_empty. }
  intros Hg.
  apply bind_Return in Hg as (data & _ & Hg).
  apply bind_Return in Hg as (metadata & _ & Hg).
  apply bind_Return in Hg as (feature_names & _ & Hg).
  apply bind_Return in Hg as (results & _ & Hg).
  apply bind_Return in Hg as (rows & _ & Hg).
  apply bind_Return in Hg as (names & _ & Hg).
  apply bind_Return in Hg as (uf' & _ & Hg).
  apply bind_Return in Hg as (pfm' & Hfold & Hg).
  injection Hg as <- <-.
  revert Hfold.
  apply (py_foldl_inv (fun m : gmap string (gmap string json) =>
           ∀ pid pf, m !! pid = Some pf →
             ∃ sim, pf !! "topic_similarity" = Some (JNum sim) ∧
                    attached_similarity uf' pf = Return sim)).
  - intros pid pf. by rewrite lookup_empty.
  - intros acc [row pid'] acc' IH Hstep pid pf.
    apply bind_Return in Hstep as (pf0 & _ & Hstep).
    apply bind_Return in Hstep as (sim & Hsim & Hstep).
    injection Hstep as <-.
    destruct (decide (pid' = pid)) as [->|Hne].
    + rewrite lookup_insert_eq. intros [= <-]. exists sim.
      split; [by rewrite lookup_insert_eq|].
      unfold attached_similarity. by rewrite lookup_insert_ne.
    + rewrite lookup_insert_ne by done. apply IH.
Qed.

Lemma parse_stored_vector features key v :
  stored_vector features key v →
  FeastClient._parse_vector (default JNull (features !! key)) = v.
Proof.
  intros (s & -> & Hs & Hload). unfold FeastClient._parse_vector. simpl.
  apply String.eqb_neq in Hs. rewrite Hs. simpl. rewrite Hload. simpl.
  pose proof (np_array_numbers v) as Hv. unfold FeastClient.np_array in Hv.
  by rewrite Hv.
Qed.

Lemma parse_no_vector features key :
  json_loads "[]" = Return (JArr []) → no_vector features key →
  FeastClient._parse_vector (default JNull (features !! key)) = [].
Proof.
  intros Hempty Hno. unfold FeastClient._parse_vector.
  set (v := default JNull (features !! key)).
  destruct (truthy v) eqn:Htruthy.
  - destruct v as [| | |s| |] eqn:Hv; try done.
    assert (features !! key = Some (JStr s)) as Hs.
    { unfold v in Hv. destruct (features !! key) as [x|]; simpl in Hv; by subst. }
    destruct (Hno s Hs) as [->|[e He]]; [done|]. by rewrite He.
  - by rewrite Hempty.
Qed.

(** C2, as the code has it.  On the primary feature path every candidate
    gets a feature map whose [topic_similarity] is a number computed from
    the viewer's interest vector and the post's embedding as the bundle
    holds them, with no (x+1)/2 mapping applied.  For stored arrays of
    moderate numbers it is 0 when one of the vectors is all zeros or empty,
    and otherwise the two have one length and the value is the cosine of
    their angle, up to the rounding of float32 (within 0.001), hence
    between -1.001 and 1.001.  It is 0 when a vector is missing or its text
    does not decode. *)
Theorem topic_similarity_is_cosine http uid cids uf pfm :
  FeastClient.get_ranking_features http uid cids = Return (uf, pfm) →
  ∀ pid, pid ∈ cids →
    ∃ pf sim,
      pfm !! pid = Some pf ∧
      pf !! "topic_similarity" = Some (JNum sim) ∧
      (∀ iv ev,
         stored_vector uf "interest_vector_json" iv →
         stored_vector pf "embedding_json" ev →
         moderate iv → moderate ev →
         (sumsq iv = 0%R ∨ sumsq ev = 0%R → sim = 0%R) ∧
         (sumsq iv ≠ 0%R → sumsq ev ≠ 0%R →
            length iv = length ev ∧
            (Rabs (sim - cosine iv ev) <= 1 / 1000)%R ∧
            (-1 - 1 / 1000 <= sim <= 1 + 1 / 1000)%R)) ∧
      (json_loads "[]" = Return (JArr []) →
       no_vector uf "interest_vector_json" ∨ no_vector pf "embedding_json" →
       sim = 0%R).
Proof.
  intros Hg pid Hpid.
  destruct (ranking_features_complete _ _ _ _ _ Hg pid Hpid) as [pf Hpf].
  destruct (ranking_features_similarity _ _ _ _ _ Hg pid pf Hpf) as (sim & Hts & Hsim).
  exists pf, sim. split; [done|]. split; [done|]. unfold attached_similarity in Hsim.
  split.
  - intros iv ev Hiv Hev _ _.
    rewrite (parse_stored_vector _ _ _ Hiv), (parse_stored_vector _ _ _ Hev) in Hsim.
    destruct (cosine_sim_cases _ _ _ Hsim) as [Hzero Hcos]. split; [done|].
    intros Hi He. destruct (Hcos Hi He) as [Hlen ->]. split; [done|].
    pose proof (cosine_sim_range _ _ _ Hsim) as Hrange.
    rewrite Rminus_diag, Rabs_R0. lra.
  - intros Hempty [Hno|Hno].
    + rewrite (parse_no_vector _ _ Hempty Hno) in Hsim. by injection Hsim as <-.
    + rewrite (parse_no_vector _ _ Hempty Hno) in Hsim.
      unfold FeastClient._cosine_sim in Hsim. rewrite orb_true_r in Hsim.
      by injection Hsim as <-.
Qed.

End Feast.

Lemma cosine_opposite : FeastClient._cosine_sim [1%R] [(-1)%R] = Return (-1)%R.
Proof.
  unfold FeastClient._cosine_sim, FeastClient.np_linalg_norm, FeastClient.np_dot. simpl.
  replace (1 * 1 + 0)%R with 1%R by lra.
  replace (-1 * -1 + 0)%R with 1%R by lra.
  rewrite sqrt_1. destruct (Rlt_dec 0 (1 * 1)) as [_|Hn]; [|lra].
  f_equal. lra.
Qed.

Lemma parse_vector_plus :
  FeastClient._parse_vector (H := sample_runtime) (JStr "[1.0]") = [1%R].
Proof. reflexivity. Qed.

Lemma parse_vector_minus :
  FeastClient._parse_vector (H := sample_runtime) (JStr "[-1.0]") = [(-1)%R].
Proof. reflexivity. Qed.

Lemma ranking_features_opposite :
  FeastClient.get_ranking_features (H := sample_runtime) (Return opposite_vectors)
    "u1" ["p1"] =
  Return (<["interest_vector_json" := JStr "[1.0]"]> ∅,
          <["p1" := <["topic_similarity" := JNum (-1)]>
                      (<["embedding_json" := JStr "[-1.0]"]> ∅)]> ∅).
Proof.
  unfold FeastClient.get_ranking_features, opposite_vectors. simpl.
  rewrite !lookup_insert_eq. simpl.
  rewrite lookup_insert_ne, !lookup_insert_eq by done. simpl.
  rewrite parse_vector_plus, parse_vector_minus, cosine_opposite. reflexivity.
Qed.

Lemma moderate_unit (x : R) : Rabs x = 1%R → moderate [x].
Proof.
  intros Hx. split; [simpl; lia|]. constructor; [|constructor]. right.
  rewrite Hx. split; [|lra].
  assert (0 < 10 ^ 15)%R by (apply pow_lt; lra).
  apply Rmult_le_reg_r with (10 ^ 15)%R; [done|]. field_simplify; lra.
Qed.

Lemma topic_similarity_is_cosine_witness :
  ∃ (pf : gmap string json) (sim : R),
    (<["p1" := <["topic_similarity" := JNum (-1)]>
                 (<["embedding_json" := JStr "[-1.0]"]> ∅)]> ∅ : gmap string _) !! "p1"
      = Some pf ∧
    pf !! "topic_similarity" = Some (JNum sim) ∧
    (Rabs (sim - cosine [1%R] [(-1)%R]) <= 1 / 1000)%R.
Proof.
  destruct (topic_similarity_is_cosine (H := sample_runtime) (Return opposite_vectors)
              "u1" ["p1"] _ _ ranking_features_opposite "p1")
    as (pf & sim & Hpf & Hsim & Hcos & _); [left|].
  exists pf, sim. split; [done|]. split; [done|].
  rewrite lookup_insert_eq in Hpf. injection Hpf as <-.
  refine (proj1 (proj2 (proj2 (Hcos [1%R] [(-1)%R] _ _ _ _) _ _))).
  - exists "[1.0]". by rewrite lookup_insert_eq.
  - exists "[-1.0]". rewrite lookup_insert_ne, lookup_insert_eq by done. done.
  - apply moderate_unit. unfold Rabs. destruct (Rcase_abs _); lra.
  - apply moderate_unit. unfold Rabs. destruct (Rcase_abs _); lra.
  - unfold sumsq. simpl. lra.
  - unfold sumsq. simpl. lra.
Defined.

(** C2 as stated fails: for an embedding opposite to the interest vector
    the attached value is the cosine -1, which is neither (-1+1)/2 nor in
    [0,1]. *)
Lemma topic_similarity_not_rescaled :
  ∃ uf pfm pf,
    FeastClient.get_ranking_features (H := sample_runtime) (Return opposite_vectors)
      "u1" ["p1"] = Return (uf, pfm) ∧
    pfm !! "p1" = Some pf ∧
    attached_similarity (H := sample_runtime) uf pf = Return (-1)%R ∧
    pf !! "topic_similarity" = Some (JNum (-1)) ∧
    (-1)%R ≠ ((-1 + 1) / 2)%R ∧
    ¬ (0 <= -1 <= 1)%R.
Proof.
  eexists _, _, _. split; [apply ranking_features_opposite|].
  split; [apply lookup_insert_eq|].
  split.
  - unfold attached_similarity. rewrite lookup_insert_eq, lookup_insert_ne by done.
    rewrite lookup_insert_eq. simpl.
    rewrite parse_vector_plus, parse_vector_minus. apply cosine_opposite.
  - split; [apply lookup_insert_eq|]. split; lra.
Qed.

(** *** The affinity call and the fallback *)

Lemma py_set_acc_hashable seen xs s :
  Forall (fun x => hashable x = true) seen →
  py_set_acc seen xs = Return s → Forall (fun x => hashable x = true) s.
Proof.
  revert seen. induction xs as [|x xs IH]; intros seen Hseen; simpl.
  - intros [= <-]. by apply Forall_rev.
  - destruct (hashable x) eqn:Hx; [|done]. apply IH.
    destruct (py_mem x seen); [done|]. by constructor.
Qed.

Lemma py_set_acc_returns seen xs :
  Forall (fun x => hashable x = true) xs → returns (py_set_acc seen xs).
Proof.
  revert seen. induction xs as [|x xs IH]; intros seen Hxs; simpl.
  - by eexists.
  - inversion Hxs as [|?? Hx Hxs']; subst. rewrite Hx. by apply IH.
Qed.

Lemma attach_affinity_empty pfm cids pid :
  foldl (Feed.attach_affinity []) pfm cids !! pid =
  if decide (pid ∈ cids)
  then <["affinity_score" := JNum 0]> <$> pfm !! pid
  else pfm !! pid.
Proof.
  revert pfm. induction cids as [|c cids IH]; intros pfm; cbn [foldl].
  - rewrite decide_False; [done|apply not_elem_of_nil].
  - rewrite IH. unfold Feed.attach_affinity.
    assert (∀ aid, (if truthy aid then FeastClient.affinity_get [] aid 0%R else 0%R) = 0%R)
      as Hzero by (intros aid; by destruct (truthy aid)).
    destruct (pfm !! c) as [pf|] eqn:Hc; rewrite ?Hzero.
    + destruct (decide (pid = c)) as [->|Hne].
      * rewrite lookup_insert_eq, Hc. simpl.
        rewrite (decide_True (P := c ∈ c :: cids)) by left.
        destruct (decide (c ∈ cids)); simpl; [by rewrite insert_insert_eq|done].
      * rewrite lookup_insert_ne by done.
        destruct (decide (pid ∈ cids)) as [Hin|Hnin].
        -- by rewrite (decide_True (P := pid ∈ c :: cids)) by (by right).
        -- rewrite (decide_False (P := pid ∈ c :: cids)); [done|].
           rewrite not_elem_of_cons. tauto.
    + destruct (decide (pid = c)) as [->|Hne].
      * rewrite Hc. simpl. by repeat case_decide.
      * destruct (decide (pid ∈ cids)) as [Hin|Hnin].
        -- by rewrite (decide_True (P := pid ∈ c :: cids)) by (by right).
        -- rewrite (decide_False (P := pid ∈ c :: cids)); [done|].
           rewrite not_elem_of_cons. tauto.
Qed.

Section Affinity.
Context `{Runtime}.

(** A failure of the HTTP call, of the status check or of the JSON
    decoding is swallowed by [get_affinity_features]. *)
Lemma affinity_transport_failure http uid authors :
  raises http → Forall (fun x => hashable x = true) authors →
  FeastClient.get_affinity_features http uid authors = Return [].
Proof.
  intros [e ->] Hh. unfold FeastClient.get_affinity_features.
  destruct (py_set_acc_returns [] authors Hh) as [s Hs].
  destruct authors as [|a authors']; [done|].
  unfold py_set. by rewrite Hs.
Qed.

Lemma fetch_features_feast w user_id cids r :
  Feed.feast_features w user_id cids = Return r →
  Feed.fetch_features w user_id cids = Return r.
Proof. unfold Feed.fetch_features. by intros ->. Qed.

Lemma fetch_features_fallback w user_id cids :
  raises (Feed.feast_features w user_id cids) →
  Feed.fetch_features w user_id cids = Feed.redis_features w user_id cids.
Proof. unfold Feed.fetch_features. by intros [e ->]. Qed.

(** C9, as the code has it.  After a successful ranking-features call:
    when the affinity call fails in transport (connection, status or JSON
    decoding), [get_affinity_features] returns the empty map, every
    candidate gets [affinity_score] 0.0 and the feature source stays
    "feast"; when [get_affinity_features] itself raises (the decoded body
    cannot be read), the request switches to the Redis feature cache, as it
    does when the ranking-features call raises. *)
Theorem affinity_failure_modes w user_id cids :
  (∀ uf pfm author_set,
     FeastClient.get_ranking_features (Feed.feast_ranking_http w) user_id cids
       = Return (uf, pfm) →
     py_set (Feed.author_ids_of pfm cids) = Return author_set →
     let unique_authors := filter (fun a => truthy a = true) author_set in
     (raises (Feed.feast_affinity_http w) →
      FeastClient.get_affinity_features (Feed.feast_affinity_http w) user_id unique_authors
        = Return [] ∧
      ∃ pfm', Feed.fetch_features w user_id cids = Return (uf, pfm', "feast") ∧
        ∀ pid, pid ∈ cids →
          ∃ pf, pfm !! pid = Some pf ∧
                pfm' !! pid = Some (<["affinity_score" := JNum 0]> pf)) ∧
     (raises (FeastClient.get_affinity_features (Feed.feast_affinity_http w) user_id
                unique_authors) →
      Feed.fetch_features w user_id cids = Feed.redis_features w user_id cids)) ∧
  (raises (FeastClient.get_ranking_features (Feed.feast_ranking_http w) user_id cids) →
   Feed.fetch_features w user_id cids = Feed.redis_features w user_id cids).
Proof.
  split.
  - intros uf pfm author_set Hrank Hset unique_authors. split.
    + intros Hfail.
      assert (Haff : FeastClient.get_affinity_features (Feed.feast_affinity_http w)
                       user_id unique_authors = Return []).
      { apply affinity_transport_failure; [done|].
        assert (Forall (fun x => hashable x = true) author_set) as Hh
          by (eapply py_set_acc_hashable; [|exact Hset]; constructor).
        apply Forall_forall. intros x Hx. apply list_elem_of_filter in Hx as [_ Hx].
        by eapply Forall_forall in Hh. }
      split; [exact Haff|].
      exists (foldl (Feed.attach_affinity []) pfm cids). split.
      * apply fetch_features_feast. unfold Feed.feast_features.
        rewrite Hrank. cbn [mbind py_bind]. rewrite Hset. cbn [mbind py_bind].
        fold unique_authors. by rewrite Haff.
      * intros pid Hpid.
        destruct (ranking_features_complete _ _ _ _ _ Hrank pid Hpid) as [pf Hpf].
        exists pf. split; [done|].
        by rewrite attach_affinity_empty, decide_True, Hpf.
    + intros [e He]. apply fetch_features_fallback. exists e.
      unfold Feed.feast_features. rewrite Hrank. cbn [mbind py_bind].
      rewrite Hset. cbn [mbind py_bind]. fold unique_authors. by rewrite He.
  - intros [e He]. apply fetch_features_fallback. exists e.
    unfold Feed.feast_features. by rewrite He.
Qed.

End Affinity.

(** What the sample feature store answers for the four candidates. *)
Lemma sample_ranking_features :
  FeastClient.get_ranking_features (H := sample_runtime) (Return author_columns) "u1"
    ["p3"; "p2"; "p1"; "p4"] =
  Return (∅,
          {["p3" := {["author_id" := JStr "a"; "topic_similarity" := JNum 0]};
            "p2" := {["author_id" := JStr "a"; "topic_similarity" := JNum 0]};
            "p1" := {["author_id" := JStr "a"; "topic_similarity" := JNum 0]};
            "p4" := {["author_id" := JStr "b"; "topic_similarity" := JNum 0]}]}).
Proof. by vm_compute. Qed.

Lemma affinity_failure_modes_witness :
  ∃ pfm',
    Feed.fetch_features (H := sample_runtime) (affinity_down_world 4 3 2 1) "u1"
      ["p3"; "p2"; "p1"; "p4"] = Return (∅, pfm', "feast").
Proof.
  destruct (proj1 (proj1 (affinity_failure_modes (H := sample_runtime)
                            (affinity_down_world 4 3 2 1) "u1" ["p3"; "p2"; "p1"; "p4"])
                     _ _ [JStr "a"; JStr "b"] sample_ranking_features
                     ltac:(by vm_compute))
             ltac:(by exists (ClientError "feast")))
    as [_ [pfm' [Hfetch _]]].
  by exists pfm'.
Defined.

(** C9 as stated fails: the ranking-features call succeeds, the affinity
    call answers 200 with a body that has no [metadata], and the request is
    served from the Redis feature cache. *)
Lemma affinity_parse_error_falls_back :
  returns (FeastClient.get_ranking_features (H := sample_runtime)
             (Feed.feast_ranking_http (affinity_malformed_world 4 3 2 1)) "u1"
             ["p3"; "p2"; "p1"; "p4"]) ∧
  Feed.feature_source <$>
    Feed.get_feed (H := sample_runtime) Config.settings
      (affinity_malformed_world 4 3 2 1) "u1"
  = Return "redis-fallback".
Proof.
  split; [eexists; apply sample_ranking_features|].
  rewrite (get_feed_stages (H := sample_runtime) Config.settings
             (affinity_malformed_world 4 3 2 1) "u1" (User.Make "u1" "alice" None)
             ["p3"; "p2"; "p1"] ["p4"; "p2"] [] ∅
             {["p3" := ∅; "p2" := ∅; "p1" := ∅; "p4" := ∅]} "redis-fallback"
             [scored "p1" social 4; scored "p2" social 3; scored "p3" social 2;
              scored "p4" discovery 1]
             (Feed.Walk {["a" := 2%Z; "b" := 1%Z]}
                [sample_feed_post "p1" "a" 4 social; sample_feed_post "p2" "a" 3 social;
                 sample_feed_post "p4" "b" 1 discovery]
                ["p1"; "p2"; "p4"])).
  - reflexivity.
  - reflexivity.
  - by vm_compute.
  - reflexivity.
  - by vm_compute.
  - apply sample_ranking; lra.
  - apply sample_stage4.
Qed.

(** ** Stage 3: scoring *)

Lemma py_gt_numeric a b x y :
  as_number a = Some x → as_number b = Some y →
  RankingClient.py_gt a b = Return (if Rlt_dec y x then true else false).
Proof. unfold RankingClient.py_gt. by intros -> ->. Qed.

(** On numbers [max] is the maximum. *)
Lemma py_max_numeric (v : json) (vs : list json) (r : R) dflt :
  as_number v = Some r →
  Forall (fun x => is_Some (as_number x)) vs →
  ∃ m, RankingClient.py_max (v :: vs) dflt = Return m ∧
       as_number m = Some (foldl Rmax r ((fun x => default 0%R (as_number x)) <$> vs)).
Proof.
  unfold RankingClient.py_max. revert v r.
  induction vs as [|x vs IH]; intros v r Hv Hvs.
  - exists v. by split.
  - inversion Hvs as [|?? [rx Hx] Hvs']; subst.
    rewrite fmap_cons. cbn [py_foldl foldl].
    rewrite (py_gt_numeric x v rx r Hx Hv), Hx. cbn [mbind py_bind].
    change (default 0%R (Some rx)) with rx.
    destruct (Rlt_dec r rx) as [Hlt|Hge].
    + rewrite Rmax_right by lra. by apply IH.
    + rewrite Rmax_left by lra. by apply IH.
Qed.

Lemma truthy_number v r : as_number v = Some r → truthy v = negb (bool_decide (r = 0%R)).
Proof.
  destruct v as [|[]|x| | |]; simpl; try done; intros [= <-]; [| |done].
  - rewrite bool_decide_false; [done|lra].
  - by rewrite bool_decide_true.
Qed.

Lemma max_likes_nonzero candidates : max_likes candidates ≠ 0%R.
Proof. unfold max_likes. destruct (decide (_ = 0%R)); [lra|done]. Qed.

Lemma math_exp_in_range (x : R) :
  (x <= 700)%R → RankingClient.math_exp x = Return (exp x).
Proof.
  intros Hx. unfold RankingClient.math_exp, RankingClient.exp_max.
  destruct (Rlt_dec _ _); [lra|done].
Qed.

Lemma math_exp_overflow (x : R) :
  (710 <= x)%R → RankingClient.math_exp x = Raise OverflowError.
Proof.
  intros Hx. unfold RankingClient.math_exp, RankingClient.exp_max.
  destruct (Rlt_dec _ _); [done|lra].
Qed.

(** With numeric features, none of them a creation time far ahead of the
    clock, the heuristic assigns every candidate its rounded score. *)
Lemma heuristic_scores now candidates :
  Forall (numeric_features now) candidates →
  Forall (exp_in_range now) candidates →
  RankingClient._apply_heuristic_scores now candidates =
  Return ((fun c => Candidate.set_rank_score c
                      (JNum (heuristic_score now (max_likes candidates) c)))
          <$> candidates).
Proof.
  intros Hnum Hrange. unfold RankingClient._apply_heuristic_scores.
  assert (∃ m, RankingClient.py_max
                 ((fun c => Candidate.feature c "like_count" (JNum 0)) <$> candidates)
                 (JNum 1) = Return m ∧
               as_number (if truthy m then m else JNum 1) = Some (max_likes candidates))
    as (m & -> & Hm).
  { unfold max_likes. destruct candidates as [|c cs].
    - exists (JNum 1). split; [done|]. simpl.
      rewrite bool_decide_false by lra. simpl. rewrite decide_False by lra. done.
    - inversion Hnum as [|?? [[l Hl] _] Hcs]; subst.
      destruct (py_max_numeric (Candidate.feature c "like_count" (JNum 0))
                  ((fun c => Candidate.feature c "like_count" (JNum 0)) <$> cs)
                  l (JNum 1) Hl) as (m & Hm & Hval).
      { apply Forall_fmap. eapply Forall_impl; [exact Hcs|]. by intros x [? _]. }
      exists m. split; [exact Hm|].
      assert (Hfold :
        foldl Rmax l ((fun x => default 0%R (as_number x)) <$>
                      ((fun c => Candidate.feature c "like_count" (JNum 0)) <$> cs))
        = foldl Rmax (likes c) (likes <$> cs)).
      { rewrite <- list_fmap_compose. unfold likes at 1. by rewrite Hl. }
      rewrite Hfold in Hval. rewrite (truthy_number _ _ Hval).
      rewrite fmap_cons. cbv zeta.
      set (M := foldl Rmax (likes c) (likes <$> cs)) in *.
      destruct (decide (M = 0%R)) as [Hz|Hz].
      + by rewrite bool_decide_true.
      + by rewrite bool_decide_false. }
  simpl. apply py_mapM_fmap. intros c Hc.
  eapply Forall_forall in Hnum as [[l Hl] [ts Hts]]; [|exact Hc].
  eapply Forall_forall in Hrange; [|exact Hc].
  unfold exp_in_range, created_at_ts in Hrange. rewrite Hts in Hrange. simpl in Hrange.
  unfold RankingClient.py_sub, RankingClient.py_div. simpl.
  rewrite Hts, Hl, Hm. simpl.
  rewrite math_exp_in_range by lra. simpl.
  rewrite bool_decide_false by apply max_likes_nonzero. simpl.
  unfold heuristic_score, likes, created_at_ts. by rewrite Hl, Hts.
Qed.

Lemma Rabs_bounds (x b : R) : (Rabs x <= b)%R → (- b <= x <= b)%R.
Proof. unfold Rabs. destruct (Rcase_abs x); lra. Qed.

Lemma round_half_even_error (y : R) :
  (Rabs (IZR (RankingClient.round_half_even y) - y) <= 1 / 2)%R.
Proof.
  unfold RankingClient.round_half_even, frac_part.
  destruct (base_Int_part y) as [H1 H2]. set (n := Int_part y) in *.
  destruct (Rlt_dec _ _); [|destruct (Rlt_dec _ _); [|destruct (Z.even n)]];
    rewrite ?plus_IZR; apply Rabs_le; lra.
Qed.

(** Rounding to four places moves a number by at most half a unit of the
    fourth place, onto a multiple of that unit. *)
Lemma py_round_error (x : R) :
  (Rabs (RankingClient.py_round x 4 - x) <= 1 / 20000)%R ∧
  ∃ n : Z, RankingClient.py_round x 4 = (IZR n / 10 ^ 4)%R.
Proof.
  split; [|by eexists]. unfold RankingClient.py_round.
  pose proof (round_half_even_error (x * 10 ^ 4)) as Herr.
  set (n := RankingClient.round_half_even _) in *.
  assert (10 ^ 4 = 10000)%R as E by (simpl; lra). rewrite E in *.
  apply Rabs_le. apply Rabs_bounds in Herr.
  replace (IZR n / 10000 - x)%R with ((IZR n - x * 10000) / 10000)%R by lra. lra.
Qed.

Lemma plausible_in_range now c : plausible_features now c → exp_in_range now c.
Proof. unfold plausible_features, exp_in_range. lra. Qed.

Lemma insert_desc_perm x l : RankingClient.insert_desc x l ≡ₚ x :: l.
Proof.
  induction l as [|y l IH]; simpl; [done|].
  destruct (Rlt_dec x.1 y.1); [|done].
  rewrite IH. apply Permutation_swap.
Qed.

Lemma insert_desc_sorted x l :
  StronglySorted keyed_desc l → StronglySorted keyed_desc (RankingClient.insert_desc x l).
Proof.
  induction 1 as [|y l Hl IH Hy]; simpl.
  - repeat constructor.
  - destruct (Rlt_dec x.1 y.1) as [Hlt|Hge].
    + constructor; [done|]. rewrite insert_desc_perm. constructor; [|done].
      unfold keyed_desc. lra.
    + constructor; [by constructor|]. constructor; [unfold keyed_desc; lra|].
      eapply Forall_impl; [exact Hy|]. unfold keyed_desc. intros z Hz. lra.
Qed.

Lemma foldr_insert_desc_perm keyed : foldr RankingClient.insert_desc [] keyed ≡ₚ keyed.
Proof.
  induction keyed as [|x l IH]; simpl; [done|]. by rewrite insert_desc_perm, IH.
Qed.

Lemma foldr_insert_desc_sorted keyed :
  StronglySorted keyed_desc (foldr RankingClient.insert_desc [] keyed).
Proof.
  induction keyed as [|x l IH]; simpl; [constructor|]. by apply insert_desc_sorted.
Qed.

Lemma sorted_keys_ranks (l : list (R * Candidate.t)) :
  Forall (fun kc => kc.1 = rank_of kc.2) l →
  StronglySorted keyed_desc l → sorted_by_rank_desc l.*2.
Proof.
  intros Hk. induction 1 as [|y l Hl IH Hy]; simpl; [constructor|].
  inversion Hk as [|?? Hky Hkl]; subst. constructor; [by apply IH|].
  apply Forall_fmap. apply Forall_forall. intros z Hz. simpl.
  eapply Forall_forall in Hy, Hkl; [|exact Hz..].
  unfold keyed_desc in Hy. by rewrite <- Hky, <- Hkl.
Qed.

(** The sort returns a permutation in descending order of score. *)
Lemma sort_by_rank_score_numeric candidates :
  Forall (fun c => ∃ r, Candidate.rank_score c = Some (JNum r)) candidates →
  ∃ ranked, RankingClient.sort_by_rank_score candidates = Return ranked ∧
            ranked ≡ₚ candidates ∧ sorted_by_rank_desc ranked.
Proof.
  intros Hnum. unfold RankingClient.sort_by_rank_score.
  rewrite (py_mapM_fmap _ (fun c => (rank_of c, c))).
  - simpl. eexists. split; [done|]. unfold RankingClient.sort_desc. split.
    + rewrite foldr_insert_desc_perm, <- list_fmap_compose. by rewrite list_fmap_id.
    + apply sorted_keys_ranks; [|apply foldr_insert_desc_sorted].
      rewrite foldr_insert_desc_perm. apply Forall_fmap. by apply Forall_true.
  - intros c Hc. eapply Forall_forall in Hnum as [r Hr]; [|exact Hc].
    unfold RankingClient.sort_key, rank_of. by rewrite Hr.
Qed.

Lemma foldl_Rmax_nat (n : nat) (ls : list R) :
  Forall (fun l => ∃ k : nat, l = INR k) ls → ∃ k : nat, foldl Rmax (INR n) ls = INR k.
Proof.
  revert n. induction ls as [|l ls IH]; intros n Hls; simpl; [eauto|].
  inversion Hls as [|?? [k ->] Hls']; subst.
  destruct (Rle_dec (INR n) (INR k)).
  - rewrite Rmax_right by done. by apply IH.
  - rewrite Rmax_left by lra. by apply IH.
Qed.

Lemma foldl_Rmax_ge (l : R) (ls : list R) : (l <= foldl Rmax l ls)%R.
Proof.
  revert l. induction ls as [|x ls IH]; intros l; simpl; [lra|].
  etrans; [|apply IH]. apply Rmax_l.
Qed.

(** With like counts that are not negative, [max_likes] is positive. *)
Lemma max_likes_pos candidates :
  Forall (fun c => 0 <= likes c)%R candidates → (0 < max_likes candidates)%R.
Proof.
  intros Hpos. unfold max_likes. destruct candidates as [|c cs].
  { simpl. destruct (decide (_ = 0%R)); lra. }
  inversion Hpos as [|?? Hc _]; subst. rewrite fmap_cons. cbv zeta.
  pose proof (foldl_Rmax_ge (likes c) (likes <$> cs)) as Hge.
  set (M := foldl Rmax (likes c) (likes <$> cs)) in *.
  destruct (decide (M = 0%R)); lra.
Qed.

(** With like counts that are natural numbers, [max_likes] is at least 1. *)
Lemma max_likes_ge_1 candidates :
  Forall (fun c => ∃ k : nat, likes c = INR k) candidates → (1 <= max_likes candidates)%R.
Proof.
  intros Hnat. destruct candidates as [|c cs].
  { unfold max_likes. simpl. destruct (decide (_ = 0%R)); lra. }
  inversion Hnat as [|?? [k Hk] Hcs]; subst.
  unfold max_likes. rewrite fmap_cons. cbv zeta.
  destruct (foldl_Rmax_nat k (likes <$> cs)) as [j Hj].
  { by apply Forall_fmap. }
  rewrite Hk, Hj. destruct (decide (_ = 0%R)) as [|Hnz]; [lra|].
  destruct j as [|j]; [done|].
  rewrite S_INR. pose proof (pos_INR j). lra.
Qed.

(** C8, as the code has it.  When the ranking call raises (in transport or
    while its body is read) and the like counts and creation times of the
    candidates are numbers (like counts between 0 and 1e15, creation times
    Unix times at most a day ahead of the clock), [score_candidates]
    returns; every candidate keeps its id, source and features and is
    assigned [0.5*exp(-age_hours/48) + 0.5*like_count/max_likes] rounded to
    four places: a multiple of 0.0001 within 0.0001 of the formula, where
    max_likes is the largest like count, replaced by 1 when it is 0 (so at
    least 1 for natural like counts).  The result holds the candidates
    sorted by this score, descending, and the page built from them holds at
    most page_size posts. *)
Theorem heuristic_fallback http now uf candidates :
  raises (RankingClient.model_scores http candidates) →
  Forall (numeric_features now) candidates →
  Forall (plausible_features now) candidates →
  ∃ ranked scored,
    RankingClient.score_candidates http now uf candidates = Return ranked ∧
    Forall2 (fun c c' =>
               rescored c c' ∧
               ∃ (s : R) (n : Z),
                 Candidate.rank_score c' = Some (JNum s) ∧
                 s = (IZR n / 10 ^ 4)%R ∧
                 (Rabs (s - heuristic_formula now (max_likes candidates) c)
                  <= 1 / 10000)%R)
            candidates scored ∧
    ranked ≡ₚ scored ∧
    sorted_by_rank_desc ranked ∧
    (0 < max_likes candidates)%R ∧
    (Forall (fun c => ∃ k : nat, likes c = INR k) candidates →
     (1 <= max_likes candidates)%R) ∧
    (∀ cfg w st, Feed.stage4 cfg w ranked ranked = Return st →
       (Z.of_nat (length (Feed.feed_posts st)) <= Z.max 0 (Config.feed_page_size cfg))%Z).
Proof.
  intros [e He] Hnum Hplausible.
  assert (Hpage : ∀ ranked cfg w st, Feed.stage4 cfg w ranked ranked = Return st →
    (Z.of_nat (length (Feed.feed_posts st)) <= Z.max 0 (Config.feed_page_size cfg))%Z).
  { intros ranked cfg w st Hst. unfold Feed.stage4 in Hst.
    apply bind_Return in Hst as (table & _ & Hst).
    apply diversity_walk_length in Hst. simpl in Hst. lia. }
  assert (Hmax : (0 < max_likes candidates)%R).
  { apply max_likes_pos. eapply Forall_impl; [exact Hplausible|]. by intros c [[] _]. }
  unfold RankingClient.score_candidates.
  destruct candidates as [|c cs] eqn:Hcs.
  { exists [], []. split; [done|]. split; [constructor|]. split; [done|].
    split; [constructor|]. split; [done|].
    split; [apply max_likes_ge_1|apply Hpage]. }
  rewrite <- Hcs in *. rewrite He. simpl.
  rewrite heuristic_scores;
    [|done|eapply Forall_impl; [exact Hplausible|apply plausible_in_range]].
  simpl.
  set (scored := (fun c => Candidate.set_rank_score c
                             (JNum (heuristic_score now (max_likes candidates) c)))
                 <$> candidates).
  destruct (sort_by_rank_score_numeric scored) as (ranked & Hsort & Hperm & Hsorted).
  { apply Forall_fmap, Forall_true. intros x. simpl. eauto. }
  exists ranked, scored. split; [done|]. split.
  { unfold scored. apply Forall2_fmap_r, Forall_Forall2_diag, Forall_true.
    intros x. split; [done|].
    destruct (py_round_error (heuristic_formula now (max_likes candidates) x))
      as [Herr [n Hn]].
    exists (heuristic_score now (max_likes candidates) x), n.
    split; [done|]. unfold heuristic_score. fold (heuristic_formula now (max_likes candidates) x).
    split; [exact Hn|]. lra. }
  split; [done|]. split; [done|]. split; [done|].
  split; [apply max_likes_ge_1|apply Hpage].
Qed.

Lemma Int_part_eq (r : R) (z : Z) :
  (IZR z <= r)%R → (r < IZR z + 1)%R → Int_part r = z.
Proof.
  intros Hlo Hhi. unfold Int_part.
  rewrite <- (up_tech r z Hlo); [lia|]. rewrite plus_IZR. lra.
Qed.

Lemma round_half_even_up (y : R) (z : Z) :
  (IZR z + 1 / 2 < y)%R → (y < IZR z + 1)%R →
  RankingClient.round_half_even y = (z + 1)%Z.
Proof.
  intros Hlo Hhi. unfold RankingClient.round_half_even, frac_part.
  rewrite (Int_part_eq y z) by lra.
  destruct (Rlt_dec _ _); [lra|]. destruct (Rlt_dec _ _); [done|lra].
Qed.

Lemma round_half_even_integer (z : Z) : RankingClient.round_half_even (IZR z) = z.
Proof.
  unfold RankingClient.round_half_even, frac_part.
  rewrite (Int_part_eq (IZR z) z) by lra.
  destruct (Rlt_dec _ _); [done|lra].
Qed.

Lemma liked_numeric now pid n : numeric_features now (liked pid n).
Proof.
  unfold numeric_features, liked, Candidate.feature. simpl.
  rewrite lookup_singleton_eq, lookup_singleton_ne by done. simpl. eauto.
Qed.

Lemma heuristic_score_third :
  heuristic_score 1000 (max_likes [liked "p1" 1; liked "p3" 3]) (liked "p1" 1)
  = (6667 / 10000)%R.
Proof.
  unfold heuristic_score, max_likes, likes, created_at_ts, liked, Candidate.feature.
  simpl. rewrite !lookup_singleton_eq, lookup_singleton_ne by done. simpl.
  rewrite Rmax_right by lra. rewrite decide_False by lra.
  replace (- ((1000 - 1000) / 3600) / 48)%R with 0%R by lra. rewrite exp_0.
  unfold RankingClient.py_round.
  rewrite (round_half_even_up _ 6666); simpl; [|lra..].
  change (6666 + 1)%Z with 6667%Z. lra.
Qed.

Lemma heuristic_score_full :
  heuristic_score 1000 (max_likes [liked "p1" 1; liked "p3" 3]) (liked "p3" 3) = 1%R.
Proof.
  unfold heuristic_score, max_likes, likes, created_at_ts, liked, Candidate.feature.
  simpl. rewrite !lookup_singleton_eq, lookup_singleton_ne by done. simpl.
  rewrite Rmax_right by lra. rewrite decide_False by lra.
  replace (- ((1000 - 1000) / 3600) / 48)%R with 0%R by lra. rewrite exp_0.
  unfold RankingClient.py_round. simpl.
  replace ((0.5 * 1 + 0.5 * (3 / 3)) * (10 * (10 * (10 * (10 * 1)))))%R
    with (IZR 10000) by lra.
  rewrite round_half_even_integer. lra.
Qed.

Lemma liked_plausible pid n :
  (0 <= n <= 10)%R → plausible_features 1000 (liked pid n).
Proof.
  intros Hn. unfold plausible_features, likes, created_at_ts, liked, Candidate.feature.
  simpl. rewrite lookup_singleton_eq, lookup_singleton_ne by done. simpl.
  assert (10 <= 10 ^ 15)%R.
  { replace 10%R with (10 ^ 1)%R at 1 by lra. apply Rle_pow; [lra|lia]. }
  lra.
Qed.

Lemma heuristic_fallback_witness :
  ∃ ranked,
    RankingClient.score_candidates (down "ranking") 1000 ∅
      [liked "p1" 1; liked "p3" 3] = Return ranked ∧
    sorted_by_rank_desc ranked.
Proof.
  destruct (heuristic_fallback (down "ranking") 1000 ∅ [liked "p1" 1; liked "p3" 3])
    as (ranked & scored & Hscore & _ & _ & Hsorted & _).
  - exists (ClientError "ranking"). reflexivity.
  - repeat (constructor; [apply liked_numeric|]). constructor.
  - repeat (constructor; [apply liked_plausible; lra|]). constructor.
  - exists ranked. by split.
Defined.

(** C8 as stated fails: with like counts 1 and 3 and no creation time the
    first candidate is assigned 0.6667, not 0.5*exp(0) + 0.5*(1/3). *)
Lemma heuristic_score_is_rounded :
  let candidates := [liked "p1" 1; liked "p3" 3] in
  let age_hours := ((1000 - 1000) / 3600)%R in
  RankingClient.score_candidates (down "ranking") 1000 ∅ candidates
  = Return [Candidate.set_rank_score (liked "p3" 3) (JNum 1);
            Candidate.set_rank_score (liked "p1" 1) (JNum (6667 / 10000))] ∧
  (6667 / 10000 ≠ 0.5 * exp (- age_hours / 48) + 0.5 * (1 / 3))%R.
Proof.
  intros candidates age_hours. split.
  - unfold RankingClient.score_candidates, candidates, down.
    cbn [try_except RankingClient.model_scores mbind py_bind].
    rewrite heuristic_scores;
      [|repeat (constructor; [apply liked_numeric|]); constructor
       |repeat (constructor; [apply plausible_in_range, liked_plausible; lra|]);
        constructor].
    cbn [fmap list_fmap]. rewrite heuristic_score_third, heuristic_score_full.
    unfold RankingClient.sort_by_rank_score, RankingClient.sort_desc. simpl.
    destruct (Rlt_dec _ _); [done|lra].
  - unfold age_hours. replace (- ((1000 - 1000) / 3600) / 48)%R with 0%R by lra.
    rewrite exp_0. lra.
Qed.

(** * Further properties

    ** More on [py] computations and lists *)

Lemma py_mapM_Forall2 {A B} (f : A → py B) xs ys :
  py_mapM f xs = Return ys → Forall2 (fun x y => f x = Return y) xs ys.
Proof.
  revert ys. induction xs as [|x xs IH]; intros ys; simpl.
  - intros [= <-]. constructor.
  - intros Hm. apply bind_Return in Hm as (y & Hy & Hm).
    apply bind_Return in Hm as (ys' & Hys & Hm). injection Hm as <-.
    constructor; [done|by apply IH].
Qed.

Lemma py_foldl_app {A B} (f : B → A → py B) acc l1 l2 :
  py_foldl f acc (l1 ++ l2) = py_foldl f acc l1 ≫= fun acc' => py_foldl f acc' l2.
Proof.
  revert acc. induction l1 as [|x l1 IH]; intros acc; simpl; [done|].
  destruct (f acc x) as [acc'|e]; simpl; [apply IH|done].
Qed.

Lemma py_foldl_raises_only {A B} (e0 : exn) (f : B → A → py B) acc xs :
  (∀ acc x e, f acc x = Raise e → e = e0) →
  ∀ e, py_foldl f acc xs = Raise e → e = e0.
Proof.
  intros Hf. revert acc. induction xs as [|x xs IH]; intros acc e; simpl; [done|].
  destruct (f acc x) as [acc'|e'] eqn:E; simpl.
  - apply IH.
  - intros [= <-]. by eapply Hf.
Qed.

Lemma Forall2_impl_elem {A B} (P Q : A → B → Prop) l k :
  Forall2 P l k → (∀ x y, x ∈ l → P x y → Q x y) → Forall2 Q l k.
Proof.
  induction 1 as [|x y l k Hxy _ IH]; intros HPQ; constructor.
  - apply HPQ; [left|done].
  - apply IH. intros x' y' Hx'. apply HPQ. by right.
Qed.

Lemma Forall2_elem_r {A B} (P : A → B → Prop) cs cs' c' :
  Forall2 P cs cs' → c' ∈ cs' → ∃ c, c ∈ cs ∧ P c c'.
Proof.
  intros HF Hc. apply list_elem_of_lookup in Hc as [i Hi].
  destruct (Forall2_lookup_r _ _ _ _ _ HF Hi) as (c & Hc & Hr).
  exists c. split; [by eapply list_elem_of_lookup_2|done].
Qed.

Lemma Forall2_sorted_transfer {A B} (f : B → R) (g : A → R) cs fps :
  Forall2 (fun c fp => f fp = g c) cs fps →
  StronglySorted (fun a b => (g b <= g a)%R) cs →
  StronglySorted (fun a b => (f b <= f a)%R) fps.
Proof.
  induction 1 as [|c fp cs fps Hc HF IH]; intros Hs; [constructor|].
  apply StronglySorted_inv in Hs as [Hs Hall].
  constructor; [by apply IH|].
  apply Forall_forall. intros fp' Hfp'.
  destruct (Forall2_elem_r _ _ _ _ HF Hfp') as (c' & Hc' & Heq).
  eapply Forall_forall in Hall; [|exact Hc']. rewrite Hc, Heq. exact Hall.
Qed.

Lemma StronglySorted_sublist_of {A} (R : relation A) l1 l2 :
  l1 `sublist_of` l2 → StronglySorted R l2 → StronglySorted R l1.
Proof.
  intros Hsub Hs. revert l1 Hsub.
  induction Hs as [|y z Hz IH Hy]; intros l1 Hsub.
  - apply sublist_nil_r in Hsub as ->. constructor.
  - apply sublist_cons_r in Hsub as [Hsub|(l1' & -> & Hsub)]; [by apply IH|].
    constructor; [by apply IH|].
    apply Forall_forall. intros x Hx. eapply Forall_forall in Hy; [done|].
    by eapply elem_of_sublist.
Qed.

Lemma sublist_fmap_inv {A B} (f : A → B) (l : list B) (k : list A) :
  l `sublist_of` f <$> k → ∃ k', k' `sublist_of` k ∧ l = f <$> k'.
Proof.
  revert l. induction k as [|x k IH]; intros l Hsub.
  - apply sublist_nil_r in Hsub as ->. by exists [].
  - rewrite fmap_cons in Hsub.
    apply sublist_cons_r in Hsub as [Hsub|(l' & -> & Hsub)].
    + apply IH in Hsub as (k' & Hk' & ->). exists k'. split; [by apply sublist_cons|done].
    + apply IH in Hsub as (k' & Hk' & ->). exists (x :: k').
      split; [by apply sublist_skip|done].
Qed.

Lemma slice_to_sublist {A} (xs : list A) n : slice_to xs n `sublist_of` xs.
Proof. unfold slice_to. destruct (n <? 0)%Z; apply sublist_take. Qed.

Lemma slice_to_nil {A} n : slice_to (@nil A) n = [].
Proof. unfold slice_to. destruct (n <? 0)%Z; apply take_nil. Qed.

Lemma filter_none {A} (P : A → Prop) `{∀ x, Decision (P x)} (l : list A) :
  (∀ x, x ∈ l → ¬ P x) → filter P l = [].
Proof.
  induction l as [|x l IH]; intros HP; [done|].
  rewrite filter_cons, decide_False by (apply HP; left).
  apply IH. intros y Hy. apply HP. by right.
Qed.

Lemma foldl_insert_lookup_ne {A V} (key : A → string) (val : A → V) l (m : gmap string V) k :
  k ∉ key <$> l →
  foldl (fun m x => <[key x := val x]> m) m l !! k = m !! k.
Proof.
  revert m. induction l as [|y l IH]; intros m Hk; simpl; [done|].
  rewrite fmap_cons, not_elem_of_cons in Hk. destruct Hk as [Hne Hk].
  rewrite IH by done. by rewrite lookup_insert_ne.
Qed.

Lemma foldl_insert_lookup {A V} (key : A → string) (val : A → V) l (m : gmap string V) x :
  NoDup (key <$> l) → x ∈ l →
  foldl (fun m x => <[key x := val x]> m) m l !! key x = Some (val x).
Proof.
  revert m. induction l as [|y l IH]; intros m Hnd Hx; simpl.
  - by apply elem_of_nil in Hx.
  - rewrite fmap_cons in Hnd. apply NoDup_cons in Hnd as [Hy Hnd].
    apply elem_of_cons in Hx as [->|Hx].
    + rewrite foldl_insert_lookup_ne by done. by rewrite lookup_insert_eq.
    + by apply IH.
Qed.

Lemma foldl_insert_key {V} (key : V → string) l (m : gmap string V) k v :
  foldl (fun m x => <[key x := x]> m) m l !! k = Some v →
  m !! k = Some v ∨ (v ∈ l ∧ key v = k).
Proof.
  revert m. induction l as [|y l IH]; intros m; simpl; [by left|].
  intros Hl. apply IH in Hl as [Hl|[Hl Hk]].
  - destruct (decide (key y = k)) as [<-|Hne].
    + rewrite lookup_insert_eq in Hl. injection Hl as <-. right. split; [left|done].
    + rewrite lookup_insert_ne in Hl by done. by left.
  - right. split; [by right|done].
Qed.

Lemma py_mem_str s xs : py_mem (JStr s) xs = true ↔ JStr s ∈ xs.
Proof.
  induction xs as [|y xs IH]; simpl.
  - split; [done|]. intros Hin. by apply elem_of_nil in Hin.
  - rewrite orb_true_iff, IH, elem_of_cons. unfold py_eqb.
    destruct y as [|[]|r|t| |]; simpl; try (split; [intros [|]|intros [|]]; (done || by right)).
    rewrite String.eqb_eq. split; [intros [->|]|intros [[= ->]|]]; (by left) || (by right).
Qed.

Lemma py_mem_str_false s xs : py_mem (JStr s) xs = false ↔ JStr s ∉ xs.
Proof. rewrite <- py_mem_str. by destruct (py_mem _ _). Qed.

(** ** Reading a mailbox *)

Lemma zrevrange_limit (z : Redis.zset) (limit : Z) :
  Redis.zrevrange z 0 (limit - 1) =
  take (Z.to_nat (if (1 <=? limit)%Z then limit else Z.of_nat (length z) + limit)) (rev z).*1.
Proof.
  unfold Redis.zrevrange, Redis.rank_range.
  assert (length (rev z) = length z) as Hrev by apply length_rev.
  set (llen := Z.of_nat (length z)) in *.
  assert (llen = Z.of_nat (length z)) as Hllen by done. clearbody llen.
  cbv zeta.
  repeat match goal with
         | |- context [Z.ltb ?a ?b] => destruct (Z.ltb_spec a b)
         | |- context [Z.leb ?a ?b] => destruct (Z.leb_spec a b)
         end; simpl; try lia;
    rewrite ?drop_0, ?fmap_take;
    try (rewrite (take_ge _ (Z.to_nat _)) by (rewrite length_fmap; lia));
    try (rewrite (take_ge _ (S _ - _)) by (rewrite length_fmap; lia));
    try (rewrite take_nil);
    try done; try (f_equal; lia).
  all: try (destruct z; simpl in *; [by rewrite ?take_nil|lia]).
  all: try (replace (Z.to_nat _) with 0 by lia; done).
  apply take_ge. rewrite length_fmap. lia.
Qed.

(** X1.  [get_social_feed] with a limit of at least 1 returns the first
    [limit] members of the mailbox, highest score first; with a limit of 0
    or less the upper index becomes negative and counts from the end, so a
    limit of 0 returns the whole mailbox and a limit of -k all but the k
    lowest-scored members. *)
Theorem social_feed_limit redis user_id limit :
  ((1 <= limit)%Z →
   RedisClient.get_social_feed redis user_id limit
   = take (Z.to_nat limit) (newest_first redis user_id)) ∧
  ((limit <= 0)%Z →
   RedisClient.get_social_feed redis user_id limit
   = take (length (newest_first redis user_id) - Z.to_nat (- limit))
          (newest_first redis user_id)).
Proof.
  unfold RedisClient.get_social_feed, newest_first. fold (mailbox redis user_id).
  rewrite zrevrange_limit. split; intros Hl.
  - by replace (1 <=? limit)%Z with true by lia.
  - replace (1 <=? limit)%Z with false by lia. f_equal.
    rewrite length_fmap, length_rev. lia.
Qed.

Lemma social_feed_limit_witness :
  RedisClient.get_social_feed sample_store "u1" 2
  = take (Z.to_nat 2) (newest_first sample_store "u1").
Proof. apply (proj1 (social_feed_limit sample_store "u1" 2)). lia. Defined.

Lemma zinsert_last (e : string * Q) (z : Redis.zset) :
  (∀ x, x ∈ z → (x.2 < e.2)%Q) → Redis.zinsert e z = z ++ [e].
Proof.
  induction z as [|x z IH]; intros Hlt; simpl; [done|].
  assert (Redis.zkey_ltb e x = false) as ->.
  { unfold Redis.zkey_ltb. assert (x.2 < e.2)%Q as Hx by (apply Hlt; left).
    apply Qgt_alt in Hx. by rewrite Hx. }
  rewrite IH; [done|]. intros y Hy. apply Hlt. by right.
Qed.

(** A push of the newest entry leaves it at the top of the mailbox. *)
Lemma pushed_on_top (M : Z) (z : Redis.zset) p s :
  (1 <= M)%Z →
  (∀ e, e ∈ z → e.1 ≠ p → (e.2 < s)%Q) →
  ∃ rest, Redis.zremrangebyrank (Redis.zadd z p s) 0 (- (M + 1)) = rest ++ [(p, s)] ∧
          rest `sublist_of` z.
Proof.
  intros HM Hnew. rewrite trim_drop by lia. unfold Redis.zadd.
  rewrite zinsert_last.
  2:{ intros x Hx. apply list_elem_of_filter in Hx as [Hne Hx]. simpl. by apply Hnew. }
  rewrite length_app. simpl.
  exists (drop (length (Redis.zrem z p) + 1 - Z.to_nat M) (Redis.zrem z p)). split.
  - rewrite drop_app_le by lia. done.
  - etrans; [apply sublist_drop|]. apply sublist_filter.
Qed.

Lemma head_social_feed redis u limit rest p s :
  (1 <= limit)%Z → mailbox redis u = rest ++ [(p, s)] →
  head (RedisClient.get_social_feed redis u limit) = Some p.
Proof.
  intros Hl Hmb. unfold RedisClient.get_social_feed. fold (mailbox redis u).
  rewrite zrevrange_limit. replace (1 <=? limit)%Z with true by lia.
  rewrite Hmb, rev_app_distr. simpl.
  destruct (Z.to_nat limit) eqn:E; [lia|done].
Qed.

Lemma ttl_after_push_api cfg now u p s redis :
  (0 < Config.redis_feed_ttl cfg)%Z →
  mailbox (RedisClient.push_to_feed cfg now u p s redis) u ≠ [] →
  Redis.ttls (RedisClient.push_to_feed cfg now u p s redis) !! ("feed:" +:+ u)
  = Some (Config.redis_feed_ttl cfg).
Proof.
  intros Httl. unfold mailbox, RedisClient.push_to_feed. rewrite zget_expire by done.
  set (st := Redis.cmd_zremrangebyrank _ _ _ _).
  unfold Redis.cmd_expire, Redis.zget.
  replace (Config.redis_feed_ttl cfg <=? 0)%Z with false by lia.
  destruct (Redis.zsets st !! ("feed:" +:+ u)) as [z|]; simpl; [|done].
  intros _. by rewrite lookup_insert_eq.
Qed.

Lemma social_feed_empty redis u limit :
  mailbox redis u = [] → RedisClient.get_social_feed redis u limit = [].
Proof.
  intros Hmb. unfold RedisClient.get_social_feed. fold (mailbox redis u).
  rewrite zrevrange_limit, Hmb. simpl. by destruct (1 <=? limit)%Z; rewrite take_nil.
Qed.

(** X2.  Write then read on one mailbox, with room for at least one entry:
    after [push_to_feed] of a post whose score is above that of every other
    member, and with a positive [redis_feed_ttl], [get_social_feed] (limit
    at least 1) returns that post first and the mailbox key expires after
    [redis_feed_ttl] seconds.  With a [redis_feed_ttl] that is not positive
    the push deletes the mailbox and [get_social_feed] returns nothing. *)
Theorem push_then_read cfg now user_id post_id score redis limit :
  (1 <= Config.redis_feed_max_size cfg)%Z →
  (1 <= limit)%Z →
  newer_than_rest redis user_id post_id (default now score) →
  let redis' := RedisClient.push_to_feed cfg now user_id post_id score redis in
  ((0 < Config.redis_feed_ttl cfg)%Z →
   head (RedisClient.get_social_feed redis' user_id limit) = Some post_id ∧
   Redis.ttls redis' !! ("feed:" +:+ user_id) = Some (Config.redis_feed_ttl cfg)) ∧
  ((Config.redis_feed_ttl cfg <= 0)%Z →
   RedisClient.get_social_feed redis' user_id limit = []).
Proof.
  intros HM Hl Hnew redis'. split.
  - intros Httl.
    destruct (pushed_on_top (Config.redis_feed_max_size cfg) (mailbox redis user_id)
                post_id (default now score) HM Hnew) as (rest & Hmb & _).
    rewrite <- mailbox_push_api in Hmb by done. fold redis' in Hmb. split.
    + by eapply head_social_feed.
    + apply ttl_after_push_api; [done|]. fold redis'. rewrite Hmb. by destruct rest.
  - intros Httl. apply social_feed_empty. unfold redis'.
    rewrite mailbox_push_api_cases. by replace (_ <=? 0)%Z with true by lia.
Qed.

Lemma sample_store_older :
  newer_than_rest sample_store "u1" "p9" 10.
Proof.
  intros e He _. change (mailbox sample_store "u1") with [("p1", 1%Q); ("p2", 2%Q); ("p3", 3%Q)] in He.
  repeat (apply elem_of_cons in He as [->|He]; [done|]). by apply elem_of_nil in He.
Qed.

Lemma push_then_read_witness :
  let redis' := RedisClient.push_to_feed Config.settings 10 "u1" "p9" None sample_store in
  head (RedisClient.get_social_feed redis' "u1" 100) = Some "p9" ∧
  Redis.ttls redis' !! "feed:u1" = Some 86400%Z.
Proof.
  refine (proj1 (push_then_read Config.settings 10 "u1" "p9" None sample_store 100
                   _ _ _) _).
  - simpl. lia.
  - lia.
  - exact sample_store_older.
  - simpl. lia.
Defined.

Lemma zadd_members_NoDup z p s : NoDup z.*1 → NoDup (Redis.zadd z p s).*1.
Proof.
  intros Hnd. unfold Redis.zadd. rewrite zinsert_perm, fmap_cons. simpl.
  apply NoDup_cons. split.
  - rewrite list_elem_of_fmap. intros ([q t] & Heq & Hin). simpl in Heq. subst q.
    unfold Redis.zrem in Hin. by apply list_elem_of_filter in Hin as [Hne _].
  - eapply sublist_NoDup; [exact Hnd|]. apply fmap_sublist, sublist_filter.
Qed.

Lemma rank_range_le llen start stop lo hi :
  Redis.rank_range llen start stop = Some (lo, hi) → lo <= hi.
Proof.
  unfold Redis.rank_range. cbv zeta.
  repeat match goal with
         | |- context [Z.ltb ?a ?b] => destruct (Z.ltb_spec a b)
         | |- context [Z.leb ?a ?b] => destruct (Z.leb_spec a b)
         end; simpl; try done; intros [= <- <-]; lia.
Qed.

Lemma zremrangebyrank_sublist z start stop :
  Redis.zremrangebyrank z start stop `sublist_of` z.
Proof.
  unfold Redis.zremrangebyrank.
  destruct (Redis.rank_range _ _ _) as [[lo hi]|] eqn:E; [|done].
  apply rank_range_le in E.
  rewrite <- (take_drop lo z) at 3. apply sublist_app; [done|].
  replace (S hi) with (lo + (S hi - lo)) by lia. rewrite <- drop_drop.
  apply sublist_drop.
Qed.

Lemma push_members_NoDup cfg u p s redis u' :
  NoDup (mailbox redis u').*1 →
  NoDup (mailbox (FanoutWorker.push_to_feed cfg u p s redis) u').*1.
Proof.
  intros Hnd. destruct (decide (u = u')) as [<-|Hne].
  - rewrite mailbox_push_cases. destruct (_ <=? 0)%Z; [constructor|].
    eapply sublist_NoDup; [apply zadd_members_NoDup, Hnd|].
    apply fmap_sublist, zremrangebyrank_sublist.
  - by rewrite mailbox_push_other.
Qed.

Lemma social_feed_sublist redis u limit :
  RedisClient.get_social_feed redis u limit `sublist_of` (rev (mailbox redis u)).*1.
Proof.
  unfold RedisClient.get_social_feed. fold (mailbox redis u).
  rewrite zrevrange_limit. apply sublist_take.
Qed.

(** ** The fan-out worker: frame and delivery *)

Lemma process_message_pushes cfg follows now msg redis redis' :
  FanoutWorker.process_message cfg follows now msg redis = Return redis' →
  redis' = redis ∨
  ∃ pid author,
    msg !! "post_id" = Some pid ∧ msg !! "user_id" = Some author ∧
    redis' = foldl (fun redis fid => FanoutWorker.push_to_feed cfg fid pid now redis)
               redis (take (Z.to_nat (FanoutWorker.fan_out_follower_cap cfg))
                           (followers_of follows author)).
Proof.
  unfold FanoutWorker.process_message.
  destruct (_ || _) eqn:Hmiss; [intros [= <-]; by left|].
  apply orb_false_elim in Hmiss as [Hp Hu].
  destruct (msg !! "post_id") as [pid|]; [|done].
  destruct (msg !! "user_id") as [author|]; [|done]. simpl.
  intros Hp'. apply bind_Return in Hp' as (followers & Hf & Hp').
  apply get_followers_length in Hf as ->.
  destruct (_ =? 0)%Z; [injection Hp' as <-; by left|].
  destruct (_ <=? _)%Z; [injection Hp' as <-; by left|].
  injection Hp' as <-. right. by exists pid, author.
Qed.

(** X3.  Whatever the event (well-formed or not, below or above the cap),
    processing it leaves the mailbox of every user who does not follow the
    author as it was. *)
Theorem fanout_touches_followers_only cfg follows now msg redis redis' u :
  FanoutWorker.process_message cfg follows now msg redis = Return redis' →
  (∀ author, msg !! "user_id" = Some author → u ∉ followers_of follows author) →
  mailbox redis' u = mailbox redis u.
Proof.
  intros Hp Hu. apply process_message_pushes in Hp as [->|(pid & author & _ & Ha & ->)];
    [done|].
  specialize (Hu author Ha).
  assert (u ∉ take (Z.to_nat (FanoutWorker.fan_out_follower_cap cfg))
                   (followers_of follows author)) as Hnot.
  { intros Hin. apply Hu. eapply elem_of_sublist; [exact Hin|apply sublist_take]. }
  revert redis Hnot. generalize (take (Z.to_nat (FanoutWorker.fan_out_follower_cap cfg))
                                      (followers_of follows author)).
  induction l as [|f fs IH]; intros redis Hnot; simpl; [done|].
  apply not_elem_of_cons in Hnot as [Hne Hnot].
  rewrite IH by done. by apply mailbox_push_other.
Qed.

Lemma fanout_touches_followers_only_witness :
  mailbox (foldl (fun redis fid =>
                    FanoutWorker.push_to_feed FanoutWorker.settings fid "p1" 5 redis)
             sample_store ["follower-0"; "follower-1"]) "u1"
  = mailbox sample_store "u1".
Proof.
  apply (fanout_touches_followers_only FanoutWorker.settings
           (followers_table 2 "author") 5 (new_post "p1" "author") sample_store _ "u1").
  - by vm_compute.
  - intros author Ha. vm_compute in Ha. injection Ha as <-.
    change (followers_of (followers_table 2 "author") "author")
      with ["follower-0"; "follower-1"].
    intros Hin. repeat (apply elem_of_cons in Hin as [Hin|Hin]; [done|]).
    by apply elem_of_nil in Hin.
Defined.

(** X4.  Mailboxes never hold a post twice: if the members of every
    mailbox are distinct before an event is processed they are distinct
    after it, so a redelivered event duplicates nothing, and the ids
    [get_social_feed] reads back are distinct for every limit. *)
Theorem fanout_keeps_members_distinct cfg follows now msg redis redis' :
  (∀ u, NoDup (mailbox redis u).*1) →
  FanoutWorker.process_message cfg follows now msg redis = Return redis' →
  (∀ u, NoDup (mailbox redis' u).*1) ∧
  (∀ u limit, NoDup (RedisClient.get_social_feed redis' u limit)).
Proof.
  intros Hnd Hp.
  assert (∀ u, NoDup (mailbox redis' u).*1) as Hnd'.
  { apply process_message_pushes in Hp as [->|(pid & author & _ & _ & ->)]; [done|].
    revert redis Hnd. generalize (take (Z.to_nat (FanoutWorker.fan_out_follower_cap cfg))
                                       (followers_of follows author)).
    induction l as [|f fs IH]; intros redis Hnd; simpl; [done|].
    apply IH. intros u. by apply push_members_NoDup. }
  split; [done|]. intros u limit.
  eapply sublist_NoDup; [|apply social_feed_sublist].
  assert ((rev (mailbox redis' u)).*1 ≡ₚ (mailbox redis' u).*1) as ->
    by (apply fmap_Permutation; symmetry; apply Permutation_rev).
  apply Hnd'.
Qed.

Lemma sample_store_distinct u : NoDup (mailbox sample_store u).*1.
Proof.
  destruct (decide (u = "u1")) as [->|Hne].
  - change (mailbox sample_store "u1").*1 with ["p1"; "p2"; "p3"].
    repeat (constructor; [set_solver|]). constructor.
  - assert (mailbox sample_store u = []) as ->; [|constructor].
    unfold mailbox, Redis.zget, sample_store. simpl.
    rewrite lookup_singleton_ne; [done|]. intros Heq. apply Hne.
    by apply (String.app_inj "feed:") in Heq.
Qed.

Lemma fanout_keeps_members_distinct_witness :
  let redis' :=
    foldl (fun redis fid =>
             FanoutWorker.push_to_feed FanoutWorker.settings fid "p1" 5 redis)
      sample_store ["follower-0"; "follower-1"] in
  (∀ u, NoDup (mailbox redis' u).*1) ∧
  (∀ u limit, NoDup (RedisClient.get_social_feed redis' u limit)).
Proof.
  apply (fanout_keeps_members_distinct FanoutWorker.settings
           (followers_table 2 "author") 5 (new_post "p1" "author") sample_store).
  - exact sample_store_distinct.
  - by vm_compute.
Defined.

Lemma push_keeps_newer cfg f' p s redis f :
  newer_than_rest redis f p s →
  newer_than_rest (FanoutWorker.push_to_feed cfg f' p s redis) f p s.
Proof.
  intros Hnew e He Hne. destruct (decide (f' = f)) as [->|Hf].
  - rewrite mailbox_push_cases in He.
    destruct (_ <=? 0)%Z; [by apply elem_of_nil in He|].
    eapply elem_of_sublist in He; [|apply zremrangebyrank_sublist].
    apply elem_of_zadd in He as [->|[He _]]; [done|]. by apply Hnew.
  - rewrite mailbox_push_other in He by done. by apply Hnew.
Qed.

Lemma fanout_on_top cfg p s fs redis f :
  (1 <= FanoutWorker.redis_feed_max_size cfg)%Z →
  (0 < FanoutWorker.redis_feed_ttl cfg)%Z →
  newer_than_rest redis f p s →
  f ∈ fs ∨ (∃ rest, mailbox redis f = rest ++ [(p, s)]) →
  ∃ rest,
    mailbox (foldl (fun redis fid => FanoutWorker.push_to_feed cfg fid p s redis) redis fs) f
    = rest ++ [(p, s)].
Proof.
  intros HM Httl. revert redis. induction fs as [|x fs IH]; intros redis Hnew Hf; simpl.
  - destruct Hf as [Hf|Hf]; [by apply elem_of_nil in Hf|done].
  - apply IH; [by apply push_keeps_newer|].
    destruct (decide (x = f)) as [->|Hne].
    + right. rewrite mailbox_push by done.
      destruct (pushed_on_top (FanoutWorker.redis_feed_max_size cfg) (mailbox redis f)
                  p s HM Hnew) as (rest & Hmb & _). by exists rest.
    + destruct Hf as [Hf|Hf].
      * left. apply elem_of_cons in Hf as [->|Hf]; [done|exact Hf].
      * right. by rewrite mailbox_push_other.
Qed.

(** X5.  Delivery.  For an author with at least one follower and fewer
    than [fan_out_follower_cap], mailboxes with room for at least one entry
    and a positive [redis_feed_ttl]: whenever the processing of the
    new-post event returns, every follower whose other mailbox entries are
    older than the event reads the post first from [get_social_feed]. *)
Theorem fanout_delivers cfg follows now pid uid redis redis' limit :
  pid ≠ "" → uid ≠ "" →
  (0 < Z.of_nat (length (followers_of follows uid))
     < FanoutWorker.fan_out_follower_cap cfg)%Z →
  (1 <= FanoutWorker.redis_feed_max_size cfg)%Z →
  (0 < FanoutWorker.redis_feed_ttl cfg)%Z →
  (1 <= limit)%Z →
  FanoutWorker.process_message cfg follows now (new_post pid uid) redis = Return redis' →
  ∀ f, f ∈ followers_of follows uid → newer_than_rest redis f pid now →
    head (RedisClient.get_social_feed redis' f limit) = Some pid.
Proof.
  intros Hp Hu Hn HM Httl Hl Hreturn f Hf Hnew.
  rewrite process_message_fanout in Hreturn by done. injection Hreturn as <-.
  destruct (fanout_on_top cfg pid now (followers_of follows uid) redis f HM Httl Hnew)
    as (rest & Hmb); [by left|].
  by eapply head_social_feed.
Qed.

Lemma fanout_delivers_witness :
  let redis' :=
    foldl (fun redis fid =>
             FanoutWorker.push_to_feed FanoutWorker.settings fid "p1" 5 redis)
      empty_store ["follower-0"; "follower-1"] in
  head (RedisClient.get_social_feed redis' "follower-0" 100) = Some "p1".
Proof.
  apply (fanout_delivers FanoutWorker.settings (followers_table 2 "author") 5
           "p1" "author" empty_store _ 100).
  - done.
  - done.
  - vm_compute. split; reflexivity.
  - simpl. lia.
  - simpl. lia.
  - lia.
  - by vm_compute.
  - change (followers_of (followers_table 2 "author") "author")
      with ["follower-0"; "follower-1"]. by left.
  - intros e He. change (mailbox empty_store "follower-0") with (@nil (string * Q)) in He.
    by apply elem_of_nil in He.
Defined.

(** ** The answer of the impression store *)

Lemma add_first_str acc row acc' pid :
  PinotClient.add_first acc row = Return acc' →
  JStr pid ∈ acc' ↔ JStr pid ∈ acc ∨ getitem_idx row 0 = Return (JStr pid).
Proof.
  unfold PinotClient.add_first. intros Ha.
  apply bind_Return in Ha as (x & Hx & Ha). rewrite Hx.
  destruct (hashable x); [|done]. injection Ha as <-.
  destruct (py_mem x acc) eqn:Hm.
  - split; [by left|]. intros [Hin|[= ->]]; [done|]. by apply py_mem_str.
  - rewrite elem_of_app, list_elem_of_singleton. split.
    + intros [Hin|<-]; [by left|by right].
    + intros [Hin|[= ->]]; [by left|by right].
Qed.

Lemma seen_rows_str rows acc seen pid :
  py_foldl PinotClient.add_first acc rows = Return seen →
  JStr pid ∈ seen ↔
  JStr pid ∈ acc ∨ ∃ row, row ∈ rows ∧ getitem_idx row 0 = Return (JStr pid).
Proof.
  revert acc. induction rows as [|row rows IH]; intros acc; simpl.
  - intros [= <-]. split; [by left|]. intros [Hin|(row & Hrow & _)]; [done|].
    by apply elem_of_nil in Hrow.
  - intros Hf. apply bind_Return in Hf as (acc' & Hstep & Hf).
    rewrite (IH _ Hf), (add_first_str _ _ _ _ Hstep). split.
    + intros [[Hin|Hrow]|(row' & Hrow' & Hfirst)].
      * by left.
      * right. exists row. split; [left|done].
      * right. exists row'. split; [by right|done].
    + intros [Hin|(row' & Hrow' & Hfirst)]; [by left; left|].
      apply elem_of_cons in Hrow' as [->|Hrow'].
      * left. by right.
      * right. by exists row'.
Qed.

(** X6.  When the query and the reading of its answer go through,
    [get_seen_post_ids] returns exactly the first columns of the rows of
    [resultTable.rows]: a post id is in the seen set if and only if some
    row starts with it. *)
Theorem seen_ids_are_first_columns http seen :
  PinotClient.query_seen http = Return seen →
  PinotClient.get_seen_post_ids http = Return seen ∧
  ∃ data table rows_value rows,
    http = Return data ∧
    dict_get data "resultTable" (JObj []) = Return table ∧
    dict_get table "rows" (JArr []) = Return rows_value ∧
    py_iter rows_value = Return rows ∧
    ∀ pid, JStr pid ∈ seen ↔
           ∃ row, row ∈ rows ∧ getitem_idx row 0 = Return (JStr pid).
Proof.
  intros Hq. split; [unfold PinotClient.get_seen_post_ids; by rewrite Hq|].
  unfold PinotClient.query_seen in Hq.
  apply bind_Return in Hq as (data & Hdata & Hq).
  apply bind_Return in Hq as (table & Htable & Hq).
  apply bind_Return in Hq as (rows_value & Hrv & Hq).
  apply bind_Return in Hq as (rows & Hrows & Hq).
  exists data, table, rows_value, rows. do 4 (split; [done|]).
  intros pid. rewrite (seen_rows_str _ _ _ _ Hq). split; [|by right].
  intros [Hin|Hrow]; [by apply elem_of_nil in Hin|done].
Qed.

Lemma seen_ids_are_first_columns_witness :
  PinotClient.get_seen_post_ids (Return (seen_rows ["p4"; "p2"]))
  = Return [JStr "p4"; JStr "p2"].
Proof.
  apply (seen_ids_are_first_columns (Return (seen_rows ["p4"; "p2"]))
           [JStr "p4"; JStr "p2"]).
  by vm_compute.
Defined.

(** ** The ranking client *)

Lemma sort_key_rank_of c k : RankingClient.sort_key c = Return k → k = rank_of c.
Proof.
  unfold RankingClient.sort_key, rank_of.
  destruct (Candidate.rank_score c) as [v|]; [|done]. simpl.
  destruct (as_number v); [|done]. by intros [= <-].
Qed.

Lemma sort_by_rank_score_inv cs ranked :
  RankingClient.sort_by_rank_score cs = Return ranked →
  ranked ≡ₚ cs ∧ sorted_by_rank_desc ranked.
Proof.
  unfold RankingClient.sort_by_rank_score. intros Hs.
  apply bind_Return in Hs as (keyed & Hk & Hs). injection Hs as <-.
  apply py_mapM_Forall2 in Hk.
  assert (keyed = (fun c => (rank_of c, c)) <$> cs) as ->.
  { induction Hk as [|c kc cs keyed Hc Hk IH]; [done|].
    rewrite fmap_cons, IH. f_equal.
    apply bind_Return in Hc as (k & Hk' & Hc). injection Hc as <-.
    by rewrite (sort_key_rank_of _ _ Hk'). }
  unfold RankingClient.sort_desc. split.
  - rewrite foldr_insert_desc_perm, <- list_fmap_compose. by rewrite list_fmap_id.
  - apply sorted_keys_ranks; [|apply foldr_insert_desc_sorted].
    rewrite foldr_insert_desc_perm. apply Forall_fmap. by apply Forall_true.
Qed.

Lemma sort_key_numeric c k : RankingClient.sort_key c = Return k → numeric_score c.
Proof.
  unfold RankingClient.sort_key, numeric_score.
  destruct (Candidate.rank_score c) as [v|]; [|done].
  destruct (as_number v) as [r|] eqn:E; [|done]. intros _. by exists v, r.
Qed.

Lemma sort_by_rank_score_numeric_inv cs ranked :
  RankingClient.sort_by_rank_score cs = Return ranked → Forall numeric_score cs.
Proof.
  unfold RankingClient.sort_by_rank_score. intros Hs.
  apply bind_Return in Hs as (keyed & Hk & _).
  apply py_mapM_Forall2 in Hk. apply Forall2_Forall_l with (Q := numeric_score) in Hk.
  - done.
  - apply Forall_true. intros c kc Hc.
    apply bind_Return in Hc as (k & Hk' & _). by eapply sort_key_numeric.
Qed.

Lemma insert_desc_filter (k : R) x l :
  filter (fun y : R * Candidate.t => y.1 = k) (RankingClient.insert_desc x l) =
  if decide (x.1 = k) then x :: filter (fun y : R * Candidate.t => y.1 = k) l
  else filter (fun y : R * Candidate.t => y.1 = k) l.
Proof.
  induction l as [|y l IH]; simpl.
  - by rewrite filter_cons.
  - destruct (Rlt_dec x.1 y.1) as [Hlt|Hge].
    + rewrite !filter_cons, IH.
      destruct (decide (y.1 = k)) as [Hy|Hy]; [|done].
      repeat case_decide; (lra || done).
    + by rewrite filter_cons.
Qed.

Lemma foldr_insert_desc_filter (k : R) keyed :
  filter (fun y : R * Candidate.t => y.1 = k) (foldr RankingClient.insert_desc [] keyed) =
  filter (fun y : R * Candidate.t => y.1 = k) keyed.
Proof.
  induction keyed as [|x l IH]; simpl; [done|].
  rewrite insert_desc_filter, filter_cons, IH. done.
Qed.

Lemma sort_by_rank_score_stable cs ranked (k : R) :
  RankingClient.sort_by_rank_score cs = Return ranked →
  filter (fun c => rank_of c = k) ranked = filter (fun c => rank_of c = k) cs.
Proof.
  unfold RankingClient.sort_by_rank_score. intros Hs.
  apply bind_Return in Hs as (keyed & Hk & Hs). injection Hs as <-.
  apply py_mapM_Forall2 in Hk.
  assert (keyed = (fun c => (rank_of c, c)) <$> cs) as ->.
  { induction Hk as [|c kc cs keyed Hc Hk IH]; [done|].
    rewrite fmap_cons, IH. f_equal.
    apply bind_Return in Hc as (k' & Hk' & Hc). injection Hc as <-.
    by rewrite (sort_key_rank_of _ _ Hk'). }
  unfold RankingClient.sort_desc.
  assert (∀ l : list (R * Candidate.t),
            Forall (fun kc => kc.1 = rank_of kc.2) l →
            filter (fun c => rank_of c = k) l.*2 =
            (filter (fun y : R * Candidate.t => y.1 = k) l).*2) as Hfm.
  { induction 1 as [|kc l Hkc _ IH]; [done|].
    rewrite fmap_cons, !filter_cons, IH, <- Hkc.
    by destruct (decide (kc.1 = k)). }
  rewrite Hfm.
  - rewrite foldr_insert_desc_filter, <- Hfm.
    + rewrite <- list_fmap_compose. by rewrite list_fmap_id.
    + apply Forall_fmap. by apply Forall_true.
  - rewrite foldr_insert_desc_perm. apply Forall_fmap. by apply Forall_true.
Qed.

Lemma rescored_set_rank_score c s : rescored c (Candidate.set_rank_score c s).
Proof. done. Qed.

Lemma score_candidates_scored http now uf cands ranked :
  RankingClient.score_candidates http now uf cands = Return ranked →
  ∃ scored, Forall2 rescored cands scored ∧
            RankingClient.sort_by_rank_score scored = Return ranked.
Proof.
  unfold RankingClient.score_candidates.
  destruct cands as [|c cs] eqn:Hcs.
  { intros [= <-]. exists []. split; [constructor|done]. }
  rewrite <- Hcs. clear Hcs. intros Hs.
  apply bind_Return in Hs as (scored & Hscored & Hs).
  exists scored. split; [|done].
  unfold try_except in Hscored.
  destruct (RankingClient.model_scores http cands) as [ms|e] eqn:Hm.
  - injection Hscored as <-. unfold RankingClient.model_scores in Hm.
    apply bind_Return in Hm as (data & _ & Hm).
    apply bind_Return in Hm as (scores & _ & Hm).
    apply bind_Return in Hm as (scores' & _ & Hm).
    apply bind_Return in Hm as (score_map & _ & Hm). injection Hm as <-.
    apply Forall2_fmap_r, Forall_Forall2_diag, Forall_true. intros x.
    apply rescored_set_rank_score.
  - unfold RankingClient._apply_heuristic_scores in Hscored.
    apply bind_Return in Hscored as (ml & _ & Hscored).
    apply py_mapM_Forall2 in Hscored.
    eapply Forall2_impl; [exact Hscored|]. intros x y Hxy. simpl in Hxy.
    apply bind_Return in Hxy as (age & _ & Hxy).
    apply bind_Return in Hxy as (recency & _ & Hxy).
    apply bind_Return in Hxy as (ln & _ & Hxy). injection Hxy as <-.
    apply rescored_set_rank_score.
Qed.

Lemma score_candidates_inv http now uf cands ranked :
  RankingClient.score_candidates http now uf cands = Return ranked →
  ∃ scored, Forall2 rescored cands scored ∧ ranked ≡ₚ scored ∧
            sorted_by_rank_desc ranked.
Proof.
  intros Hs. apply score_candidates_scored in Hs as (scored & Hre & Hs).
  apply sort_by_rank_score_inv in Hs as [Hperm Hsorted]. by exists scored.
Qed.

(** X7.  Whenever [score_candidates] returns, on the model path or on the
    heuristic path, the result is a rearrangement of the candidates it was
    given, each with the same post id, source and features: no candidate is
    dropped, added or repeated.  When the scores of the ranking answer are
    finite numbers (or there is no answer), every [rank_score] is a number
    and the result is in descending order of it. *)
Theorem score_candidates_reorders http now uf cands ranked :
  RankingClient.score_candidates http now uf cands = Return ranked →
  ∃ scored,
    Forall2 rescored cands scored ∧
    ranked ≡ₚ scored ∧
    (numeric_answer http → Forall numeric_score ranked ∧ sorted_by_rank_desc ranked).
Proof.
  intros Hs. apply score_candidates_scored in Hs as (scored & Hre & Hs).
  pose proof (sort_by_rank_score_numeric_inv _ _ Hs) as Hnum.
  apply sort_by_rank_score_inv in Hs as [Hperm Hsorted].
  exists scored. rewrite Hperm at 2. done.
Qed.

(** X8.  The sort of [score_candidates] is stable: candidates with equal
    scores come out in the order they went in (social before discovery, as
    merged). *)
Theorem score_candidates_stable http now uf cands ranked :
  RankingClient.score_candidates http now uf cands = Return ranked →
  ∃ scored,
    Forall2 rescored cands scored ∧
    ∀ k : R, filter (fun c => rank_of c = k) ranked = filter (fun c => rank_of c = k) scored.
Proof.
  intros Hs. apply score_candidates_scored in Hs as (scored & Hre & Hs).
  exists scored. split; [done|]. intros k. by apply sort_by_rank_score_stable.
Qed.

Lemma sample_scoring :
  RankingClient.score_candidates (Return (sample_scores 4 3 2 1)) 1000 ∅ sample_candidates
  = Return sample_ranked.
Proof. apply (sample_ranking 4 3 2 1); lra. Qed.

Lemma sample_scores_numeric (s1 s2 s3 s4 : R) :
  numeric_answer (Return (sample_scores s1 s2 s3 s4)).
Proof.
  intros data scores entries entry v [= <-] Hscores Hiter Hin Hv.
  cbn in Hscores. injection Hscores as <-. cbn in Hiter. injection Hiter as <-.
  repeat (apply elem_of_cons in Hin as [->|Hin];
          [cbn in Hv; injection Hv as <-; by eexists|]).
  by apply elem_of_nil in Hin.
Qed.

Lemma score_candidates_reorders_witness :
  ∃ scored,
    Forall2 rescored sample_candidates scored ∧
    sample_ranked ≡ₚ scored ∧
    (numeric_answer (Return (sample_scores 4 3 2 1)) →
     Forall numeric_score sample_ranked ∧ sorted_by_rank_desc sample_ranked).
Proof.
  exact (score_candidates_reorders (Return (sample_scores 4 3 2 1)) 1000 ∅
           sample_candidates sample_ranked sample_scoring).
Defined.

Lemma score_candidates_stable_witness :
  ∃ scored,
    Forall2 rescored sample_candidates scored ∧
    ∀ k : R, filter (fun c => rank_of c = k) sample_ranked
             = filter (fun c => rank_of c = k) scored.
Proof.
  exact (score_candidates_stable (Return (sample_scores 4 3 2 1)) 1000 ∅
           sample_candidates sample_ranked sample_scoring).
Defined.

(** One entry of the answer, read into the score map. *)
Lemma score_map_step_other (acc acc' : gmap string json) entry pid :
  (pid' ← getitem entry "post_id"; score ← getitem entry "score"; dict_set acc pid' score)
    = Return acc' →
  ¬ scores_post pid entry → acc' !! pid = acc !! pid.
Proof.
  unfold scores_post. intros Hstep Hne.
  apply bind_Return in Hstep as (k & Hk & Hstep).
  apply bind_Return in Hstep as (v & Hv & Hstep).
  unfold dict_set in Hstep. destruct k as [| | |s| |]; simpl in Hstep;
    try (by injection Hstep as <-); try done.
  injection Hstep as <-. rewrite lookup_insert_ne; [done|]. intros ->. by apply Hne.
Qed.

Lemma score_map_step_this (acc acc' : gmap string json) entry pid v :
  (pid' ← getitem entry "post_id"; score ← getitem entry "score"; dict_set acc pid' score)
    = Return acc' →
  scores_post pid entry → getitem entry "score" = Return v → acc' !! pid = Some v.
Proof.
  unfold scores_post. intros Hstep Hk Hv. rewrite Hk in Hstep. simpl in Hstep.
  rewrite Hv in Hstep. simpl in Hstep. injection Hstep as <-.
  by rewrite lookup_insert_eq.
Qed.

Lemma score_map_other entries (acc m : gmap string json) pid :
  py_foldl (fun acc s =>
              pid' ← getitem s "post_id"; score ← getitem s "score";
              dict_set acc pid' score) acc entries = Return m →
  Forall (fun e => ¬ scores_post pid e) entries → m !! pid = acc !! pid.
Proof.
  revert acc. induction entries as [|e entries IH]; intros acc; simpl.
  - by intros [= <-].
  - intros Hf Hall. apply bind_Return in Hf as (acc' & Hstep & Hf).
    apply Forall_cons in Hall as [He Hall].
    rewrite (IH _ Hf Hall). by eapply score_map_step_other.
Qed.

(** X9.  On the model path a candidate that the answer of the ranking
    service does not list is scored 0.0, and a candidate listed once or more
    gets the score of its last entry. *)
Theorem model_scores_assignment http cands scored :
  RankingClient.model_scores http cands = Return scored →
  ∃ data scores entries,
    http = Return data ∧ getitem data "scores" = Return scores ∧
    py_iter scores = Return entries ∧
    Forall2 (fun c c' =>
      rescored c c' ∧
      (Forall (fun e => ¬ scores_post (Candidate.post_id c) e) entries →
       Candidate.rank_score c' = Some (JNum 0)) ∧
      (∀ before entry after v,
         entries = before ++ entry :: after →
         scores_post (Candidate.post_id c) entry →
         getitem entry "score" = Return v →
         Forall (fun e => ¬ scores_post (Candidate.post_id c) e) after →
         Candidate.rank_score c' = Some v)) cands scored.
Proof.
  unfold RankingClient.model_scores. intros Hm.
  apply bind_Return in Hm as (data & Hdata & Hm).
  apply bind_Return in Hm as (scores & Hscores & Hm).
  apply bind_Return in Hm as (entries & Hentries & Hm).
  apply bind_Return in Hm as (score_map & Hmap & Hm). injection Hm as <-.
  exists data, scores, entries. do 3 (split; [done|]).
  apply Forall2_fmap_r, Forall_Forall2_diag, Forall_true. intros c.
  split; [apply rescored_set_rank_score|]. split.
  - intros Hnone. simpl. by rewrite (score_map_other _ _ _ _ Hmap Hnone), lookup_empty.
  - intros before entry after v -> Hthis Hv Hafter. simpl.
    rewrite py_foldl_app in Hmap. apply bind_Return in Hmap as (m1 & _ & Hmap).
    simpl in Hmap. apply bind_Return in Hmap as (m2 & Hstep & Hmap).
    rewrite (score_map_other _ _ _ _ Hmap Hafter).
    by rewrite (score_map_step_this _ _ _ _ _ Hstep Hthis Hv).
Qed.

Lemma model_scores_assignment_witness :
  ∃ data scores entries,
    Return (sample_scores 4 3 2 1) = Return data ∧
    getitem data "scores" = Return scores ∧
    py_iter scores = Return entries ∧
    Forall2 (fun c c' =>
      rescored c c' ∧
      (Forall (fun e => ¬ scores_post (Candidate.post_id c) e) entries →
       Candidate.rank_score c' = Some (JNum 0)) ∧
      (∀ before entry after v,
         entries = before ++ entry :: after →
         scores_post (Candidate.post_id c) entry →
         getitem entry "score" = Return v →
         Forall (fun e => ¬ scores_post (Candidate.post_id c) e) after →
         Candidate.rank_score c' = Some v))
      [tagged social "p1"; tagged discovery "p9"]
      [Candidate.set_rank_score (tagged social "p1") (JNum 4);
       Candidate.set_rank_score (tagged discovery "p9") (JNum 0)].
Proof.
  apply (model_scores_assignment (Return (sample_scores 4 3 2 1))
           [tagged social "p1"; tagged discovery "p9"]).
  by vm_compute.
Defined.

Lemma py_max_raises_only xs dflt e :
  RankingClient.py_max xs dflt = Raise e → e = TypeError.
Proof.
  unfold RankingClient.py_max. destruct xs as [|x rest]; [done|].
  apply py_foldl_raises_only. intros best item e' Hstep.
  unfold RankingClient.py_gt in Hstep.
  destruct (as_number item), (as_number best); simpl in Hstep; try done;
    destruct item, best; simpl in Hstep; congruence.
Qed.

Lemma truthy_nonzero v r : truthy v = true → as_number v = Some r → r ≠ 0%R.
Proof.
  destruct v as [|[]|x| | |]; simpl; try done; intros Ht [= <-]; try lra.
  by apply negb_true_iff, bool_decide_eq_false in Ht.
Qed.

Lemma py_mapM_fails_with {A B} (e0 : exn) (f : A → py B) xs :
  (∀ x e, x ∈ xs → f x = Raise e → e = e0) →
  (∃ x, x ∈ xs ∧ raises (f x)) →
  py_mapM f xs = Raise e0.
Proof.
  induction xs as [|x xs IH]; intros Hf (y & Hy & Hfy).
  - by apply elem_of_nil in Hy.
  - simpl. destruct (f x) as [b|e] eqn:E; simpl.
    + apply elem_of_cons in Hy as [->|Hy].
      * destruct Hfy as [e' He']. congruence.
      * rewrite IH; [done| |by exists y].
        intros z e Hz. apply Hf. by right.
    + rewrite (Hf x e); [done|by left|done].
Qed.

(** X10.  The heuristic fallback on like counts and creation times of
    moderate size.  It returns when they are all numbers (or absent) and no
    creation time is more than 1.2e8 seconds ahead of the clock.  When some
    of them is not a number it raises TypeError, and when all are numbers
    and a creation time is 1.23e8 seconds or more ahead of the clock,
    [math.exp] raises OverflowError.  It runs inside the exception handler
    of [score_candidates], so the error escapes: with the ranking service
    failing too, [score_candidates] raises it. *)
Theorem heuristic_needs_numbers now candidates :
  (Forall (numeric_features now) candidates →
   Forall (moderate_features now) candidates →
   Forall (exp_in_range now) candidates →
   returns (RankingClient._apply_heuristic_scores now candidates)) ∧
  (¬ Forall (numeric_features now) candidates →
   Forall (moderate_features now) candidates →
   Forall (exp_in_range now) candidates →
   RankingClient._apply_heuristic_scores now candidates = Raise TypeError ∧
   ∀ http uf, raises (RankingClient.model_scores http candidates) →
     RankingClient.score_candidates http now uf candidates = Raise TypeError) ∧
  (Forall (numeric_features now) candidates →
   Exists (exp_overflows now) candidates →
   RankingClient._apply_heuristic_scores now candidates = Raise OverflowError ∧
   ∀ http uf, raises (RankingClient.model_scores http candidates) →
     RankingClient.score_candidates http now uf candidates = Raise OverflowError).
Proof.
  assert (Hescape : ∀ e0, candidates ≠ [] →
    RankingClient._apply_heuristic_scores now candidates = Raise e0 →
    ∀ http uf, raises (RankingClient.model_scores http candidates) →
      RankingClient.score_candidates http now uf candidates = Raise e0).
  { intros e0 Hne Hraise http uf [e He]. unfold RankingClient.score_candidates.
    destruct candidates as [|c cs] eqn:Hcs; [done|].
    rewrite <- Hcs in *. by rewrite He; simpl; rewrite Hraise. }
  split; [|split].
  - intros Hnum _ Hrange. rewrite heuristic_scores by done. by eexists.
  - intros Hbad _ Hrange.
    assert (RankingClient._apply_heuristic_scores now candidates = Raise TypeError) as Hraise.
    { unfold RankingClient._apply_heuristic_scores.
      destruct (RankingClient.py_max _ _) as [m|e] eqn:Hmax; simpl.
      2:{ by rewrite (py_max_raises_only _ _ _ Hmax). }
      set (maxl := if truthy m then m else JNum 1).
      assert (∀ r, as_number maxl = Some r → r ≠ 0%R) as Hnz.
      { intros r. unfold maxl. destruct (truthy m) eqn:Ht.
        - by apply truthy_nonzero.
        - simpl. intros [= <-]. lra. }
      apply py_mapM_fails_with.
      - intros c e Hc. eapply Forall_forall in Hrange; [|exact Hc].
        unfold exp_in_range, created_at_ts in Hrange.
        unfold RankingClient.py_sub, RankingClient.py_div. simpl.
        destruct (as_number (Candidate.feature c "created_at_ts" (JNum now))) as [ts|];
          simpl; [|by intros [= <-]].
        simpl in Hrange. rewrite math_exp_in_range by lra. simpl.
        destruct (as_number (Candidate.feature c "like_count" (JNum 0)));
          simpl; [|by intros [= <-]].
        destruct (as_number maxl) as [rm|] eqn:Hr; simpl; [|by intros [= <-]].
        rewrite bool_decide_false by by apply Hnz. done.
      - apply not_Forall_Exists in Hbad; [|apply _].
        apply Exists_exists in Hbad as (c & Hc & Hbad). exists c. split; [done|].
        eapply Forall_forall in Hrange; [|exact Hc].
        unfold exp_in_range, created_at_ts in Hrange.
        unfold numeric_features in Hbad.
        unfold RankingClient.py_sub, RankingClient.py_div. simpl.
        destruct (as_number (Candidate.feature c "created_at_ts" (JNum now)))
          as [ts|] eqn:E1; simpl; [|by eexists].
        simpl in Hrange. rewrite math_exp_in_range by lra. simpl.
        destruct (as_number (Candidate.feature c "like_count" (JNum 0))) eqn:E2;
          simpl; [|by eexists].
        destruct Hbad. split; by eexists. }
    split; [done|]. apply Hescape; [|done]. intros ->. apply Hbad. constructor.
  - intros Hnum Hover.
    assert (RankingClient._apply_heuristic_scores now candidates = Raise OverflowError)
      as Hraise.
    { unfold RankingClient._apply_heuristic_scores.
      assert (∃ m, RankingClient.py_max
                     ((fun c => Candidate.feature c "like_count" (JNum 0)) <$> candidates)
                     (JNum 1) = Return m ∧
                   ∃ r, as_number (if truthy m then m else JNum 1) = Some r ∧ r ≠ 0%R)
        as (m & -> & rm & Hm & Hnz).
      { destruct candidates as [|c cs]; [by apply Exists_nil in Hover|].
        inversion Hnum as [|?? [[l Hl] _] Hcs]; subst.
        destruct (py_max_numeric (Candidate.feature c "like_count" (JNum 0))
                    ((fun c => Candidate.feature c "like_count" (JNum 0)) <$> cs)
                    l (JNum 1) Hl) as (m & Hm & Hval).
        { apply Forall_fmap. eapply Forall_impl; [exact Hcs|]. by intros x [? _]. }
        exists m. split; [exact Hm|].
        destruct (truthy m) eqn:Ht.
        - eexists. split; [exact Hval|]. by eapply truthy_nonzero.
        - exists 1%R. split; [done|lra]. }
      simpl. apply py_mapM_fails_with.
      - intros c e Hc. eapply Forall_forall in Hnum as [[l Hl] [ts Hts]]; [|exact Hc].
        unfold RankingClient.py_sub, RankingClient.py_div, RankingClient.math_exp. simpl.
        rewrite Hts, Hl, Hm. simpl.
        destruct (Rlt_dec _ _); simpl; [by intros [= <-]|].
        by rewrite bool_decide_false.
      - apply Exists_exists in Hover as (c & Hc & Hover). exists c. split; [done|].
        eapply Forall_forall in Hnum as [_ [ts Hts]]; [|exact Hc].
        unfold exp_overflows, created_at_ts in Hover. rewrite Hts in Hover.
        simpl in Hover.
        unfold RankingClient.py_sub. rewrite Hts. simpl.
        rewrite math_exp_overflow by lra. by eexists. }
    split; [done|]. apply Hescape; [|done]. intros ->. by apply Exists_nil in Hover.
Qed.

Lemma liked_moderate pid n : (0 <= n <= 10)%R → moderate_features 1000 (liked pid n).
Proof.
  intros Hn. unfold moderate_features, likes, created_at_ts, liked, Candidate.feature.
  simpl. rewrite lookup_singleton_eq, lookup_singleton_ne by done. simpl.
  assert (1000 <= 10 ^ 15)%R.
  { replace 1000%R with (10 ^ 3)%R by lra. apply Rle_pow; [lra|lia]. }
  split; apply Rabs_le; lra.
Qed.

Lemma heuristic_needs_numbers_witness :
  returns (RankingClient._apply_heuristic_scores 1000 [liked "p1" 1; liked "p3" 3]).
Proof.
  apply (proj1 (heuristic_needs_numbers 1000 [liked "p1" 1; liked "p3" 3])).
  - repeat (constructor; [apply liked_numeric|]). constructor.
  - repeat (constructor; [apply liked_moderate; lra|]). constructor.
  - repeat (constructor; [apply plausible_in_range, liked_plausible; lra|]). constructor.
Defined.

(** ** The feature store client *)

Lemma dot_comm a b : dot a b = dot b a.
Proof.
  revert b. induction a as [|x a IH]; intros [|y b]; try done.
  rewrite !dot_cons, IH. lra.
Qed.

Lemma dot_self a : dot a a = sumsq a.
Proof. induction a as [|x a IH]; [done|]. by rewrite dot_cons, sumsq_cons, IH. Qed.

Lemma dot_scaled k a b : dot (scaled k a) b = (k * dot a b)%R.
Proof.
  revert b. induction a as [|x a IH]; intros [|y b];
    try (unfold dot, scaled; simpl; lra).
  change (scaled k (x :: a)) with ((k * x)%R :: scaled k a).
  rewrite !dot_cons, IH. lra.
Qed.

Lemma sumsq_scaled k a : sumsq (scaled k a) = (k * k * sumsq a)%R.
Proof.
  induction a as [|x a IH]; [unfold sumsq, scaled; simpl; lra|].
  change (scaled k (x :: a)) with ((k * x)%R :: scaled k a).
  rewrite !sumsq_cons, IH. lra.
Qed.

Lemma norm_sumsq a : FeastClient.np_linalg_norm a = sqrt (sumsq a).
Proof. reflexivity. Qed.

Lemma norm_scaled k a :
  (0 <= k)%R → FeastClient.np_linalg_norm (scaled k a) = (k * FeastClient.np_linalg_norm a)%R.
Proof.
  intros Hk. rewrite !norm_sumsq, sumsq_scaled.
  rewrite sqrt_mult by (pose proof (sumsq_nonneg a); nra).
  by rewrite sqrt_square.
Qed.

Lemma np_dot_dot a b :
  FeastClient.np_dot a b =
  if Nat.eqb (length a) (length b) then Return (dot a b) else Raise ValueError.
Proof. reflexivity. Qed.

(** X11.  On one-dimensional arrays of moderate numbers, and up to the
    rounding of float32 (within 0.001): [_cosine_sim] is symmetric, it
    gives 1.0 for a vector with a non-zero entry against itself, and scaling
    its first argument by a positive factor does not change what it
    returns.  Neither the order of the arguments nor the scaling changes
    whether it raises. *)
Theorem cosine_sim_laws (a b : list R) :
  moderate a → moderate b →
  ((raises (FeastClient._cosine_sim b a) ↔ raises (FeastClient._cosine_sim a b)) ∧
   ∀ s s', FeastClient._cosine_sim a b = Return s →
           FeastClient._cosine_sim b a = Return s' →
           (Rabs (s' - s) <= 1 / 1000)%R) ∧
  ((0 < sumsq a)%R →
   ∃ s, FeastClient._cosine_sim a a = Return s ∧ (Rabs (s - 1) <= 1 / 1000)%R) ∧
  (∀ k : R, (0 < k)%R → moderate (scaled k a) →
     (raises (FeastClient._cosine_sim (scaled k a) b) ↔
      raises (FeastClient._cosine_sim a b)) ∧
     ∀ s s', FeastClient._cosine_sim a b = Return s →
             FeastClient._cosine_sim (scaled k a) b = Return s' →
             (Rabs (s' - s) <= 1 / 1000)%R).
Proof.
  intros _ _.
  assert (Hscale : ∀ k : R, (0 < k)%R →
    FeastClient._cosine_sim (scaled k a) b = FeastClient._cosine_sim a b).
  { intros k Hk. unfold FeastClient._cosine_sim.
    unfold scaled at 1. rewrite length_fmap. fold (scaled k a).
    destruct (_ || _); [done|].
    rewrite norm_scaled by lra.
    set (na := FeastClient.np_linalg_norm a). set (nb := FeastClient.np_linalg_norm b).
    destruct (Rlt_dec 0 (na * nb)) as [Hn|Hn].
    + destruct (Rlt_dec 0 (k * na * nb)) as [_|Hn']; [|nra].
      rewrite !np_dot_dot. unfold scaled at 1. rewrite length_fmap. fold (scaled k a).
      destruct (_ =? _)%nat; [|done]. simpl. rewrite dot_scaled. f_equal.
      assert (na ≠ 0%R) by (intros Hz; rewrite Hz in Hn; lra).
      assert (nb ≠ 0%R) by (intros Hz; rewrite Hz in Hn; lra).
      field. repeat split; (done || lra).
    + destruct (Rlt_dec 0 (k * na * nb)) as [Hn'|_]; [nra|done]. }
  assert (Hsym : FeastClient._cosine_sim b a = FeastClient._cosine_sim a b).
  { unfold FeastClient._cosine_sim. rewrite orb_comm.
    destruct (_ || _); [done|].
    rewrite (Rmult_comm (FeastClient.np_linalg_norm b)).
    destruct (Rlt_dec _ _); [|done].
    rewrite !np_dot_dot, Nat.eqb_sym, dot_comm. done. }
  split; [|split].
  - rewrite Hsym. split; [done|].
    intros s s' -> [= <-]. rewrite Rminus_diag, Rabs_R0. lra.
  - intros Hpos. exists 1%R. split; [|rewrite Rminus_diag, Rabs_R0; lra].
    unfold FeastClient._cosine_sim.
    destruct a as [|x a]; [unfold sumsq in Hpos; simpl in Hpos; lra|].
    cbn [length Nat.eqb orb].
    rewrite norm_sumsq, sqrt_sqrt by lra.
    destruct (Rlt_dec _ _); [|done].
    rewrite np_dot_dot, Nat.eqb_refl, dot_self. simpl. f_equal. unfold Rdiv. apply Rinv_r.
    exact (Rgt_not_eq _ _ Hpos).
  - intros k Hk _. rewrite (Hscale k Hk). split; [done|].
    intros s s' -> [= <-]. rewrite Rminus_diag, Rabs_R0. lra.
Qed.

Lemma cosine_sim_laws_witness :
  ∃ s, FeastClient._cosine_sim [1%R] [1%R] = Return s ∧ (Rabs (s - 1) <= 1 / 1000)%R.
Proof.
  refine (proj1 (proj2 (cosine_sim_laws [1%R] [1%R] _ _)) _).
  - apply moderate_unit, Rabs_R1.
  - apply moderate_unit, Rabs_R1.
  - unfold sumsq. simpl. lra.
Defined.

(** X12.  On one-dimensional arrays of moderate numbers [_cosine_sim]
    raises exactly when the two have different lengths and each has a
    non-zero entry, and then it is the ValueError of [np.dot]; an empty or
    an all-zero vector gives 0.0 whatever the other one is. *)
Theorem cosine_sim_raises_iff (a b : list R) :
  moderate a → moderate b →
  (raises (FeastClient._cosine_sim a b) ↔
   length a ≠ length b ∧ sumsq a ≠ 0%R ∧ sumsq b ≠ 0%R) ∧
  (∀ e, FeastClient._cosine_sim a b = Raise e → e = ValueError) ∧
  (sumsq a = 0%R ∨ sumsq b = 0%R → FeastClient._cosine_sim a b = Return 0%R).
Proof.
  intros _ _.
  pose proof (sumsq_nonneg a) as Ha. pose proof (sumsq_nonneg b) as Hb.
  assert (Hnorm : (0 < FeastClient.np_linalg_norm a * FeastClient.np_linalg_norm b)%R
                  ↔ sumsq a ≠ 0%R ∧ sumsq b ≠ 0%R).
  { rewrite !norm_sumsq. split.
    - intros Hn. split; intros E; rewrite E, sqrt_0 in Hn; lra.
    - intros [Hna Hnb]. apply Rmult_lt_0_compat; apply sqrt_lt_R0; lra. }
  assert (Hnil : ∀ v : list R, Nat.eqb (length v) 0 = true → sumsq v = 0%R).
  { intros v E. by apply Nat.eqb_eq, nil_length_inv in E as ->. }
  unfold FeastClient._cosine_sim. rewrite np_dot_dot. split; [split|split].
  - intros [e He]. destruct (_ || _); [done|].
    destruct (Rlt_dec _ _) as [Hn|]; [|done].
    destruct (Nat.eqb (length a) (length b)) eqn:E; [done|].
    apply Nat.eqb_neq in E. split; [done|]. by apply Hnorm.
  - intros [Hlen Hn].
    destruct (_ || _) eqn:Hempty.
    { apply orb_true_iff in Hempty as [E|E]; apply Hnil in E; tauto. }
    destruct (Rlt_dec _ _) as [|Hnot]; [|by apply Hnorm in Hn].
    apply Nat.eqb_neq in Hlen. rewrite Hlen. by eexists.
  - intros e. destruct (_ || _); [done|].
    destruct (Rlt_dec _ _); [|done].
    destruct (Nat.eqb _ _); [done|]. by intros [= <-].
  - intros Hz. destruct (_ || _); [done|].
    destruct (Rlt_dec _ _) as [Hn|]; [|done]. apply Hnorm in Hn. tauto.
Qed.

Lemma cosine_sim_raises_iff_witness :
  raises (FeastClient._cosine_sim [1%R] [1%R; 1%R]).
Proof.
  assert (moderate [1%R; 1%R]) as Hm.
  { split; [simpl; lia|]. repeat (constructor; [right; rewrite Rabs_R1|]); [..|constructor].
    all: assert (0 < 10 ^ 15)%R by (apply pow_lt; lra);
         (split; [|lra]); apply Rmult_le_reg_r with (10 ^ 15)%R; [done|field_simplify; lra]. }
  refine (proj2 (proj1 (cosine_sim_raises_iff [1%R] [1%R; 1%R] _ Hm)) _).
  - apply moderate_unit, Rabs_R1.
  - unfold sumsq. simpl. repeat split; (done || lra).
Defined.

Lemma dict_set_lookup row fname v row' name :
  dict_set row fname v = Return row' →
  (fname = JStr name → row' !! name = Some v) ∧
  (fname ≠ JStr name → row' !! name = row !! name).
Proof.
  unfold dict_set. destruct fname as [| | |s| |]; simpl; try (intros [= <-]);
    try done.
  split.
  - intros [= ->]. by rewrite lookup_insert_eq.
  - intros Hne. rewrite lookup_insert_ne; [done|]. congruence.
Qed.

Lemma fill_column_lookup values fname i0 rows rows' i row' :
  FeastClient.fill_column values fname i0 rows = Return rows' →
  rows' !! i = Some row' →
  ∃ row v, rows !! i = Some row ∧
           FeastClient.column_value values (i0 + i) = Return v ∧
           dict_set row fname v = Return row'.
Proof.
  revert i0 rows' i. induction rows as [|row rows IH]; intros i0 rows' i; simpl.
  - intros [= <-]. by rewrite lookup_nil.
  - intros Hf. apply bind_Return in Hf as (val & Hval & Hf).
    apply bind_Return in Hf as (row1 & Hrow1 & Hf).
    apply bind_Return in Hf as (rest & Hrest & Hf). injection Hf as <-.
    destruct i as [|i]; simpl.
    + intros [= <-]. exists row, val. by rewrite Nat.add_0_r.
    + intros Hi. destruct (IH _ _ _ Hrest Hi) as (row0 & v & H1 & H2 & H3).
      exists row0, v. split; [done|]. split; [|done].
      by replace (i0 + S i) with (S i0 + i) by lia.
Qed.

Lemma parse_columns_lookup results c names rows rows' i row' :
  FeastClient.parse_columns results c names rows = Return rows' →
  rows' !! i = Some row' →
  ∃ row, rows !! i = Some row ∧
    ∀ name,
      (JStr name ∉ names → row' !! name = row !! name) ∧
      (∀ j, names !! j = Some (JStr name) →
            (∀ j', j < j' → names !! j' ≠ Some (JStr name)) →
            ∃ v, column_holds results (c + j) i v ∧ row' !! name = Some v).
Proof.
  revert c rows. induction names as [|fname names IH]; intros c rows; simpl.
  - intros [= <-] Hi. exists row'. split; [done|]. intros name. split; [done|].
    intros j Hj. by rewrite lookup_nil in Hj.
  - intros Hp Hi.
    apply bind_Return in Hp as (col & Hcol & Hp).
    apply bind_Return in Hp as (values & Hvalues & Hp).
    apply bind_Return in Hp as (rows1 & Hfill & Hp).
    destruct (IH _ _ Hp Hi) as (row1 & Hrow1 & Hnames).
    destruct (fill_column_lookup _ _ _ _ _ _ _ Hfill Hrow1) as (row & v & Hrow & Hv & Hset).
    simpl in Hv. exists row. split; [done|]. intros name.
    pose proof (dict_set_lookup _ _ _ _ name Hset) as [Hthis Hother].
    destruct (Hnames name) as [Hout Hin]. split.
    + intros Hnot. apply not_elem_of_cons in Hnot as [Hne Hnot].
      rewrite (Hout Hnot). apply Hother. congruence.
    + intros [|j] Hj Hlast; simpl in Hj.
      * injection Hj as ->. rewrite Nat.add_0_r. exists v. split; [by exists col, values|].
        rewrite Hout; [by apply Hthis|].
        intros Hel. apply list_elem_of_lookup in Hel as [j' Hj'].
        by apply (Hlast (S j')); [lia|].
      * destruct (Hin j Hj) as (v' & Hhold & Hrow').
        { intros j' Hlt. apply (Hlast (S j')). lia. }
        exists v'. split; [|done]. by replace (c + S j) with (S c + j) by lia.
Qed.

(** X13.  [_parse_response] transposes the column-oriented answer: it
    returns [n_rows] rows; row i holds, under each feature name, entry i of
    the column of that name (None when the column is shorter), the last
    column winning when a name occurs twice; a name that is not listed is
    absent from every row. *)
Theorem parse_response_transposes feature_names results n rows :
  FeastClient._parse_response feature_names results n = Return rows →
  length rows = n ∧
  ∃ names, py_iter feature_names = Return names ∧
    ∀ i row, rows !! i = Some row →
      ∀ name,
        (JStr name ∉ names → row !! name = None) ∧
        (∀ j, names !! j = Some (JStr name) →
              (∀ j', j < j' → names !! j' ≠ Some (JStr name)) →
              ∃ v, column_holds results j i v ∧ row !! name = Some v).
Proof.
  intros Hp. split; [by eapply parse_response_length|].
  unfold FeastClient._parse_response in Hp.
  apply bind_Return in Hp as (names & Hnames & Hp).
  exists names. split; [done|]. intros i row Hi name.
  destruct (parse_columns_lookup _ _ _ _ _ _ _ Hp Hi) as (row0 & Hrow0 & Hall).
  apply lookup_replicate in Hrow0 as [-> _].
  destruct (Hall name) as [Hout Hin]. split.
  - intros Hnot. by rewrite (Hout Hnot), lookup_empty.
  - intros j Hj Hlast. by apply (Hin j).
Qed.

Lemma parse_response_transposes_witness :
  length [({["post_stats__author_id" := JStr "a"]} : gmap string json);
          {["post_stats__author_id" := JNull]}] = 2.
Proof.
  apply (parse_response_transposes (JArr [JStr "post_stats__author_id"])
           (JArr [column [JStr "a"]]) 2).
  by vm_compute.
Defined.

Section Cache.
Context `{Runtime}.


Lemma float_values_empty : RedisClient.float_values ∅ = Return ∅.
Proof. unfold RedisClient.float_values. by rewrite map_to_list_empty. Qed.

(** X14.  [get_post_features] returns one entry per requested post id and
    no other: the floats of the hash stored for the id, and the empty dict
    for an id without a stored hash. *)
Theorem post_features_cover_request pipeline post_ids pfm :
  RedisClient.get_post_features pipeline post_ids = Return pfm →
  ∃ results, pipeline = Return results ∧
    (∀ pid, is_Some (pfm !! pid) ↔ pid ∈ post_ids) ∧
    (∀ pid pf, pfm !! pid = Some pf → RedisClient.float_values (results pid) = Return pf) ∧
    (∀ pid, pid ∈ post_ids → results pid = ∅ → pfm !! pid = Some ∅).
Proof.
  unfold RedisClient.get_post_features. intros Hg.
  apply bind_Return in Hg as (results & Hres & Hg). exists results. split; [done|].
  assert (∀ (acc : gmap string (gmap string json)),
            py_foldl (fun acc pid =>
                        pf ← RedisClient.float_values (results pid);
                        Return (<[pid := pf]> acc)) acc post_ids = Return pfm →
            (∀ pid, is_Some (pfm !! pid) ↔ pid ∈ post_ids ∨ is_Some (acc !! pid)) ∧
            (∀ pid pf, pfm !! pid = Some pf →
               (pid ∈ post_ids ∧ RedisClient.float_values (results pid) = Return pf) ∨
               ((pid ∉ post_ids) ∧ acc !! pid = Some pf))) as Hgen.
  { clear Hg. induction post_ids as [|p ps IH]; intros acc; simpl.
    - intros [= <-]. split.
      + intros pid. split; [by right|]. intros [Hin|?]; [by apply elem_of_nil in Hin|done].
      + intros pid pf Hpf. right. split; [apply not_elem_of_nil|done].
    - intros Hf. apply bind_Return in Hf as (acc' & Hstep & Hf).
      apply bind_Return in Hstep as (pf0 & Hpf0 & Hstep). injection Hstep as <-.
      destruct (IH _ Hf) as [Hdom Hval]. split.
      + intros pid. rewrite (Hdom pid), elem_of_cons.
        destruct (decide (pid = p)) as [->|Hne].
        * rewrite lookup_insert_eq. split; [by left; left|]. intros _. right. by eexists.
        * rewrite lookup_insert_ne by done. tauto.
      + intros pid pf Hpf. destruct (Hval pid pf Hpf) as [[Hin Hfv]|[Hnot Hacc]].
        * left. split; [by right|done].
        * destruct (decide (pid = p)) as [->|Hne].
          -- rewrite lookup_insert_eq in Hacc. injection Hacc as <-.
             left. split; [left|done].
          -- rewrite lookup_insert_ne in Hacc by done. right.
             split; [|done]. by apply not_elem_of_cons. }
  destruct (Hgen ∅ Hg) as [Hdom Hval]. split; [|split].
  - intros pid. rewrite (Hdom pid), lookup_empty. split; [|by left].
    intros [?|[? ?]]; done.
  - intros pid pf Hpf. destruct (Hval pid pf Hpf) as [[_ ?]|[_ Hacc]]; [done|].
    by rewrite lookup_empty in Hacc.
  - intros pid Hin Hempty. destruct (proj2 (Hdom pid)) as [pf Hpf]; [by left|].
    destruct (Hval pid pf Hpf) as [[_ Hfv]|[Hnot _]]; [|done].
    rewrite Hempty, float_values_empty in Hfv. by injection Hfv as <-.
Qed.

End Cache.


Lemma post_features_cover_request_witness :
  ∃ results, Return (fun _ : string => (∅ : gmap string string)) = Return results ∧
    (∀ pid, is_Some (({["p1" := ∅]} : gmap string (gmap string json)) !! pid)
            ↔ pid ∈ ["p1"]) ∧
    (∀ pid pf, ({["p1" := ∅]} : gmap string (gmap string json)) !! pid = Some pf →
       RedisClient.float_values (H := sample_runtime) (results pid) = Return pf) ∧
    (∀ pid, pid ∈ ["p1"] → results pid = ∅ →
       ({["p1" := ∅]} : gmap string (gmap string json)) !! pid = Some ∅).
Proof.
  apply (post_features_cover_request (H := sample_runtime) (Return (fun _ => ∅)) ["p1"]).
  by vm_compute.
Defined.

(** ** The on-demand feature view *)

Section OnDemand.
Context `{Runtime}.


Lemma parse_vector_decode v :
  FeastClient._parse_vector v =
  match OnDemandFeatures.decode v with Return a => a | Raise _ => [] end.
Proof.
  unfold FeastClient._parse_vector, OnDemandFeatures.decode, try_except.
  by destruct (match (if truthy v then v else JStr "[]") with JStr s => _ | _ => _ end).
Qed.

(** X15.  The on-demand feature view computes the same topic similarity
    as the API client: whenever [_cosine_sim] on the two parsed vectors
    returns, [_cosine] gives that value; where the API computation raises
    (vectors of different lengths) the feature view gives 0.0. *)
Theorem odfv_agrees_with_api iv_json ev_json :
  let api := FeastClient._cosine_sim (FeastClient._parse_vector iv_json)
               (FeastClient._parse_vector ev_json) in
  (∀ s, api = Return s → OnDemandFeatures._cosine iv_json ev_json = s) ∧
  (raises api → OnDemandFeatures._cosine iv_json ev_json = 0%R).
Proof.
  intros api. unfold api, OnDemandFeatures._cosine. rewrite !parse_vector_decode.
  destruct (OnDemandFeatures.decode iv_json) as [iv|e1]; simpl.
  - destruct (OnDemandFeatures.decode ev_json) as [ev|e2]; simpl.
    + unfold FeastClient._cosine_sim.
      destruct (_ || _); simpl; [split; [by intros s [= <-]|by intros [e He]]|].
      destruct (Rlt_dec _ _); simpl; [|split; [by intros s [= <-]|by intros [e He]]].
      destruct (FeastClient.np_dot iv ev); simpl;
        split; (by intros s [= <-]) || (by intros [e' He']) || done.
    + unfold FeastClient._cosine_sim. rewrite orb_true_r.
      split; [by intros s [= <-]|done].
  - unfold FeastClient._cosine_sim. simpl. split; [by intros s [= <-]|done].
Qed.

End OnDemand.


Lemma odfv_agrees_with_api_witness :
  OnDemandFeatures._cosine (H := sample_runtime) (JStr "[1.0]") (JStr "[-1.0]") = (-1)%R.
Proof.
  apply (proj1 (odfv_agrees_with_api (H := sample_runtime) (JStr "[1.0]") (JStr "[-1.0]"))).
  rewrite parse_vector_plus, parse_vector_minus. apply cosine_opposite.
Defined.

(** ** The ranking service *)

Lemma round_half_even_bounds (y : R) (N : Z) :
  (0 <= y <= IZR N)%R → (0 <= RankingClient.round_half_even y <= N)%Z.
Proof.
  intros [Hlo Hhi]. unfold RankingClient.round_half_even, frac_part.
  destruct (base_Int_part y) as [Hi1 Hi2].
  set (n := Int_part y) in *.
  assert (0 <= n)%Z as Hn0.
  { apply Z.lt_succ_r. apply lt_IZR. rewrite succ_IZR. lra. }
  assert (n <= N)%Z as HnN by (apply le_IZR; lra).
  assert (n = N → y - IZR n = 0)%R as Htop.
  { intros ->. lra. }
  destruct (Rlt_dec _ _); [lia|].
  assert (n < N)%Z.
  { destruct (decide (n = N)) as [Heq|]; [|lia]. apply Htop in Heq. lra. }
  destruct (Rlt_dec _ _); [lia|]. destruct (Z.even n); lia.
Qed.

Lemma py_round_unit (x : R) : (0 <= x <= 1)%R → (0 <= RankingClient.py_round x 4 <= 1)%R.
Proof.
  intros Hx. unfold RankingClient.py_round.
  assert (10 ^ 4 = IZR 10000)%R as -> by (simpl; lra).
  destruct (round_half_even_bounds (x * IZR 10000) 10000) as [H0 H1]; [lra|].
  apply IZR_le in H0, H1. split.
  - apply Rmult_le_pos; [done|]. lra.
  - apply (Rmult_le_reg_r (IZR 10000)); [lra|]. field_simplify; lra.
Qed.

Lemma all_floats_lookup features k :
  all_floats features →
  features !! k = None ∨ ∃ r, features !! k = Some (JNum r).
Proof.
  intros Hall. destruct (features !! k) as [v|] eqn:E; [|by left].
  destruct (Hall k v E) as [r ->]. right. by exists r.
Qed.

Section RankingServiceFacts.
Context `{Runtime}.


(** X16.  Whenever [_score_candidate] returns, the score lies in [0, 1] and
    is a multiple of 0.0001. *)
Theorem score_candidate_range now jitter uf pf s :
  RankingService._score_candidate now jitter uf pf = Return s →
  (0 <= s <= 1)%R ∧ ∃ n : Z, s = (IZR n / 10 ^ 4)%R.
Proof.
  unfold RankingService._score_candidate. intros Hs.
  apply bind_Return in Hs as (r & _ & Hs).
  apply bind_Return in Hs as (e & _ & Hs).
  apply bind_Return in Hs as (a & _ & Hs).
  apply bind_Return in Hs as (t & _ & Hs). injection Hs as <-. split.
  - apply py_round_unit. split; [apply Rmax_l|].
    apply Rmax_lub; [lra|apply Rmin_l].
  - unfold RankingClient.py_round. by eexists.
Qed.

(** X17.  The ranking service shifts a stored topic similarity c in
    [-1, 1] to (c + 1) / 2, except at c = 0: a similarity that is 0, None
    or absent is replaced by 0.5 before the shift and contributes 0.75,
    more than any similarity between 0 and 0.5 does. *)
Theorem topic_sim_shift pf :
  (∀ c : R, pf !! "topic_similarity" = Some (JNum c) → c ≠ 0%R → (-1 <= c <= 1)%R →
     RankingService.topic_sim pf = Return ((c + 1) / 2)%R) ∧
  (pf !! "topic_similarity" = None ∨ pf !! "topic_similarity" = Some JNull ∨
   pf !! "topic_similarity" = Some (JNum 0) →
     RankingService.topic_sim pf = Return (3 / 4)%R).
Proof.
  unfold RankingService.topic_sim. split.
  - intros c -> Hc Hrange. simpl. rewrite bool_decide_false by done. simpl.
    rewrite Rmin_right by lra. rewrite Rmax_right by lra. done.
  - intros [-> | [-> | ->]]; simpl; rewrite ?bool_decide_true by done; simpl;
      (rewrite Rmin_right by lra); (rewrite Rmax_right by lra); f_equal; lra.
Qed.

Lemma py_float_num (r : R) : py_float (JNum r) = Return r.
Proof. reflexivity. Qed.

Lemma float_or_default features k (dflt : R) :
  all_floats features →
  ∃ r, py_float (let stored := default JNull (features !! k) in
                 if truthy stored then stored else JNum dflt) = Return r.
Proof.
  intros Hall. destruct (all_floats_lookup features k Hall) as [->|[r ->]]; simpl.
  - by eexists.
  - destruct (negb _); by eexists.
Qed.

(** X18.  On feature dicts whose values are all floats (what the Redis
    feature cache returns) [_score_candidate] fails in one case only: a like
    count of -10 makes [likes + 10] zero and raises ZeroDivisionError; for
    every other input it returns. *)
Theorem score_candidate_on_floats now jitter uf pf :
  all_floats uf → all_floats pf →
  (pf !! "like_count" = Some (JNum (-10)) →
   RankingService._score_candidate now jitter uf pf = Raise ZeroDivisionError) ∧
  (pf !! "like_count" ≠ Some (JNum (-10)) →
   returns (RankingService._score_candidate now jitter uf pf)).
Proof.
  intros Huf Hpf. unfold RankingService._score_candidate.
  assert (∃ r, RankingService.recency now pf = Return r) as [rec ->].
  { unfold RankingService.recency.
    destruct (all_floats_lookup pf "created_at_ts" Hpf) as [->|[r ->]]; simpl; by eexists. }
  cbn [mbind py_bind]. split.
  - intros Hl. unfold RankingService.engagement, RankingService.add_number,
      RankingClient.py_div. rewrite Hl.
    simpl. rewrite (bool_decide_false (_ = 0%R)) by lra. simpl.
    rewrite bool_decide_true by lra. done.
  - intros Hl.
    assert (∃ e, RankingService.engagement pf = Return e) as [eng ->].
    { unfold RankingService.engagement, RankingService.add_number,
        RankingClient.py_div.
      destruct (all_floats_lookup pf "like_count" Hpf) as [->|[r Hr]]; simpl.
      - rewrite bool_decide_true by done. simpl.
        rewrite bool_decide_false by lra. by eexists.
      - rewrite Hr. simpl. destruct (bool_decide (r = 0%R)) eqn:E; simpl.
        + rewrite bool_decide_false by lra. by eexists.
        + rewrite bool_decide_false; [by eexists|].
          intros Heq. apply Hl. rewrite Hr. do 2 f_equal. lra. }
    cbn [mbind py_bind].
    assert (∃ a, RankingService.author_affinity uf pf = Return a) as [aff ->].
    { unfold RankingService.author_affinity.
      destruct (float_or_default pf "affinity_score" 0 Hpf) as [a Ha].
      cbv zeta in Ha. rewrite Ha. cbn [mbind py_bind].
      destruct (bool_decide (a = 0%R)); [|by eexists].
      destruct (all_floats_lookup uf "avg_engagement_rate" Huf) as [->|[r ->]]; simpl.
      - destruct (all_floats_lookup uf "avg_engagement" Huf) as [->|[r ->]]; simpl;
          by eexists.
      - destruct (negb (bool_decide (r = 0%R))); simpl; [by eexists|].
        destruct (all_floats_lookup uf "avg_engagement" Huf) as [->|[r' ->]]; simpl;
          by eexists. }
    cbn [mbind py_bind].
    assert (∃ t, RankingService.topic_sim pf = Return t) as [ts ->].
    { unfold RankingService.topic_sim.
      destruct (float_or_default pf "topic_similarity" 0.5 Hpf) as [t Ht].
      cbv zeta in Ht. rewrite Ht. by eexists. }
    by eexists.
Qed.

Lemma rank_from_ids i clock jitter uf cands scores :
  RankingService.rank_from i clock jitter uf cands = Return scores →
  RankingService.score_post_id <$> scores = RankingService.post_id <$> cands.
Proof.
  revert i scores. induction cands as [|c cands IH]; intros i scores; simpl.
  - by intros [= <-].
  - intros Hr. apply bind_Return in Hr as (s & _ & Hr).
    apply bind_Return in Hr as (rest & Hrest & Hr). injection Hr as <-.
    simpl. f_equal. by eapply IH.
Qed.

Lemma score_map_of_response scores (acc : gmap string json) :
  py_foldl (fun acc s =>
              pid ← getitem s "post_id"; score ← getitem s "score";
              dict_set acc pid score) acc (RankingService.post_score_json <$> scores)
  = Return (foldl (fun m s => <[RankingService.score_post_id s
                                 := JNum (RankingService.score s)]> m) acc scores).
Proof.
  revert acc. induction scores as [|s scores IH]; intros acc; simpl; [done|].
  apply IH.
Qed.

(** X19.  Round trip between the ranking service and its client: when
    [rank] scores the candidates of a request whose post ids are distinct,
    [score_candidates]' reading of the serialised answer attaches to every
    candidate the score computed for it, and the answer lists the post ids
    in request order. *)
Theorem ranking_round_trip clock jitter uf cands scores :
  NoDup (Candidate.post_id <$> cands) →
  RankingService.rank clock jitter uf (rank_request <$> cands) = Return scores →
  RankingClient.model_scores (Return (RankingService.response_json scores)) cands =
  Return (zip_with (fun c s => Candidate.set_rank_score c (JNum (RankingService.score s)))
            cands scores) ∧
  RankingService.score_post_id <$> scores = Candidate.post_id <$> cands.
Proof.
  intros Hnd Hr. apply rank_from_ids in Hr as Hids.
  rewrite <- list_fmap_compose in Hids.
  change (RankingService.post_id ∘ rank_request) with Candidate.post_id in Hids.
  split; [|done].
  unfold RankingClient.model_scores, RankingService.response_json. simpl.
  rewrite score_map_of_response. simpl. f_equal.
  rewrite <- Hids in Hnd. clear Hr.
  set (m := foldl _ ∅ scores).
  assert (∀ s, s ∈ scores →
            m !! RankingService.score_post_id s = Some (JNum (RankingService.score s)))
    as Hm.
  { intros s Hs. unfold m.
    by apply (foldl_insert_lookup RankingService.score_post_id
                (fun s => JNum (RankingService.score s))). }
  clearbody m. revert scores Hids Hnd Hm.
  induction cands as [|c cands IH]; intros [|s scores] Hids Hnd Hm; try done.
  simpl. rewrite !fmap_cons in Hids. injection Hids as Hid Hids.
  rewrite fmap_cons in Hnd. apply NoDup_cons in Hnd as [_ Hnd].
  f_equal.
  - rewrite <- Hid, Hm; [done|left].
  - apply IH; [done|done|]. intros s' Hs'. apply Hm. by right.
Qed.

(** A candidate without features, scored for a user without features. *)
Lemma score_candidate_defaults now jitter :
  RankingService._score_candidate now jitter ∅ ∅ =
  Return (RankingClient.py_round
            (Rmax 0 (Rmin 1
               (0.35 * exp (- Rmax 0 ((now - now) / 3600) / 24)
                + 0.25 * ((0 / (0 + 10)) + 0)
                + 0.20 * Rmin 0.5 1
                + 0.15 * Rmax 0 (Rmin 1 ((0.5 + 1) / 2))
                + 0.05 * (0.5 + jitter)))) 4).
Proof.
  unfold RankingService._score_candidate, RankingService.recency,
    RankingService.engagement, RankingService.author_affinity,
    RankingService.topic_sim, RankingService.media_bonus, RankingService.add_number,
    RankingClient.py_div, RankingClient.py_sub.
  rewrite !lookup_empty. simpl.
  rewrite !bool_decide_true by done. simpl.
  rewrite bool_decide_false by lra. simpl. done.
Qed.

End RankingServiceFacts.


Lemma score_candidate_range_witness :
  let s := RankingClient.py_round
            (Rmax 0 (Rmin 1
               (0.35 * exp (- Rmax 0 ((1000 - 1000) / 3600) / 24)
                + 0.25 * ((0 / (0 + 10)) + 0)
                + 0.20 * Rmin 0.5 1
                + 0.15 * Rmax 0 (Rmin 1 ((0.5 + 1) / 2))
                + 0.05 * (0.5 + 0)))) 4 in
  (0 <= s <= 1)%R ∧ ∃ n : Z, s = (IZR n / 10 ^ 4)%R.
Proof.
  exact (score_candidate_range (H := sample_runtime) 1000 0 ∅ ∅ _
           (score_candidate_defaults (H := sample_runtime) 1000 0)).
Defined.

Lemma topic_sim_shift_witness :
  RankingService.topic_sim (H := sample_runtime) {["topic_similarity" := JNum 0]}
  = Return (3 / 4)%R.
Proof.
  apply (proj2 (topic_sim_shift (H := sample_runtime) {["topic_similarity" := JNum 0]})).
  right. right. reflexivity.
Defined.

Lemma score_candidate_on_floats_witness :
  returns (RankingService._score_candidate (H := sample_runtime) 1000 0 ∅
             {["like_count" := JNum 3]}).
Proof.
  refine (proj2 (score_candidate_on_floats (H := sample_runtime) 1000 0 ∅
                   {["like_count" := JNum 3]} _ _) _).
  - intros k v Hk. by rewrite lookup_empty in Hk.
  - intros k v Hk. apply lookup_singleton_Some in Hk as [_ <-]. by eexists.
  - rewrite lookup_singleton_eq. intros [= Heq]. lra.
Defined.

Lemma ranking_round_trip_witness :
  let s := RankingClient.py_round
            (Rmax 0 (Rmin 1
               (0.35 * exp (- Rmax 0 ((1000 - 1000) / 3600) / 24)
                + 0.25 * ((0 / (0 + 10)) + 0)
                + 0.20 * Rmin 0.5 1
                + 0.15 * Rmax 0 (Rmin 1 ((0.5 + 1) / 2))
                + 0.05 * (0.5 + 0)))) 4 in
  let scores := [{| RankingService.score_post_id := "p1"; RankingService.score := s |}] in
  RankingClient.model_scores (Return (RankingService.response_json scores))
    [tagged social "p1"] =
  Return (zip_with (fun c s => Candidate.set_rank_score c (JNum (RankingService.score s)))
            [tagged social "p1"] scores) ∧
  RankingService.score_post_id <$> scores = Candidate.post_id <$> [tagged social "p1"].
Proof.
  apply (ranking_round_trip (H := sample_runtime) (fun _ => 1000%R) (fun _ => 0%R) ∅
           [tagged social "p1"]).
  - repeat (constructor; [set_solver|]). constructor.
  - unfold RankingService.rank. simpl.
    by rewrite (score_candidate_defaults (H := sample_runtime) 1000 0).
Defined.

(** ** The whole request, continued *)

Lemma same_post_ids cands scored :
  Forall2 same_post cands scored →
  Candidate.post_id <$> scored = Candidate.post_id <$> cands.
Proof.
  induction 1 as [|c c' cs cs' (Hid & _) _ IH]; [done|].
  by rewrite !fmap_cons, IH, Hid.
Qed.

Lemma rescored_same_post c c' : rescored c c' → same_post c c'.
Proof. by intros (? & ? & _). Qed.

Lemma same_post_trans c1 c2 c3 : same_post c1 c2 → same_post c2 c3 → same_post c1 c3.
Proof. unfold same_post. intros (-> & ->) (-> & ->). done. Qed.

Lemma merge_ids S D :
  Candidate.post_id <$> Feed.merge S D = first_occurrences (S ++ D).
Proof.
  rewrite merge_tagged, first_occurrences_app, fmap_app.
  rewrite <- !list_fmap_compose. unfold compose, tagged. simpl.
  by rewrite !list_fmap_id.
Qed.

Lemma merge_source S D c :
  c ∈ Feed.merge S D →
  (Candidate.post_id c ∈ S ∨ Candidate.post_id c ∈ D) ∧
  (Candidate.source c = social ↔ Candidate.post_id c ∈ S).
Proof.
  rewrite merge_tagged, elem_of_app, !list_elem_of_fmap.
  intros [(pid & -> & Hpid)|(pid & -> & Hpid)]; simpl.
  - rewrite elem_of_first_occurrences in Hpid. split; [by left|]. by split.
  - apply list_elem_of_filter in Hpid as [Hpid Hin].
    rewrite elem_of_first_occurrences in Hin. split; [by right|]. split; [done|].
    intros ?. by destruct Hpid.
Qed.

Lemma stage2_sublist seen S D :
  stage2 seen S D `sublist_of` Feed.merge S D.
Proof.
  unfold stage2, Feed.filter_seen. etrans; [apply slice_to_sublist|apply sublist_filter].
Qed.

Lemma stage2_unseen seen S D c :
  c ∈ stage2 seen S D → py_mem (JStr (Candidate.post_id c)) seen = false.
Proof.
  unfold stage2, Feed.filter_seen. intros Hc.
  eapply elem_of_sublist in Hc; [|apply slice_to_sublist].
  by apply list_elem_of_filter in Hc as [Hc _].
Qed.

Lemma stage2_NoDup seen S D : NoDup (Candidate.post_id <$> stage2 seen S D).
Proof.
  apply (sublist_NoDup _ (Candidate.post_id <$> Feed.merge S D)).
  - rewrite merge_ids. apply NoDup_first_occurrences.
  - apply fmap_sublist, stage2_sublist.
Qed.

Lemma hydrated_same_post pfm cs : Forall2 same_post cs (hydrated pfm cs).
Proof.
  unfold hydrated. apply Forall2_fmap_r, Forall_Forall2_diag, Forall_true.
  intros x. by split.
Qed.

Lemma first_occurrences_length ids : length (first_occurrences ids) <= length ids.
Proof.
  induction ids as [|x ids IH]; simpl; [done|].
  pose proof (length_filter (fun y => y ≠ x) (first_occurrences ids)). lia.
Qed.

Lemma build_feed_post_inv w post score src fp :
  Feed.build_feed_post w post score src = Return fp →
  FeedPost.post_id fp = Post.post_id post ∧ FeedPost.source fp = src ∧
  as_number score = Some (FeedPost.rank_score fp).
Proof.
  unfold Feed.build_feed_post. destruct (as_number score); [|done].
  by intros [= <-].
Qed.

Lemma rank_of_score c r :
  as_number (default (JNum 0) (Candidate.rank_score c)) = Some r → rank_of c = r.
Proof.
  unfold rank_of. destruct (Candidate.rank_score c) as [v|]; simpl.
  - by intros ->.
  - by intros [= <-].
Qed.

Lemma diversity_walk_accepts w page post_map score_map source_map top_ids st st' :
  Feed.diversity_walk w page post_map score_map source_map top_ids st = Return st' →
  ∃ ids fps, ids `sublist_of` top_ids ∧
    Forall2 (accepted w post_map score_map source_map) ids fps ∧
    Feed.feed_posts st' = Feed.feed_posts st ++ fps ∧
    Feed.served_ids st' = Feed.served_ids st ++ ids.
Proof.
  revert st. induction top_ids as [|pid rest IH]; intros st; simpl.
  - intros [= <-]. exists [], []. by rewrite !app_nil_r.
  - destruct (page <=? _)%Z.
    { intros [= <-]. exists [], []. rewrite !app_nil_r.
      split; [apply sublist_nil_l|]. by split. }
    destruct (post_map !! pid) as [post|] eqn:Hpost.
    2:{ intros Hw. apply IH in Hw as (ids & fps & Hsub & Hacc & Hfp & Hsv).
        exists ids, fps. split; [by apply sublist_cons|done]. }
    destruct (Feed.MAX_AUTHOR_POSTS <=? _)%Z.
    { intros Hw. apply IH in Hw as (ids & fps & Hsub & Hacc & Hfp & Hsv).
      exists ids, fps. split; [by apply sublist_cons|done]. }
    destruct (Feed.build_feed_post _ _ _ _) as [fp|] eqn:Hfp; simpl; [|done].
    intros Hw. apply IH in Hw as (ids & fps & Hsub & Hacc & Hfps & Hsv).
    simpl in Hfps, Hsv. exists (pid :: ids), (fp :: fps).
    split; [by apply sublist_skip|]. split.
    + constructor; [|done]. by exists post.
    + by rewrite Hfps, Hsv, <- !app_assoc.
Qed.

Section FeedFacts.
Context `{Runtime}.


Lemma get_feed_inv cfg w uid out :
  Feed.get_feed cfg w uid = Return out →
  ∃ user S D seen uf pfm src ranked st,
    Feed.db_user w = Return (Some user) ∧
    Feed.stage1 cfg w uid = Return (S, D) ∧
    PinotClient.get_seen_post_ids (Feed.pinot_http w) = Return seen ∧
    Feed.fetch_features w uid (Candidate.post_id <$> stage2 seen S D)
      = Return (uf, pfm, src) ∧
    RankingClient.score_candidates (Feed.ranking_http w) (Feed.clock w) uf
      (hydrated pfm (stage2 seen S D)) = Return ranked ∧
    Feed.stage4 cfg w ranked ranked = Return st ∧
    out = {|
      Feed.response :=
        FeedResponse.Make uid (Feed.feed_posts st) (length S) (length D)
          (length (Feed.filter_seen seen (Feed.merge S D)));
      Feed.feature_source := src;
      Feed.served := Feed.served_ids st;
    |}.
Proof.
  unfold Feed.get_feed. intros Hg.
  apply bind_Return in Hg as ([user|] & Hu & Hg); [|done].
  apply bind_Return in Hg as ([S D] & H1 & Hg).
  apply bind_Return in Hg as (seen & H2 & Hg).
  apply bind_Return in Hg as ([[uf pfm] src] & H3 & Hg).
  apply bind_Return in Hg as (ranked & Hr & Hg).
  apply bind_Return in Hg as (st & Hst & Hg).
  injection Hg as <-. by exists user, S, D, seen, uf, pfm, src, ranked, st.
Qed.

(** What stage 4 hands back, in terms of the ranked candidates. *)
Lemma stage4_page cfg w ranked st :
  NoDup (Candidate.post_id <$> ranked) →
  Feed.stage4 cfg w ranked ranked = Return st →
  ∃ cs, cs `sublist_of` ranked ∧
    Feed.served_ids st = Candidate.post_id <$> cs ∧
    Forall2 (fun c fp =>
               FeedPost.post_id fp = Candidate.post_id c ∧
               FeedPost.source fp = Candidate.source c ∧
               FeedPost.rank_score fp = rank_of c) cs (Feed.feed_posts st).
Proof.
  intros Hnd Hst. unfold Feed.stage4 in Hst.
  apply bind_Return in Hst as (table & _ & Hst).
  apply diversity_walk_accepts in Hst as (ids & fps & Hsub & Hacc & Hfps & Hsv).
  simpl in Hfps, Hsv.
  apply sublist_fmap_inv in Hsub as (cs & Hcs & ->).
  assert (cs `sublist_of` ranked) as Hsubr
    by (etrans; [exact Hcs|apply slice_to_sublist]).
  exists cs. split; [done|]. split; [by rewrite Hsv|]. rewrite Hfps.
  rewrite Forall2_fmap_l in Hacc.
  eapply Forall2_impl_elem; [exact Hacc|]. clear Hacc.
  intros c fp Hc (post & Hpost & Hfp). simpl in Hpost, Hfp.
  eapply elem_of_sublist in Hc; [|exact Hsubr].
  apply foldl_insert_key in Hpost as [Hpost|[_ Hpid]]; [by rewrite lookup_empty in Hpost|].
  apply build_feed_post_inv in Hfp as (Hid & Hsrc & Hscore).
  rewrite (foldl_insert_lookup Candidate.post_id
             (fun c => default (JNum 0) (Candidate.rank_score c))) in Hscore by done.
  rewrite (foldl_insert_lookup Candidate.post_id Candidate.source) in Hsrc by done.
  simpl in Hscore, Hsrc. split; [congruence|]. split; [done|].
  symmetry. by apply rank_of_score.
Qed.

(** The ranked list of a request: the unseen merged candidates, each id
    once, in descending order of score. *)
Lemma get_feed_ranked cfg w uid out :
  Feed.get_feed cfg w uid = Return out →
  ∃ S D seen ranked st,
    Feed.stage1 cfg w uid = Return (S, D) ∧
    PinotClient.get_seen_post_ids (Feed.pinot_http w) = Return seen ∧
    Feed.stage4 cfg w ranked ranked = Return st ∧
    FeedResponse.posts (Feed.response out) = Feed.feed_posts st ∧
    Feed.served out = Feed.served_ids st ∧
    NoDup (Candidate.post_id <$> ranked) ∧
    sorted_by_rank_desc ranked ∧
    ∀ c, c ∈ ranked → ∃ c0, c0 ∈ stage2 seen S D ∧ same_post c0 c.
Proof.
  intros Hg.
  apply get_feed_inv in Hg
    as (user & S & D & seen & uf & pfm & src & ranked & st
        & _ & H1 & H2 & _ & Hr & Hst & ->).
  exists S, D, seen, ranked, st. do 5 (split; [done|]).
  apply score_candidates_inv in Hr as (scored & Hsc & Hperm & Hsorted).
  assert (Forall2 same_post (stage2 seen S D) scored) as Hall.
  { eapply Forall2_trans; [apply same_post_trans|apply hydrated_same_post|].
    eapply Forall2_impl; [exact Hsc|apply rescored_same_post]. }
  split; [|split; [done|]].
  - rewrite Hperm, (same_post_ids _ _ Hall). apply stage2_NoDup.
  - intros c Hc. rewrite Hperm in Hc. by eapply Forall2_elem_r.
Qed.

(** X20.  Every post of a feed response was retrieved in stage 1 (from
    the mailbox or from discovery) and is not in the seen set that
    [get_seen_post_ids] returned; its [source] is social exactly when the
    mailbox returned its id. *)
Theorem feed_serves_unseen_candidates cfg w uid out :
  Feed.get_feed cfg w uid = Return out →
  ∃ S D seen,
    Feed.stage1 cfg w uid = Return (S, D) ∧
    PinotClient.get_seen_post_ids (Feed.pinot_http w) = Return seen ∧
    ∀ fp, fp ∈ FeedResponse.posts (Feed.response out) →
      (FeedPost.post_id fp ∈ S ∨ FeedPost.post_id fp ∈ D) ∧
      (JStr (FeedPost.post_id fp) ∉ seen) ∧
      (FeedPost.source fp = social ↔ FeedPost.post_id fp ∈ S).
Proof.
  intros Hg.
  apply get_feed_ranked in Hg
    as (S & D & seen & ranked & st & H1 & H2 & Hst & -> & _ & Hnd & _ & Hfrom).
  exists S, D, seen. do 2 (split; [done|]). intros fp Hfp.
  apply stage4_page in Hst as (cs & Hsub & _ & Hpage); [|done].
  destruct (Forall2_elem_r _ _ _ _ Hpage Hfp) as (c & Hc & Hid & Hsrc & _).
  eapply elem_of_sublist in Hc; [|exact Hsub].
  destruct (Hfrom c Hc) as (c0 & Hc0 & Hid0 & Hsrc0).
  rewrite Hid, Hsrc, Hid0, Hsrc0.
  pose proof (stage2_unseen _ _ _ _ Hc0) as Hunseen.
  eapply elem_of_sublist in Hc0; [|apply stage2_sublist].
  apply merge_source in Hc0 as [Hin Htag].
  split; [done|]. split; [by apply py_mem_str_false|done].
Qed.

(** X21.  A feed response holds no post twice, and the ids handed to
    [publish_impressions] are the ids of the returned posts, in order. *)
Theorem feed_posts_distinct cfg w uid out :
  Feed.get_feed cfg w uid = Return out →
  NoDup (FeedPost.post_id <$> FeedResponse.posts (Feed.response out)) ∧
  Feed.served out = FeedPost.post_id <$> FeedResponse.posts (Feed.response out).
Proof.
  intros Hg.
  apply get_feed_ranked in Hg
    as (S & D & seen & ranked & st & _ & _ & Hst & -> & -> & Hnd & _ & _).
  apply stage4_page in Hst as (cs & Hsub & Hsv & Hpage); [|done].
  assert (FeedPost.post_id <$> Feed.feed_posts st = Candidate.post_id <$> cs) as Hids.
  { clear -Hpage. induction Hpage as [|c fp cs fps (Hid & _) _ IH]; [done|].
    by rewrite !fmap_cons, IH, Hid. }
  rewrite Hids. split; [|done].
  apply (sublist_NoDup _ (Candidate.post_id <$> ranked)); [done|].
  by apply fmap_sublist.
Qed.

(** X22.  When the scores of the ranking answer are finite numbers (or
    the ranking call fails), the posts of a feed response are in descending
    order of [rank_score]. *)
Theorem feed_sorted_by_score cfg w uid out :
  numeric_answer (Feed.ranking_http w) →
  Feed.get_feed cfg w uid = Return out →
  StronglySorted (fun a b => (FeedPost.rank_score b <= FeedPost.rank_score a)%R)
    (FeedResponse.posts (Feed.response out)).
Proof.
  intros _ Hg.
  apply get_feed_ranked in Hg
    as (S & D & seen & ranked & st & _ & _ & Hst & -> & _ & Hnd & Hsorted & _).
  apply stage4_page in Hst as (cs & Hsub & _ & Hpage); [|done].
  apply (Forall2_sorted_transfer FeedPost.rank_score rank_of cs).
  - eapply Forall2_impl; [exact Hpage|]. by intros c fp (_ & _ & ?).
  - by eapply StronglySorted_sublist_of.
Qed.

(** X23.  The counters of a feed response agree with its posts: there are
    at most [candidates_after_filter] posts and at most MAX_CANDIDATES, and
    [candidates_after_filter] is at most the sum of the two retrieval
    counts. *)
Theorem feed_counters_consistent cfg w uid out :
  Feed.get_feed cfg w uid = Return out →
  let r := Feed.response out in
  length (FeedResponse.posts r) <= FeedResponse.candidates_after_filter r ∧
  (Z.of_nat (length (FeedResponse.posts r)) <= Feed.MAX_CANDIDATES)%Z ∧
  FeedResponse.candidates_after_filter r
    <= FeedResponse.candidates_social r + FeedResponse.candidates_discovery r.
Proof.
  intros Hg r. unfold r.
  apply get_feed_inv in Hg
    as (user & S & D & seen & uf & pfm & src & ranked & st
        & _ & _ & _ & _ & Hr & Hst & ->). simpl.
  apply score_candidates_inv in Hr as (scored & Hsc & Hperm & _).
  assert (length ranked = length (stage2 seen S D)) as Hlen.
  { rewrite Hperm, <- (Forall2_length _ _ _ Hsc). unfold hydrated. by rewrite length_fmap. }
  assert (length (Feed.feed_posts st) <= length ranked) as Hposts.
  { unfold Feed.stage4 in Hst. apply bind_Return in Hst as (table & _ & Hst).
    apply diversity_walk_accepts in Hst as (ids & fps & Hsub & Hacc & Hfps & _).
    simpl in Hfps. rewrite Hfps, <- (Forall2_length _ _ _ Hacc).
    apply sublist_length in Hsub. rewrite length_fmap in Hsub.
    pose proof (sublist_length _ _ (slice_to_sublist ranked (Config.feed_page_size cfg * 3))).
    lia. }
  assert (length (stage2 seen S D) <= length (Feed.filter_seen seen (Feed.merge S D))
          ∧ (Z.of_nat (length (stage2 seen S D)) <= Feed.MAX_CANDIDATES)%Z) as [Hs1 Hs2].
  { unfold stage2, slice_to, Feed.MAX_CANDIDATES. simpl. rewrite length_take. lia. }
  split; [lia|]. split; [lia|].
  pose proof (sublist_length _ _ (sublist_filter
    (fun c => py_mem (JStr (Candidate.post_id c)) seen = false) (Feed.merge S D))) as Hf.
  fold (Feed.filter_seen seen (Feed.merge S D)) in Hf.
  assert (length (Feed.merge S D) <= length S + length D).
  { rewrite <- (length_fmap Candidate.post_id), merge_ids.
    etrans; [apply first_occurrences_length|]. by rewrite length_app. }
  lia.
Qed.

(** X24.  When stage 1 retrieves nothing, or only posts that were seen,
    the request answers with an empty page whatever the feature store, the
    feature cache and the ranking service would have answered: none of them
    is consulted, the feature source is reported as feast, and no
    impression is published. *)
Theorem no_candidates_no_ranking cfg w uid user S D seen table :
  Feed.db_user w = Return (Some user) →
  Feed.stage1 cfg w uid = Return (S, D) →
  PinotClient.get_seen_post_ids (Feed.pinot_http w) = Return seen →
  (∀ pid, pid ∈ S ∨ pid ∈ D → JStr pid ∈ seen) →
  Feed.db_posts w = Return table →
  Feed.get_feed cfg w uid =
  Return {|
    Feed.response := FeedResponse.Make uid [] (length S) (length D) 0;
    Feed.feature_source := "feast";
    Feed.served := [];
  |}.
Proof.
  intros Hu H1 H2 Hseen Hdb.
  assert (Feed.filter_seen seen (Feed.merge S D) = []) as Hempty.
  { unfold Feed.filter_seen. apply filter_none. intros c Hc.
    apply merge_source in Hc as [Hin _]. apply Hseen, py_mem_str in Hin.
    by rewrite Hin. }
  assert (stage2 seen S D = []) as Hstage2 by (unfold stage2; by rewrite Hempty).
  change 0 with (length (@nil Candidate.t)). rewrite <- Hempty.
  apply (get_feed_stages cfg w uid user S D seen ∅ ∅ "feast" [] (Feed.Walk ∅ [] []));
    [done|done|done|by rewrite Hstage2|by rewrite Hstage2|].
  unfold Feed.stage4. rewrite Hdb. simpl. by rewrite slice_to_nil.
Qed.

End FeedFacts.


Lemma sample_request :
  Feed.get_feed (H := sample_runtime) Config.settings (fallback_world 4 3 2 1) "u1"
  = Return sample_outcome.
Proof. apply (sample_feed 4 3 2 1); lra. Qed.

Lemma feed_serves_unseen_candidates_witness :
  ∃ S D seen,
    Feed.stage1 Config.settings (fallback_world 4 3 2 1) "u1"
      = Return (S, D) ∧
    PinotClient.get_seen_post_ids (Feed.pinot_http (fallback_world 4 3 2 1)) = Return seen ∧
    ∀ fp, fp ∈ sample_page →
      (FeedPost.post_id fp ∈ S ∨ FeedPost.post_id fp ∈ D) ∧
      (JStr (FeedPost.post_id fp) ∉ seen) ∧
      (FeedPost.source fp = social ↔ FeedPost.post_id fp ∈ S).
Proof.
  exact (feed_serves_unseen_candidates (H := sample_runtime) Config.settings
           (fallback_world 4 3 2 1) "u1" sample_outcome sample_request).
Defined.

Lemma feed_posts_distinct_witness :
  NoDup (FeedPost.post_id <$> sample_page) ∧
  ["p1"; "p2"; "p4"] = FeedPost.post_id <$> sample_page.
Proof.
  exact (feed_posts_distinct (H := sample_runtime) Config.settings
           (fallback_world 4 3 2 1) "u1" sample_outcome sample_request).
Defined.

Lemma feed_sorted_by_score_witness :
  StronglySorted (fun a b => (FeedPost.rank_score b <= FeedPost.rank_score a)%R)
    sample_page.
Proof.
  exact (feed_sorted_by_score (H := sample_runtime) Config.settings
           (fallback_world 4 3 2 1) "u1" sample_outcome
           (sample_scores_numeric 4 3 2 1) sample_request).
Defined.

Lemma feed_counters_consistent_witness :
  length sample_page <= 4 ∧
  (Z.of_nat (length sample_page) <= Feed.MAX_CANDIDATES)%Z ∧
  4 <= 3 + 2.
Proof.
  exact (feed_counters_consistent (H := sample_runtime) Config.settings
           (fallback_world 4 3 2 1) "u1" sample_outcome sample_request).
Defined.

Lemma no_candidates_no_ranking_witness :
  Feed.get_feed (H := sample_runtime) Config.settings all_seen_world "u1" =
  Return {|
    Feed.response := FeedResponse.Make "u1" [] 0 2 0;
    Feed.feature_source := "feast";
    Feed.served := [];
  |}.
Proof.
  apply (no_candidates_no_ranking (H := sample_runtime) Config.settings all_seen_world
           "u1" (User.Make "u1" "alice" None) [] ["p4"; "p2"] [JStr "p4"; JStr "p2"]
           [sample_post "p1" "a"; sample_post "p2" "a"; sample_post "p3" "a";
            sample_post "p4" "b"]).
  - reflexivity.
  - by vm_compute.
  - by vm_compute.
  - intros pid [Hin|Hin]; [by apply elem_of_nil in Hin|].
    apply elem_of_cons in Hin as [->|Hin]; [left|].
    apply list_elem_of_singleton in Hin as ->. right. left.
  - reflexivity.
Defined.

(** ** The embedding fallback *)

Lemma foldl_sumsq acc raw :
  foldl (fun acc x => acc + x * x)%R acc raw = (acc + sumsq raw)%R.
Proof.
  revert acc. induction raw as [|x raw IH]; intros acc; simpl.
  - unfold sumsq. simpl. lra.
  - rewrite IH, sumsq_cons. lra.
Qed.

Lemma sumsq_div n raw :
  n ≠ 0%R → sumsq ((fun x => x / n)%R <$> raw) = (sumsq raw / (n * n))%R.
Proof.
  intros Hn. induction raw as [|x raw IH].
  - unfold sumsq. simpl. unfold Rdiv. lra.
  - rewrite fmap_cons, !sumsq_cons, IH. field. done.
Qed.

(** X25.  Without a model, or when the model fails, [embed_text] returns a
    vector of the requested dimension with Euclidean norm 1, unless every
    random draw is 0, in which case it returns the draws unchanged. *)
Theorem fallback_embedding_is_unit gauss text dimension model :
  let raw := gauss <$> seq 0 (Z.to_nat dimension) in
  (model = None ∨ (∃ encode, model = Some encode ∧ raises (encode text))) →
  let vec := Embedder.embed_text model gauss text dimension in
  Z.of_nat (length vec) = Z.max 0 dimension ∧
  ((0 < sumsq raw)%R → sumsq vec = 1%R) ∧
  (sumsq raw = 0%R → vec = raw).
Proof.
  intros raw Hmodel vec.
  assert (vec = Embedder.random_unit_vector raw) as ->.
  { unfold vec, Embedder.embed_text.
    destruct Hmodel as [->|(encode & -> & [e He])]; [done|]. by rewrite He. }
  unfold Embedder.random_unit_vector. rewrite foldl_sumsq, Rplus_0_l.
  split; [|split].
  - rewrite length_fmap. unfold raw. rewrite length_fmap, length_seq. lia.
  - intros Hpos. assert (0 < sqrt (sumsq raw))%R as Hs by by apply sqrt_lt_R0.
    rewrite bool_decide_false by lra. rewrite sumsq_div by lra.
    rewrite sqrt_sqrt by lra. unfold Rdiv. apply Rinv_r. lra.
  - intros Hz. rewrite Hz, sqrt_0, bool_decide_true by done.
    rewrite <- (list_fmap_id raw) at 2. apply list_fmap_ext. intros i x _.
    simpl. unfold Rdiv. rewrite Rinv_1. lra.
Qed.

Lemma fallback_embedding_is_unit_witness :
  let raw := (fun _ : nat => 1%R) <$> seq 0 (Z.to_nat 2) in
  let vec := Embedder.embed_text None (fun _ => 1%R) "hello" 2 in
  Z.of_nat (length vec) = Z.max 0 2 ∧
  ((0 < sumsq raw)%R → sumsq vec = 1%R) ∧
  (sumsq raw = 0%R → vec = raw).
Proof.
  apply (fallback_embedding_is_unit (fun _ => 1%R) "hello" 2 None). by left.
Defined.

(** ** The follow graph *)

Lemma follow_user_inv f a db db' :
  Users.follow_user f a db = Return db' →
  f ≠ a ∧ is_Some (Users.users db !! f) ∧ is_Some (Users.users db !! a) ∧
  ((db' = db ∧
    filter (fun row : FanoutWorker.follow_row => row.1 = f ∧ row.2 = a) (Users.follows db)
    = [(f, a)]) ∨
   (((f, a) ∉ Users.follows db) ∧
    db' = {| Users.users := Users.users db;
             Users.follows := Users.follows db ++ [(f, a)] |})).
Proof.
  unfold Users.follow_user. destruct (String.eqb f a) eqn:E; [done|].
  apply String.eqb_neq in E. simpl.
  destruct (Users.users db !! f) as [uf|] eqn:Hf; [|done]. simpl.
  destruct (Users.users db !! a) as [ua|] eqn:Ha; [|done]. simpl.
  intros Hfol. split; [done|]. split; [by eexists|]. split; [by eexists|].
  destruct (filter _ (Users.follows db)) as [|row [|row' rest]] eqn:Hfil; simpl in Hfol;
    [|injection Hfol as <-|done].
  - injection Hfol as <-. right. split; [|done]. intros Hin.
    assert ((f, a) ∈ filter (fun row : FanoutWorker.follow_row => row.1 = f ∧ row.2 = a)
                       (Users.follows db)) as Hin'
      by (by apply list_elem_of_filter).
    rewrite Hfil in Hin'. by apply elem_of_nil in Hin'.
  - left. split; [done|]. f_equal.
    assert (row ∈ filter (fun row : FanoutWorker.follow_row => row.1 = f ∧ row.2 = a)
                   (Users.follows db)) as Hrow by (rewrite Hfil; left).
    apply list_elem_of_filter in Hrow as [[H1 H2] _]. destruct row; simpl in *. congruence.
Qed.

(** X26.  When [follow_user] returns, follower and followee differ, the
    follower is among the followee's followers, the follows table holds
    the edge and otherwise what it held before, without a new duplicate,
    the users table is untouched, and following again changes nothing. *)
Theorem follow_then_listed f a db db' :
  Users.follow_user f a db = Return db' →
  f ≠ a ∧
  f ∈ Users.list_followers a db' ∧
  Users.users db' = Users.users db ∧
  (∀ row, row ∈ Users.follows db' ↔ row ∈ Users.follows db ∨ row = (f, a)) ∧
  (NoDup (Users.follows db) → NoDup (Users.follows db')) ∧
  Users.follow_user f a db' = Return db'.
Proof.
  intros Hfol. pose proof (follow_user_inv _ _ _ _ Hfol)
    as (Hne & Hf & Ha & [[-> Hone]|[Hnew ->]]).
  - assert ((f, a) ∈ Users.follows db) as Hin.
    { assert ((f, a) ∈ filter (fun row : FanoutWorker.follow_row => row.1 = f ∧ row.2 = a)
                         (Users.follows db)) as Hin by (rewrite Hone; left).
      by apply list_elem_of_filter in Hin as [_ Hin]. }
    split; [done|]. split.
    { unfold Users.list_followers. apply list_elem_of_fmap. exists (f, a).
      split; [done|]. by apply list_elem_of_filter. }
    split; [done|]. split; [|split; [done|exact Hfol]].
    intros row. split; [by left|]. by intros [?| ->].
  - split; [done|]. split.
    { unfold Users.list_followers. apply list_elem_of_fmap. exists (f, a).
      split; [done|]. apply list_elem_of_filter. split; [done|].
      simpl. apply elem_of_app. right. left. }
    split; [done|]. split; [|split].
    + intros row. simpl. rewrite elem_of_app, list_elem_of_singleton. done.
    + intros Hnd. simpl. apply NoDup_app. split; [done|]. split.
      * intros row Hrow Hrow'. apply list_elem_of_singleton in Hrow' as ->. done.
      * apply NoDup_singleton.
    + unfold Users.follow_user. apply String.eqb_neq in Hne. rewrite Hne. simpl.
      destruct Hf as [uf ->], Ha as [ua ->]. simpl.
      rewrite filter_app, filter_cons, filter_nil.
      rewrite decide_True by done.
      rewrite (filter_none _ (Users.follows db)); [done|].
      intros [f' a'] Hrow [H1 H2]. simpl in *. subst. done.
Qed.

Lemma follow_then_listed_witness :
  let db' := {| Users.users := Users.users sample_db;
                Users.follows := [("alice", "bob")] |} in
  "alice" ≠ "bob" ∧
  "alice" ∈ Users.list_followers "bob" db' ∧
  Users.users db' = Users.users sample_db ∧
  (∀ row, row ∈ Users.follows db' ↔ row ∈ Users.follows sample_db ∨ row = ("alice", "bob")) ∧
  (NoDup (Users.follows sample_db) → NoDup (Users.follows db')) ∧
  Users.follow_user "alice" "bob" db' = Return db'.
Proof.
  apply (follow_then_listed "alice" "bob" sample_db). by vm_compute.
Defined.

(** X27.  After [unfollow_user] the follower is no longer among the
    followee's followers, every other edge is kept, and unfollowing right
    after a follow that added the edge restores the tables. *)
Theorem unfollow_undoes_follow f a db :
  (f ∉ Users.list_followers a (Users.unfollow_user f a db)) ∧
  (∀ f' a', (f', a') ≠ (f, a) →
     (f', a') ∈ Users.follows (Users.unfollow_user f a db) ↔ (f', a') ∈ Users.follows db) ∧
  (∀ db', (f, a) ∉ Users.follows db → Users.follow_user f a db = Return db' →
     Users.unfollow_user f a db' = db).
Proof.
  split; [|split].
  - unfold Users.list_followers, Users.unfollow_user. simpl.
    rewrite list_elem_of_fmap. intros ([f' a'] & Heq & Hin). simpl in Heq. subst f'.
    apply list_elem_of_filter in Hin as [Ha Hin]. simpl in Ha. subst a'.
    apply list_elem_of_filter in Hin as [Hnot _]. by apply Hnot.
  - intros f' a' Hne. unfold Users.unfollow_user. simpl.
    rewrite list_elem_of_filter. simpl. split; [by intros [_ ?]|].
    intros Hin. split; [|done]. intros [-> ->]. done.
  - intros db' Hnew Hfol.
    apply follow_user_inv in Hfol as (Hne & _ & _ & [[-> Hone]|[_ ->]]).
    + exfalso. apply Hnew.
      assert ((f, a) ∈ filter (fun row : FanoutWorker.follow_row => row.1 = f ∧ row.2 = a)
                         (Users.follows db)) as Hin by (rewrite Hone; left).
      by apply list_elem_of_filter in Hin as [_ Hin].
    + unfold Users.unfollow_user. simpl. destruct db as [us fs]. simpl in *. f_equal.
      rewrite filter_app, filter_cons, filter_nil.
      rewrite decide_False by (simpl; tauto). rewrite app_nil_r.
      apply filter_all. intros [f' a'] Hrow [H1 H2]. simpl in *. subst. done.
Qed.

Lemma unfollow_undoes_follow_witness :
  "alice" ∉ Users.list_followers "bob"
              (Users.unfollow_user "alice" "bob"
                 {| Users.users := Users.users sample_db;
                    Users.follows := [("alice", "bob")] |}).
Proof.
  apply (proj1 (unfollow_undoes_follow "alice" "bob"
                  {| Users.users := Users.users sample_db;
                     Users.follows := [("alice", "bob")] |})).
Defined.
